(** * Connectome analysis: degree statistics, rich-club curves, degree-based
      controls and binned connection probabilities

    A shallow embedding of [src/library/degree_distribution.py] and of the
    data-extraction part of [src/library/modelling.py], with the properties
    the specification states about them and further properties of the code.

    Conventions of the embedding.
    - A scipy sparse matrix is its shape together with the list of its stored
      entries (the coordinate form that [tocoo], [tocsr] and [tocsc] all
      describe).  The adjacency matrix is square, of size [n] (data model of
      the specification); a matrix of dtype [bool] stores no value besides
      [True]; a weighted matrix stores non-negative integer weights.
    - numpy floating-point values are modelled by exact rationals extended
      with [NaN] and the two infinities: rounding is not modelled, the special
      values are.  Integer arrays are unbounded integers (no int64 overflow).
    - Python exceptions are values of type [exn]; a function that can raise
      returns a [result].
    - Library functions outside the repository whose values the properties do
      not depend on (scipy's [binom.pmf], [hypergeom.stats], [curve_fit],
      [np.sqrt], the Euclidean distance) are section variables. *)

From Stdlib Require Import String Bool Arith List Permutation ZArith QArith Qround Qabs Lia Lqa.
Import ListNotations.
Local Open Scope Z_scope.

(** ** Python exceptions and results *)

Inductive exn : Type :=
| Exception (msg : string)
| AssertionError (msg : string)
| ValueError (msg : string)
| IndexError
| TypeError
| ZeroDivisionError
| NameError (name : string)
| UnboundLocalError (name : string).

Definition result (A : Type) : Type := (exn + A)%type.

Definition bind {A B : Type} (c : result A) (k : A -> result B) : result B :=
  match c with
  | inl e => inl e
  | inr a => k a
  end.

Notation "x <- c ;; k" := (bind c (fun x => k))
  (at level 61, c at next level, right associativity).

(** ** numpy values *)

Module Np.

Inductive npfloat : Type :=
| NaN
| PInf
| NInf
| Fin (q : Q).

(** Finite values are kept in lowest terms, so that equal numbers are equal
    terms. *)
Definition fin (q : Q) : npfloat := Fin (Qred q).

Definition of_Z (z : Z) : npfloat := Fin (inject_Z z).

Definition isnan (x : npfloat) : bool :=
  match x with NaN => true | _ => false end.

Definition Qsgn (q : Q) : Z := Z.sgn (Qnum q).

Definition inf_of_sign (s : Z) : npfloat :=
  match s with
  | Z0 => NaN
  | Zpos _ => PInf
  | Zneg _ => NInf
  end.

Definition opp (x : npfloat) : npfloat :=
  match x with
  | NaN => NaN
  | PInf => NInf
  | NInf => PInf
  | Fin a => fin (- a)
  end.

Definition add (x y : npfloat) : npfloat :=
  match x, y with
  | NaN, _ | _, NaN => NaN
  | PInf, NInf | NInf, PInf => NaN
  | PInf, _ | _, PInf => PInf
  | NInf, _ | _, NInf => NInf
  | Fin a, Fin b => fin (a + b)
  end.

Definition sub (x y : npfloat) : npfloat := add x (opp y).

Definition mul (x y : npfloat) : npfloat :=
  match x, y with
  | NaN, _ | _, NaN => NaN
  | Fin a, Fin b => fin (a * b)
  | Fin a, PInf | PInf, Fin a => inf_of_sign (Qsgn a)
  | Fin a, NInf | NInf, Fin a => inf_of_sign (- Qsgn a)
  | PInf, PInf | NInf, NInf => PInf
  | PInf, NInf | NInf, PInf => NInf
  end.

(** numpy's true division: [x / 0] is [nan] for [x = 0] and an infinity
    otherwise (a warning, not an exception). *)
Definition div (x y : npfloat) : npfloat :=
  match x, y with
  | NaN, _ | _, NaN => NaN
  | Fin a, Fin b =>
      if Qeq_bool b 0 then inf_of_sign (Qsgn a) else fin (a / b)
  | Fin _, (PInf | NInf) => Fin 0
  | PInf, Fin b => if Qle_bool 0 b then PInf else NInf
  | NInf, Fin b => if Qle_bool 0 b then NInf else PInf
  | (PInf | NInf), (PInf | NInf) => NaN
  end.

(** Comparisons: every comparison with [nan] is false. *)
Definition leb (x y : npfloat) : bool :=
  match x, y with
  | NaN, _ | _, NaN => false
  | NInf, _ | _, PInf => true
  | Fin a, Fin b => Qle_bool a b
  | _, _ => false
  end.

Definition ltb (x y : npfloat) : bool :=
  match x, y with
  | NaN, _ | _, NaN => false
  | Fin a, Fin b => negb (Qle_bool b a)
  | PInf, _ | _, NInf => false
  | _, _ => true
  end.

Definition geb (x y : npfloat) : bool := leb y x.

Definition eqb (x y : npfloat) : bool :=
  match x, y with
  | Fin a, Fin b => Qeq_bool a b
  | PInf, PInf | NInf, NInf => true
  | _, _ => false
  end.

(** Integer division of two integer arrays, [a / b] in numpy. *)
Definition true_divide (a b : Z) : npfloat := div (of_Z a) (of_Z b).

(** [np.sum] over a float array. *)
Definition sum (l : list npfloat) : npfloat := fold_right add (Fin 0) l.

(** Equality of values up to the representation of the rational. *)
Definition feq (x y : npfloat) : Prop :=
  match x, y with
  | NaN, NaN | PInf, PInf | NInf, NInf => True
  | Fin a, Fin b => (a == b)%Q
  | _, _ => False
  end.

End Np.

Import Np.

(** ** Integer arrays *)

(** [np.sum] and [np.cumsum] over an integer array. *)
Definition zsum (l : list Z) : Z := fold_right Z.add 0 l.

Fixpoint cumsum_from (acc : Z) (l : list Z) : list Z :=
  match l with
  | [] => []
  | x :: l' => (acc + x) :: cumsum_from (acc + x) l'
  end.

Definition cumsum (l : list Z) : list Z := cumsum_from 0 l.

(** [max] of a non-empty integer array ([None] on the empty one, where numpy
    raises). *)
Definition zmax (l : list Z) : option Z :=
  match l with
  | [] => None
  | x :: l' => Some (fold_right Z.max x l')
  end.

Definition zmin (l : list Z) : option Z :=
  match l with
  | [] => None
  | x :: l' => Some (fold_right Z.min x l')
  end.

(** [np.arange(a, b)] for integers. *)
Definition arange (a b : Z) : list Z :=
  map (fun i => a + Z.of_nat i) (seq 0 (Z.to_nat (b - a))).

(** [(v >= i).sum()]: how many entries of [v] are at least [i]. *)
Definition count_ge (v : list Z) (i : Z) : Z :=
  Z.of_nat (length (filter (fun d => i <=? d) v)).

(** ** Sparse matrices *)

Inductive spmatrix : Type :=
| BoolMatrix (n : nat) (nz : list (nat * nat))
| IntMatrix (n : nat) (nz : list (nat * nat * nat)).

Definition size (m : spmatrix) : nat :=
  match m with BoolMatrix n _ | IntMatrix n _ => n end.

Definition dtype_is_bool (m : spmatrix) : bool :=
  match m with BoolMatrix _ _ => true | IntMatrix _ _ => false end.

(** The stored entries as (row, column, value). *)
Definition cells (m : spmatrix) : list (nat * nat * Z) :=
  match m with
  | BoolMatrix _ nz => map (fun rc => (fst rc, snd rc, 1)) nz
  | IntMatrix _ nz => map (fun e => (fst (fst e), snd (fst e), Z.of_nat (snd e))) nz
  end.

Definition cell_row (e : nat * nat * Z) : nat := fst (fst e).
Definition cell_col (e : nat * nat * Z) : nat := snd (fst e).
Definition cell_val (e : nat * nat * Z) : Z := snd e.

Definition nnz (m : spmatrix) : nat := length (cells m).

(** A matrix in canonical form: every coordinate inside the shape, no
    coordinate stored twice. *)
Definition coords (m : spmatrix) : list (nat * nat) := map fst (cells m).

Definition in_shape (m : spmatrix) : bool :=
  forallb (fun rc => (fst rc <? size m)%nat && (snd rc <? size m)%nat) (coords m).

Fixpoint nodup_coords (l : list (nat * nat)) : bool :=
  match l with
  | [] => true
  | rc :: l' =>
      negb (existsb (fun rc' => (fst rc =? fst rc')%nat && (snd rc =? snd rc')%nat) l')
      && nodup_coords l'
  end.

Definition canonical (m : spmatrix) : bool :=
  in_shape m && nodup_coords (coords m).

(** [m.sum(axis=0)]: one sum per column; [m.sum(axis=1)]: one per row. *)
Definition sum_axis0 (m : spmatrix) : list Z :=
  map (fun c => zsum (map cell_val (filter (fun e => (cell_col e =? c)%nat) (cells m))))
      (seq 0 (size m)).

Definition sum_axis1 (m : spmatrix) : list Z :=
  map (fun r => zsum (map cell_val (filter (fun e => (cell_row e =? r)%nat) (cells m))))
      (seq 0 (size m)).

(** [m[np.ix_(mask, mask)].sum()]: the sum of the entries whose row and column
    are both selected. *)
Definition sum_ix (m : spmatrix) (mask : list bool) : Z :=
  zsum (map cell_val
          (filter (fun e => nth (cell_row e) mask false && nth (cell_col e) mask false)
                  (cells m))).

(** ** Float arrays *)

Definition zip_with {A B C : Type} (f : A -> B -> C) (l1 : list A) (l2 : list B) : list C :=
  map (fun p => f (fst p) (snd p)) (combine l1 l2).

Definition Qnat (j : nat) : Q := inject_Z (Z.of_nat j).

(** [np.linspace(start, stop, num)], in exact arithmetic. *)
Definition linspace (start stop : Q) (num : nat) : list Q :=
  match num with
  | O => []
  | S O => [start]
  | S d => map (fun j => start + Qnat j * ((stop - start) / Qnat d))%Q (seq 0 num)
  end.

(** [np.digitize(x, bins)] for increasing [bins]: the index [i] with
    [bins[i-1] <= x < bins[i]], that is, how many edges are at most [x]. *)
Definition digitize (x : Q) (bins : list Q) : Z :=
  Z.of_nat (length (filter (fun b => Qle_bool b x) bins)).

(** A [pd.Series]: its values paired with its index. *)
Definition series (K V : Type) : Type := list (K * V).

Definition index_values {K V : Type} (s : series K V) : list K := map fst s.
Definition values {K V : Type} (s : series K V) : list V := map snd s.

(** * degree_distribution.py *)

Definition unknown_direction (direction : string) : exn :=
  Exception (String.append "Unknown value for argument direction: " direction).

(** ** _bin_degrees *)

Definition _bin_degrees (degrees : list Z) : result (list Q * list Z * list Z) :=
  let len := Z.of_nat (length degrees) in
  let nbins := Z.max (len / 10) (Z.min len 30) in
  match zmax degrees, zmin degrees with
  | Some mx, Some mn =>
      let bins := linspace (inject_Z mn)
                    (inject_Z mx + (1 # 1000000) * (inject_Z mx - inject_Z mn))%Q
                    (Z.to_nat (nbins + 1)) in
      let degrees := map (fun d => digitize (inject_Z d) bins - 1) degrees in
      let udegrees := arange 0 nbins in
      let ret_x := zip_with (fun lo hi => (1 # 2) * (lo + hi))%Q (removelast bins) (tl bins) in
      inr (ret_x, udegrees, degrees)
  | _, _ => inl (ValueError "zero-size array to reduction operation fmax which has no identity")
  end.

(** ** rich_club_curve *)

Definition rich_club_curve {NRN : Type} (m : spmatrix) (nrn : NRN) (direction : string)
  : result (series Q npfloat) :=
  degrees <- (if String.eqb direction "afferent" then inr (sum_axis0 m)
              else if String.eqb direction "efferent" then inr (sum_axis1 m)
              else inl (unknown_direction direction)) ;;
  binned <- (if dtype_is_bool m then
               match zmax degrees with
               | Some mx =>
                   let udegrees := arange 1 (mx + 1) in
                   inr (map inject_Z udegrees, udegrees, degrees)
               | None =>
                   inl (ValueError "zero-size array to reduction operation maximum which has no identity")
               end
             else _bin_degrees degrees) ;;
  let ret_x := fst (fst binned) in
  let udegrees := snd (fst binned) in
  let degrees := snd binned in
  let edge_counter := fun i => count_ge degrees i * (count_ge degrees i - 1) in
  let mat_counter := fun i => sum_ix m (map (fun d => i <=? d) degrees) in
  let ret := zip_with true_divide (map mat_counter udegrees) (map edge_counter udegrees) in
  inr (combine ret_x ret).

(** The value of a curve at an integer threshold. *)
Definition at_threshold {V : Type} (k : Z) (c : series Q V) : option V :=
  option_map snd (find (fun p => Qeq_bool (fst p) (inject_Z k)) c).

(** ** efficient_rich_club_curve *)

(** [Series.value_counts()]: every distinct value with its number of
    occurrences.  pandas orders the result by count; the callers below only take
    the maximum, a histogram and a scatter by index of it, none of which
    depends on the order. *)
Definition value_counts (l : list nat) : series nat Z :=
  map (fun v => (v, Z.of_nat (count_occ Nat.eq_dec l v))) (nodup Nat.eq_dec l).

(** [np.histogram(vals, bins=bins)[0]] for integer values and increasing
    integer edges: bin [i] is [bins[i] <= v < bins[i+1]], the last bin also
    holds its right edge. *)
Fixpoint histogram (vals : list Z) (bins : list Z) : list Z :=
  match bins with
  | lo :: (hi :: rest) as bins' =>
      let last_bin := match rest with [] => true | _ :: _ => false end in
      Z.of_nat (length (filter (fun v => (lo <=? v) && ((v <? hi) || (last_bin && (v <=? hi)))) vals))
      :: histogram vals bins'
  | _ => []
  end.

(** [np.unique]: the sorted distinct values. *)
Fixpoint insert_unique (x : Z) (l : list Z) : list Z :=
  match l with
  | [] => [x]
  | y :: l' =>
      if x <? y then x :: l
      else if x =? y then l
      else y :: insert_unique x l'
  end.

Definition np_unique (l : list Z) : list Z := fold_right insert_unique [] l.

(** [a = np.zeros(n, dtype=int); a[s.index.values] = s.values]: a later
    assignment to the same index wins. *)
Definition scatter (n : nat) (s : series nat Z) : list Z :=
  map (fun v => match find (fun p => (fst p =? v)%nat) (rev s) with
                | Some p => snd p
                | None => 0
                end) (seq 0 n).

Definition efficient_rich_club_curve (M : spmatrix) (direction : string)
    (pre_calculated_richness : option (series nat nat)) (sparse_bin_set : bool)
  : result (series Z npfloat) :=
  let shape0 := size M in
  let row := map fst (coords M) in
  let col := map snd (coords M) in
  deg <- match pre_calculated_richness with
         | Some pre => inr (map (fun p => (fst p, Z.of_nat (snd p))) pre)
         | None =>
             if String.eqb direction "efferent" then inr (value_counts row)
             else if String.eqb direction "afferent" then inr (value_counts col)
             else if String.eqb direction "both" then
               inr (map (fun v => (v, Z.of_nat (count_occ Nat.eq_dec row v)
                                      + Z.of_nat (count_occ Nat.eq_dec col v)))
                        (rev (seq 0 shape0)))
             else inl (ValueError "")
         end ;;
  match zmax (values deg) with
  | None =>
      (* deg.max() is nan: arange(nan) raises; the bins [0, nan] of the sparse
         set hold nothing and give one row, 0/0. *)
      if sparse_bin_set then inr [(0, true_divide 0 0)]
      else inl (ValueError "arange: cannot compute length")
  | Some mx =>
      let degree_bins :=
        if sparse_bin_set then np_unique (values deg ++ [0; mx + 1])
        else arange 0 (mx + 2) in
      let degree_bins_rv := rev (removelast degree_bins) in
      let nrn_degree_distribution := histogram (values deg) degree_bins in
      let nrn_cum_degrees := cumsum (rev nrn_degree_distribution) in
      let nrn_cum_pairs := map (fun c => c * (c - 1)) nrn_cum_degrees in
      if existsb (fun v => (shape0 <=? v)%nat) (index_values deg) then inl IndexError
      else
        let deg_arr := scatter shape0 deg in
        let con_degree := zip_with Z.min (map (fun r => nth r deg_arr 0) row)
                                         (map (fun c => nth c deg_arr 0) col) in
        let con_degree := histogram con_degree degree_bins in
        let cum_degrees := cumsum (rev con_degree) in
        inr (combine degree_bins_rv (zip_with true_divide cum_degrees nrn_cum_pairs))
  end.

Definition lookup {V : Type} (k : Z) (c : series Z V) : option V :=
  option_map snd (find (fun p => fst p =? k) c).

Definition example4 : spmatrix :=
  BoolMatrix 4 [(0, 1); (0, 2); (1, 2); (2, 3)]%nat.


(** ** gini_curve, gini_coefficient *)

(** The two array shapes that reach [gini_curve]'s sort: a vector of shape
    [(N,)], and a matrix of shape [(1, N)] with its single row.
    [sparse.sum(axis=...)] returns an [np.matrix]; [np.array(_).flatten()]
    makes a vector of it, whereas [np.matrix.flatten()] keeps two dimensions
    and puts all elements in one row, which [np.array] then keeps. *)
Inductive ndarray : Type :=
| Vec (a : list Z)
| RowMat (row : list Z).

Fixpoint insert_sorted (x : Z) (l : list Z) : list Z :=
  match l with
  | [] => [x]
  | y :: l' => if x <=? y then x :: l else y :: insert_sorted x l'
  end.

Definition sort_ascending (l : list Z) : list Z := fold_right insert_sorted [] l.

(** Python's [sorted] iterates over the first axis: the numbers of a vector,
    the rows of a matrix.  A single row is returned as it is (nothing is
    compared). *)
Definition py_sorted (a : ndarray) : ndarray :=
  match a with
  | Vec l => Vec (sort_ascending l)
  | RowMat row => RowMat row
  end.

(** [np.flipud] reverses the first axis. *)
Definition flipud (a : ndarray) : ndarray :=
  match a with
  | Vec l => Vec (rev l)
  | RowMat row => RowMat row
  end.

(** [np.cumsum] and [np.sum] without an axis work on the flattened array. *)
Definition flatten (a : ndarray) : list Z :=
  match a with Vec l | RowMat l => l end.

Definition gini_curve {NRN : Type} (m : spmatrix) (nrn : NRN) (direction : string)
  : result (series Q npfloat) :=
  degrees <- (if String.eqb direction "afferent" then inr (Vec (sum_axis0 m))
              else if String.eqb direction "efferent" then inr (RowMat (sum_axis1 m))
              else inl (unknown_direction direction)) ;;
  let cs := map (fun c => true_divide c (zsum (flatten degrees)))
                (cumsum (flatten (flipud (py_sorted degrees)))) in
  inr (combine (linspace 0 1 (length cs)) cs).

(** [np.diff], and the trapezoid sum [np.sum(np.diff(A) * (B[:-1] + B[1:]) / 2.0)]. *)
Definition np_diff (a : list npfloat) : list npfloat :=
  zip_with (fun lo hi => sub hi lo) a (tl a).

Definition trapezoid (A B : list npfloat) : npfloat :=
  Np.sum (map (fun t => div t (Fin 2))
              (zip_with mul (np_diff A) (zip_with add (removelast B) (tl B)))).

Definition gini_coefficient {NRN : Type} (m : spmatrix) (nrn : NRN) (direction : string)
  : result npfloat :=
  gc <- gini_curve m nrn direction ;;
  let A := map Fin (index_values gc) in
  let B := values gc in
  inr (trapezoid A B).

(** ** _analytical_expected_gini_curve, normalized_gini_coefficient *)

Fixpoint fcumsum_from (acc : npfloat) (l : list npfloat) : list npfloat :=
  match l with
  | [] => []
  | x :: l' => add acc x :: fcumsum_from (add acc x) l'
  end.

Definition fcumsum (l : list npfloat) : list npfloat := fcumsum_from (Fin 0) l.

Section Analytical.

(** [scipy.stats.binom.pmf(k, n, p)]. *)
Variable binom_pmf : Z -> Z -> npfloat -> npfloat.

Definition _analytical_expected_gini_curve (m : spmatrix) (direction : string)
  : result (series npfloat npfloat) :=
  NC <- (if String.eqb direction "afferent" then
           let N := Z.of_nat (size m) - 1 in inr (N, Z.of_nat (size m) * N)
         else if String.eqb direction "efferent" then
           let N := Z.of_nat (size m) - 1 in inr (N, Z.of_nat (size m) * N)
         else inl (UnboundLocalError "C")) ;;
  let N := fst NC in
  let C := snd NC in
  if C =? 0 then inl ZeroDivisionError
  else
    let P := true_divide (Z.of_nat (nnz m)) C in
    let x := rev (arange 0 (N + 1)) in
    let p := map (fun k => binom_pmf k N P) x in
    let px := zip_with mul p (map of_Z x) in
    let A := map (fun c => div c (Np.sum p)) (fcumsum p) in
    let B := map (fun c => div c (Np.sum px)) (fcumsum px) in
    inr (combine A B).

Definition normalized_gini_coefficient {NRN : Type} (m : spmatrix) (nrn : NRN)
    (direction : string) : result npfloat :=
  gc <- gini_coefficient m nrn direction ;;
  ctrl <- _analytical_expected_gini_curve m direction ;;
  let A := index_values ctrl in
  let B := values ctrl in
  inr (mul (Fin 2) (sub gc (trapezoid A B))).

End Analytical.

(** The degree vector of a direction ([degreeVector] of the specification). *)
Definition degree_vector (m : spmatrix) (direction : string) : list Z :=
  if String.eqb direction "afferent" then sum_axis0 m else sum_axis1 m.

Definition cycle2 : spmatrix := BoolMatrix 2 [(0, 1); (1, 0)]%nat.


(** ** Reading a computed value as a rational *)

(** [represents x q]: the value [x] is finite and is the rational [q]. *)
Definition represents (x : npfloat) (q : Q) : Prop :=
  match x with
  | Fin a => (a == q)%Q
  | _ => False
  end.

Definition Qsum (l : list Q) : Q := fold_right Qplus 0%Q l.

(** The order in which [gini_curve] accumulates the degrees: descending for
    afferent, node order for efferent. *)
Definition gini_order (m : spmatrix) (direction : string) : list Z :=
  if String.eqb direction "afferent" then rev (sort_ascending (sum_axis0 m))
  else sum_axis1 m.

Definition gini_from (L : list Z) (total : Z) : npfloat :=
  trapezoid (map Fin (linspace 0 1 (length L)))
            (map (fun c => true_divide c total) (cumsum L)).

(** ** generate_degree_based_control *)

(** The random source: numpy's global generator, as the stream of numbers it
    will hand out.  Every stream yields a sample that [np.random.choice] can
    return, and every such sample comes from some stream; the probabilities
    only enter through their support. *)
Definition rng : Type := list nat.

Fixpoint remove_nth {A : Type} (i : nat) (l : list A) : list A :=
  match l, i with
  | [], _ => []
  | _ :: l', O => l'
  | x :: l', S i' => x :: remove_nth i' l'
  end.

(** Draw [size] distinct elements of [cands], one number of the stream per
    element. *)
Fixpoint draw (cands : list nat) (size : nat) (g : rng) : list nat * rng :=
  match size with
  | O => ([], g)
  | S size' =>
      match cands with
      | [] => ([], g)
      | _ :: _ =>
          let i := (hd O g mod length cands)%nat in
          let rest := draw (remove_nth i cands) size' (tl g) in
          (nth i cands O :: fst rest, snd rest)
      end
  end.

(** [np.random.choice(a, size, p=p, replace=False)]. *)
Definition np_random_choice (a : list nat) (size : nat) (p : list npfloat) (g : rng)
  : result (list nat * rng) :=
  if existsb isnan p then inl (ValueError "probabilities contain NaN")
  else if (length a <? size)%nat then
    inl (ValueError "Cannot take a larger sample than population when 'replace=False'")
  else
    let support := map fst (filter (fun ap => ltb (Fin 0) (snd ap)) (combine a p)) in
    if (length support <? size)%nat then
      inl (ValueError "Fewer non-zero entries in p than size")
    else inr (draw support size g).

(** [p[col] = 0.0]. *)
Fixpoint set_zero (col : nat) (p : list npfloat) : list npfloat :=
  match p, col with
  | [], _ => []
  | _ :: p', O => Fin 0 :: p'
  | x :: p', S col' => x :: set_zero col' p'
  end.

Section Shuffle.

(** The stored entries of a compressed matrix: [major] is the compressed axis
    (the row in CSR, the column in CSC), [minor] the index held in
    [M.indices]. *)
Variable E : Type.
Variable major : E -> nat.
Variable set_minor : E -> nat -> E.

(** The entries of line [col]: [M.indices[M.indptr[col] : M.indptr[col + 1]]]. *)
Definition line (entries : list E) (col : nat) : list E :=
  filter (fun e => (major e =? col)%nat) entries.

(** One turn of the loop: the indices of line [col] are replaced by a sample. *)
Definition shuffle_line (idxx : list nat) (p_out : list npfloat) (entries : list E)
    (col : nat) (g : rng) : result (list E * rng) :=
  let p := set_zero col p_out in
  let p := map (fun x => div x (Np.sum p)) p in
  let ab := line entries col in
  sample <- np_random_choice idxx (length ab) p g ;;
  inr (zip_with set_minor ab (fst sample), snd sample).

Fixpoint shuffle_lines (idxx : list nat) (p_out : list npfloat) (entries : list E)
    (cols : list nat) (g : rng) : result (list E * rng) :=
  match cols with
  | [] => inr ([], g)
  | col :: cols' =>
      first <- shuffle_line idxx p_out entries col g ;;
      others <- shuffle_lines idxx p_out entries cols' (snd first) ;;
      inr (fst first ++ fst others, snd others)
  end.

End Shuffle.

(** [M.mean(axis=0)] and [M.mean(axis=1)]. *)
Definition mean_axis0 (M : spmatrix) : list npfloat :=
  map (fun s => true_divide s (Z.of_nat (size M))) (sum_axis0 M).

Definition mean_axis1 (M : spmatrix) : list npfloat :=
  map (fun s => true_divide s (Z.of_nat (size M))) (sum_axis1 M).

(** The function returns the shuffled matrix; that [tocsr] hands back the
    argument itself when it already is in CSR form, so that the caller's
    matrix changes as well, is not part of this model. *)
Definition generate_degree_based_control (M : spmatrix) (direction : string) (g : rng)
  : result (spmatrix * rng) :=
  let n := size M in
  if String.eqb direction "efferent" then
    let idxx := seq 0 n in
    let p_out := mean_axis0 M in
    match M with
    | BoolMatrix _ nz =>
        out <- shuffle_lines (nat * nat) fst (fun e i => (fst e, i)) idxx p_out nz (seq 0 n) g ;;
        inr (BoolMatrix n (fst out), snd out)
    | IntMatrix _ nz =>
        out <- shuffle_lines (nat * nat * nat) (fun e => fst (fst e))
                 (fun e i => (fst (fst e), i, snd e)) idxx p_out nz (seq 0 n) g ;;
        inr (IntMatrix n (fst out), snd out)
    end
  else if String.eqb direction "afferent" then
    let idxx := seq 0 n in
    let p_out := mean_axis1 M in
    match M with
    | BoolMatrix _ nz =>
        out <- shuffle_lines (nat * nat) snd (fun e i => (i, snd e)) idxx p_out nz (seq 0 n) g ;;
        inr (BoolMatrix n (fst out), snd out)
    | IntMatrix _ nz =>
        out <- shuffle_lines (nat * nat * nat) (fun e => snd (fst e))
                 (fun e i => (i, snd (fst e), snd e)) idxx p_out nz (seq 0 n) g ;;
        inr (IntMatrix n (fst out), snd out)
    end
  else inl (ValueError "").

(** The number of stored entries of a row and of a column. *)
Definition row_nnz (M : spmatrix) (r : nat) : nat :=
  length (filter (fun rc => (fst rc =? r)%nat) (coords M)).

Definition col_nnz (M : spmatrix) (c : nat) : nat :=
  length (filter (fun rc => (snd rc =? c)%nat) (coords M)).

Definition triangle3 : spmatrix := BoolMatrix 3 [(0, 1); (1, 2); (2, 1)]%nat.


(** ** Null models and normalized_rich_club_curve *)

(** A [pd.DataFrame] with the columns [mean] and [std]. *)
Record ctrl_frame : Type := {
  cf_index : list Z;
  cf_mean : list npfloat;
  cf_std : list npfloat
}.

(** The Python objects that names of [degree_distribution.py] are bound to. *)
Inductive pyobj : Type :=
| PyMatrix (m : spmatrix)
| PyStr (s : string)
| PyInt (z : Z)
| PyFrame (f : series Z (list npfloat))
| PyGlobal (name : string).

(** The names bound at module level: the imports and the functions. *)
Definition module_globals : list (string * pyobj) :=
  map (fun s => (s, PyGlobal s))
      ["np"; "pd"; "hypergeom"; "binom"; "sparse";
       "gini_curve"; "gini_coefficient"; "_analytical_expected_gini_curve";
       "normalized_gini_coefficient"; "_bin_degrees"; "rich_club_curve";
       "efficient_rich_club_curve"; "_analytical_expected_rich_club_curve";
       "generate_degree_based_control"; "_randomized_control_rich_club_curve";
       "normalized_rich_club_curve"; "rich_club_coefficient"]%string.

(** Reading a name: the local scope, then the module (no builtin is called
    by any name read below). *)
Definition load_name (x : string) (locals : list (string * pyobj)) : result pyobj :=
  match find (fun b => String.eqb (fst b) x) (locals ++ module_globals) with
  | Some b => inr (snd b)
  | None => inl (NameError x)
  end.

(** numpy broadcasting of two one-dimensional operands. *)
Definition broadcast (f : npfloat -> npfloat -> npfloat) (x y : list npfloat)
  : result (list npfloat) :=
  if (length x =? length y)%nat then inr (zip_with f x y)
  else match x, y with
       | [a], _ => inr (map (f a) y)
       | _, [b] => inr (map (fun a => f a b) x)
       | _, _ => inl (ValueError "operands could not be broadcast together")
       end.

(** [pd.Series(values, index=index)]. *)
Definition pd_Series {K : Type} (vals : list npfloat) (index : list K)
  : result (series K npfloat) :=
  if (length vals =? length index)%nat then inr (combine index vals)
  else inl (ValueError "Length of values does not match length of index").

(** [np.nanmean] of one row. *)
Definition nanmean (row : list npfloat) : npfloat :=
  let kept := filter (fun x => negb (isnan x)) row in
  div (Np.sum kept) (of_Z (Z.of_nat (length kept))).

Section NullModels.

(** [scipy.stats.hypergeom.stats(M, n, N)]: the mean and the variance. *)
Variable hypergeom_stats : Z -> Z -> Z -> npfloat * npfloat.

(** [np.sqrt]. *)
Variable np_sqrt : npfloat -> npfloat.

(** [pd.concat(frames, axis=1)] of a non-empty list: the frames side by side,
    aligned on the union of their indices. *)
Variable pd_concat : list (series Z npfloat) -> series Z (list npfloat).

(** [np.nanstd] of one row. *)
Definition nanstd (row : list npfloat) : npfloat :=
  let mu := nanmean row in
  np_sqrt (nanmean (map (fun x => mul (sub x mu) (sub x mu)) row)).

Definition _analytical_expected_rich_club_curve (m : spmatrix) (direction : string)
  : result ctrl_frame :=
  if negb (dtype_is_bool m) then
    inl (AssertionError "This function only works for binary matrices at the moment")
  else
    let indegree := sum_axis0 m in
    let outdegree := sum_axis1 m in
    degrees <- (if String.eqb direction "afferent" then inr indegree
                else if String.eqb direction "efferent" then inr outdegree
                else inl (unknown_direction direction)) ;;
    match zmax degrees with
    | None => inl (ValueError "zero-size array to reduction operation maximum which has no identity")
    | Some mx =>
        let udegrees := arange 1 (mx + 1) in
        let edge_counter := fun i => count_ge degrees i * (count_ge degrees i - 1) in
        let row := fun deg =>
          let valid := filter (fun v => deg <=? nth v degrees 0) (seq 0 (length degrees)) in
          let i_v := map (fun v => nth v indegree 0) valid in
          let i_sum_all := map (fun x => zsum indegree - x) i_v in
          let i_sum_s := map (fun x => zsum i_v - x) i_v in
          let o_v := map (fun v => nth v outdegree 0) valid in
          let S := map (fun t => hypergeom_stats (fst (fst t)) (snd (fst t)) (snd t))
                       (combine (combine i_sum_all i_sum_s) o_v) in
          (div (Np.sum (map fst S)) (of_Z (edge_counter deg)),
           div (np_sqrt (Np.sum (map snd S))) (of_Z (edge_counter deg))) in
        let rows := map row udegrees in
        inr {| cf_index := udegrees; cf_mean := map fst rows; cf_std := map snd rows |}
    end.

(** The loop of [_randomized_control_rich_club_curve]: the curves appended
    to [res], the last [m_shuf] and the random source after [n] turns. *)
Fixpoint randomized_curves (m : spmatrix) (direction : string) (n : nat) (g : rng)
  : result (list (series Z npfloat) * option spmatrix * rng) :=
  match n with
  | O => inr ([], None, g)
  | S n' =>
      shuf <- generate_degree_based_control m direction g ;;
      curve <- efficient_rich_club_curve (fst shuf) "efferent" None false ;;
      others <- randomized_curves m direction n' (snd shuf) ;;
      inr (curve :: fst (fst others),
           Some (match snd (fst others) with Some last => last | None => fst shuf end),
           snd others)
  end.

Definition _randomized_control_rich_club_curve (m : spmatrix) (direction : string) (n : nat)
    (g : rng) : result (ctrl_frame * rng) :=
  looped <- randomized_curves m direction n g ;;
  let res := fst (fst looped) in
  res <- (match res with
          | [] => inl (ValueError "No objects to concatenate")
          | _ :: _ => inr (pd_concat res)
          end) ;;
  let locals :=
    [("m", PyMatrix m); ("direction", PyStr direction); ("n", PyInt (Z.of_nat n));
     ("res", PyFrame res); ("_", PyInt (Z.of_nat n - 1))]%string
    ++ match snd (fst looped) with
       | Some m_shuf => [("m_shuf"%string, PyMatrix m_shuf)]
       | None => []
       end in
  rr <- load_name "rr" locals ;;
  match rr with
  | PyFrame rr =>
      inr ({| cf_index := index_values res;
              cf_mean := map nanmean (values rr);
              cf_std := map nanstd (values rr) |}, snd looped)
  | _ => inl TypeError
  end.

Definition normalized_rich_club_curve {NRN : Type} (m : spmatrix) (nrn : NRN)
    (direction normalize normalize_with : string) (g : rng)
  : result (series Q npfloat * rng) :=
  if negb (dtype_is_bool m) then
    inl (AssertionError "This function only works for binary matrices at the moment")
  else
    data <- rich_club_curve m nrn direction ;;
    let A := index_values data in
    let B := values data in
    ctrl <- (if String.eqb normalize_with "analytical" then
               c <- _analytical_expected_rich_club_curve m direction ;; inr (Some c, g)
             else if String.eqb normalize_with "shuffled" then
               c <- _randomized_control_rich_club_curve m direction 10 g ;;
               inr (Some (fst c), snd c)
             else inr (None, g)) ;;
    match fst ctrl with
    | None => inl (UnboundLocalError "ctrl")
    | Some c =>
        let mn_r := cf_mean c in
        let sd_r := cf_std c in
        if String.eqb normalize "mean" then
          vals <- broadcast div (firstn (length mn_r) B) mn_r ;;
          s <- pd_Series vals (firstn (length mn_r) A) ;;
          inr (s, snd ctrl)
        else if String.eqb normalize "std" then
          diff <- broadcast sub (firstn (length mn_r) B) mn_r ;;
          vals <- broadcast div diff sd_r ;;
          s <- pd_Series vals (firstn (length mn_r) A) ;;
          inr (s, snd ctrl)
        else inl (Exception (String.append "Unknown normalization: " normalize))
    end.

End NullModels.


(** * modelling.py *)

(** ** Dense arrays and the adjacency accessor *)

(** A two-dimensional float array: its shape and its rows. *)
Record dense : Type := {
  d_shape : nat * nat;
  d_rows : list (list npfloat)
}.

Definition d_get (d : dense) (i j : nat) : npfloat :=
  nth j (nth i (d_rows d) []) NaN.

(** What [modelling.py] uses of the adjacency matrix: its shape, the entry
    [adj[s, t]], and the selection of rows [adj[sel, :]]. *)
Record adjacency : Type := {
  adj_shape : nat * nat;
  adj_get : nat -> nat -> Z
}.

Definition adjacency_of (m : spmatrix) : adjacency :=
  {| adj_shape := (size m, size m);
     adj_get := fun s t =>
       zsum (map cell_val
               (filter (fun e => (cell_row e =? s)%nat && (cell_col e =? t)%nat) (cells m))) |}.

(** [adj_matrix[split_sel, :]]. *)
Definition adj_rows (a : adjacency) (sel : list nat) : result adjacency :=
  if existsb (fun s => (fst (adj_shape a) <=? s)%nat) sel then inl IndexError
  else inr {| adj_shape := (length sel, snd (adj_shape a));
              adj_get := fun k t => adj_get a (nth k sel O) t |}.

(** [np.sign]. *)
Definition np_sign (x : npfloat) : npfloat :=
  match x with
  | NaN => NaN
  | PInf => Fin 1
  | NInf => Fin (-1)
  | Fin q => Fin (inject_Z (Z.sgn (Qnum q)))
  end.

(** [np.nanmax] and [np.nanmin] of the entries of an array: [ValueError] on
    an empty array, [nan] when every entry is [nan]. *)
Definition fmax (x y : npfloat) : npfloat :=
  if isnan x then y else if isnan y then x else if leb x y then y else x.

Definition fmin (x y : npfloat) : npfloat :=
  if isnan x then y else if isnan y then x else if leb x y then x else y.

Definition nanmax (l : list npfloat) : result npfloat :=
  match l with
  | [] => inl (ValueError "zero-size array to reduction operation fmax which has no identity")
  | _ :: _ => inr (fold_right fmax NaN l)
  end.

Definition nanmin (l : list npfloat) : result npfloat :=
  match l with
  | [] => inl (ValueError "zero-size array to reduction operation fmin which has no identity")
  | _ :: _ => inr (fold_right fmin NaN l)
  end.

(** ** compute_bip_matrix *)

(** [np.meshgrid(x, y, indexing='ij')]: both grids have one row per element
    of [x] and one column per element of [y]. *)
Definition meshgrid_ij (x y : list npfloat) : list (list (list npfloat)) :=
  [map (fun xi => map (fun _ => xi) y) x; map (fun _ => y) x].

(** [np.diff(a, axis=0)] of a stack of matrices: each matrix minus the one
    before it. *)
Definition diff_axis0 (a : list (list (list npfloat))) : list (list (list npfloat)) :=
  zip_with (fun lo hi => zip_with (zip_with (fun l h => sub h l)) lo hi) a (tl a).

Definition compute_bip_matrix (src_depths tgt_depths : list npfloat) : dense :=
  let d := diff_axis0 (meshgrid_ij src_depths tgt_depths) in
  let neg := map (map opp) (nth 0 d []) in
  {| d_shape := (length src_depths, length tgt_depths);
     d_rows := map (map np_sign) neg |}.

(** ** extract_dependent_p_conn *)

(** [itertools.product]: the last index varies fastest. *)
Fixpoint product (ls : list (list nat)) : list (list nat) :=
  match ls with
  | [] => [[]]
  | l :: ls' => flat_map (fun x => map (cons x) (product ls')) l
  end.

(** Membership of [x] in bin [i] of the edges [bins]:
    [lower <= x < upper], and [lower <= x <= upper] in the last bin. *)
Definition in_bin (bins : list npfloat) (i : nat) (x : npfloat) : bool :=
  let lower := nth i bins NaN in
  let upper := nth (i + 1) bins NaN in
  geb x lower
  && (if (Z.of_nat i <? Z.of_nat (length bins) - 1 - 1) then ltb x upper else leb x upper).

(** [dep_sel[s, t]] for the bin combination [idx]. *)
Definition dep_sel (dep_matrices : list dense) (dep_bins : list (list npfloat))
    (idx : list nat) (s t : nat) : bool :=
  forallb (fun dbi => in_bin (snd (fst dbi)) (snd dbi) (d_get (fst (fst dbi)) s t))
          (combine (combine dep_matrices dep_bins) idx).

(** [np.nonzero(dep_sel)]: the selected pairs, row by row. *)
Definition selected (shape : nat * nat) (dep_matrices : list dense)
    (dep_bins : list (list npfloat)) (idx : list nat) : list (nat * nat) :=
  flat_map (fun s => map (pair s)
                         (filter (dep_sel dep_matrices dep_bins idx s) (seq 0 (snd shape))))
           (seq 0 (fst shape)).

(** [p_conn[np.isnan(p_conn)] = 0.0]. *)
Definition nan_to_zero (x : npfloat) : npfloat := if isnan x then Fin 0 else x.

(** The arrays of counts and probabilities have one axis per dependency;
    they are given flat, in the order of [itertools.product] (C order).  The
    message printed and the progress bar wrapped around the loop belong to the
    progress reporting and are left out. *)
Definition extract_dependent_p_conn (adj_matrix : adjacency) (dep_matrices : list dense)
    (dep_bins : list (list npfloat)) : result (list npfloat * list Z * list Z) :=
  let num_dep := length dep_matrices in
  if negb (length dep_bins =? num_dep)%nat then
    inl (AssertionError "ERROR: Dependencies/bins mismatch!")
  else if negb (forallb (fun d => (fst (d_shape d) =? fst (adj_shape adj_matrix))%nat
                                  && (snd (d_shape d) =? snd (adj_shape adj_matrix))%nat)
                        dep_matrices) then
    inl (AssertionError "ERROR: Matrix dimension mismatch!")
  else
    let num_bins := map (fun b => Z.of_nat (length b) - 1) dep_bins in
    if existsb (fun n => n <? 0) num_bins then
      inl (ValueError "negative dimensions are not allowed")
    else
      let bin_indices := map (fun n => seq 0 (Z.to_nat n)) num_bins in
      let idxs := product bin_indices in
      let count_all :=
        map (fun idx => Z.of_nat (length (selected (adj_shape adj_matrix)
                                            dep_matrices dep_bins idx))) idxs in
      let count_conn :=
        map (fun idx => zsum (map (fun st => adj_get adj_matrix (fst st) (snd st))
                                  (selected (adj_shape adj_matrix)
                                     dep_matrices dep_bins idx))) idxs in
      let p_conn := map nan_to_zero (zip_with true_divide count_conn count_all) in
      inr (p_conn, count_conn, count_all).

(** ** extract_2nd_order, extract_3rd_order *)

(** [np.split(ary, points)]: the slices [ary[0:p1], ary[p1:p2], ..., ary[pk:]]. *)
Fixpoint np_split_from {A : Type} (start : nat) (ary : list A) (points : list nat)
  : list (list A) :=
  match points with
  | [] => [skipn start ary]
  | p :: points' => firstn (p - start) (skipn start ary) :: np_split_from p ary points'
  end.

Definition np_split {A : Type} (ary : list A) (points : list nat) : list (list A) :=
  np_split_from 0 ary points.

(** The split of [np.arange(N)] into [N_split] chunks of
    [ceil(N / N_split)] indices (the last ones shorter or empty). *)
Definition split_indices (N N_split : nat) : list (list nat) :=
  let chunk := ((N + N_split - 1) / N_split)%nat in
  np_split (seq 0 N) (map (fun j => (j * chunk)%nat) (seq 1 (N_split - 1))).

(** [a / b] for two Python numbers. *)
Definition python_div (a b : Q) : result npfloat :=
  if Qeq_bool b 0 then inl ZeroDivisionError else inr (fin (a / b)).

(** [np.ceil(x).astype(int)].  The conversion of [nan] or of an infinity to
    an integer is not defined (it gives the most negative integer on the
    usual platforms), and the allocation of the bins that follows raises. *)
Definition ceil_astype_int (x : npfloat) : result Z :=
  match x with
  | Fin q => inr (Qceiling q)
  | _ => inl (ValueError "negative dimensions are not allowed")
  end.

(** [np.arange(0, num_bins + 1) * bin_size_um]. *)
Definition bin_edges (num_bins : Z) (bin_size_um : Q) : list npfloat :=
  map (fun i => fin (inject_Z i * bin_size_um)) (arange 0 (num_bins + 1)).

(** [table[sel]] for indices inside the table. *)
Definition take_rows {A : Type} (table : list A) (sel : list nat) : list A :=
  flat_map (fun i => match nth_error table i with Some x => [x] | None => [] end) sel.

Record extracted : Type := {
  p_conn : list npfloat;
  count_conn : list Z;
  count_all : list Z;
  dist_bins : list npfloat;
  bip_bins : list npfloat
}.

Section Extraction.

(** A row of [nrn_table] holds the coordinates named by [coord_names] and the
    depth named by [depth_name]; [distance] is the Euclidean distance that
    [scipy.spatial.distance_matrix] computes for a pair of rows. *)
Variable pos : Type.
Variable distance : pos -> pos -> npfloat.

Definition compute_dist_matrix (src_nrn_pos tgt_nrn_pos : list pos) : dense :=
  {| d_shape := (length src_nrn_pos, length tgt_nrn_pos);
     d_rows := map (fun p => map (fun q => let d := distance p q in
                                           if eqb d (Fin 0) then NaN else d)
                                 tgt_nrn_pos)
                   src_nrn_pos |}.

(** The loop over the data splits of [extract_2nd_order]. *)
Fixpoint accumulate_2nd (adj_matrix : adjacency) (pos_table : list pos)
    (dist_bins : list npfloat) (splits : list (list nat)) (count_conn count_all : list Z)
  : result (list Z * list Z) :=
  match splits with
  | [] => inr (count_conn, count_all)
  | split_sel :: splits' =>
      let dist_mat_split := compute_dist_matrix (take_rows pos_table split_sel) pos_table in
      adj_split <- adj_rows adj_matrix split_sel ;;
      r <- extract_dependent_p_conn adj_split [dist_mat_split] [dist_bins] ;;
      accumulate_2nd adj_matrix pos_table dist_bins splits'
        (zip_with Z.add count_conn (snd (fst r))) (zip_with Z.add count_all (snd r))
  end.

Definition extract_2nd_order (adj_matrix : adjacency) (nrn_table : list (pos * npfloat))
    (bin_size_um : Q) (max_range_um : option Q) (N_split : option nat) : result extracted :=
  let N_split := match N_split with None => 1%nat | Some k => k end in
  if (N_split =? 0)%nat then
    inl (AssertionError "ERROR: Number of data splits must be larger than 0!")
  else
    let pos_table := map fst nrn_table in
    if (N_split =? 1)%nat then
      let dist_mat := compute_dist_matrix pos_table pos_table in
      ratio <- (match max_range_um with
                | Some r => python_div r bin_size_um
                | None =>
                    max_range_um <- nanmax (concat (d_rows dist_mat)) ;;
                    inr (div max_range_um (Fin bin_size_um))
                end) ;;
      num_bins <- ceil_astype_int ratio ;;
      let dist_bins := bin_edges num_bins bin_size_um in
      r <- extract_dependent_p_conn adj_matrix [dist_mat] [dist_bins] ;;
      inr {| p_conn := fst (fst r); count_conn := snd (fst r); count_all := snd r;
             dist_bins := dist_bins; bip_bins := [] |}
    else
      match max_range_um with
      | None =>
          inl (AssertionError "ERROR: Max. range must be specified if N_split larger than 1!")
      | Some max_range_um =>
          ratio <- python_div max_range_um bin_size_um ;;
          num_bins <- ceil_astype_int ratio ;;
          let dist_bins := bin_edges num_bins bin_size_um in
          let splits := split_indices (length nrn_table) N_split in
          if num_bins <? 0 then inl (ValueError "negative dimensions are not allowed")
          else
            let zeros := repeat 0 (Z.to_nat num_bins) in
            counts <- accumulate_2nd adj_matrix pos_table dist_bins splits zeros zeros ;;
            let p_conn_dist :=
              map nan_to_zero (zip_with true_divide (fst counts) (snd counts)) in
            inr {| p_conn := p_conn_dist; count_conn := fst counts; count_all := snd counts;
                   dist_bins := dist_bins; bip_bins := [] |}
      end.

(** The loop over the data splits of [extract_3rd_order]. *)
Fixpoint accumulate_3rd (adj_matrix : adjacency) (pos_table : list pos)
    (depth_table : list npfloat) (dist_bins bip_bins : list npfloat)
    (splits : list (list nat)) (count_conn count_all : list Z)
  : result (list Z * list Z) :=
  match splits with
  | [] => inr (count_conn, count_all)
  | split_sel :: splits' =>
      let dist_mat_split := compute_dist_matrix (take_rows pos_table split_sel) pos_table in
      let bip_mat_split := compute_bip_matrix (take_rows depth_table split_sel) depth_table in
      adj_split <- adj_rows adj_matrix split_sel ;;
      r <- extract_dependent_p_conn adj_split [dist_mat_split; bip_mat_split]
             [dist_bins; bip_bins] ;;
      accumulate_3rd adj_matrix pos_table depth_table dist_bins bip_bins splits'
        (zip_with Z.add count_conn (snd (fst r))) (zip_with Z.add count_all (snd r))
  end.

Definition extract_3rd_order (adj_matrix : adjacency) (nrn_table : list (pos * npfloat))
    (bin_size_um : Q) (max_range_um : option Q) (N_split : option nat) : result extracted :=
  let N_split := match N_split with None => 1%nat | Some k => k end in
  if (N_split =? 0)%nat then
    inl (AssertionError "ERROR: Number of data splits must be larger than 0!")
  else
    let pos_table := map fst nrn_table in
    let depth_table := map snd nrn_table in
    if (N_split =? 1)%nat then
      let dist_mat := compute_dist_matrix pos_table pos_table in
      let bip_mat := compute_bip_matrix depth_table depth_table in
      ratio <- (match max_range_um with
                | Some r => python_div r bin_size_um
                | None =>
                    max_range_um <- nanmax (concat (d_rows dist_mat)) ;;
                    inr (div max_range_um (Fin bin_size_um))
                end) ;;
      num_dist_bins <- ceil_astype_int ratio ;;
      let dist_bins := bin_edges num_dist_bins bin_size_um in
      lo <- nanmin (concat (d_rows bip_mat)) ;;
      hi <- nanmax (concat (d_rows bip_mat)) ;;
      let bip_bins := [lo; Fin 0; hi] in
      r <- extract_dependent_p_conn adj_matrix [dist_mat; bip_mat] [dist_bins; bip_bins] ;;
      inr {| p_conn := fst (fst r); count_conn := snd (fst r); count_all := snd r;
             dist_bins := dist_bins; bip_bins := bip_bins |}
    else
      match max_range_um with
      | None =>
          inl (AssertionError "ERROR: Max. range must be specified if N_split larger than 1!")
      | Some max_range_um =>
          ratio <- python_div max_range_um bin_size_um ;;
          num_dist_bins <- ceil_astype_int ratio ;;
          let dist_bins := bin_edges num_dist_bins bin_size_um in
          let bip_bins := [Fin (-1); Fin 0; Fin 1] in
          let splits := split_indices (length nrn_table) N_split in
          if num_dist_bins <? 0 then inl (ValueError "negative dimensions are not allowed")
          else
            let zeros := repeat 0 (Z.to_nat num_dist_bins * 2) in
            counts <- accumulate_3rd adj_matrix pos_table depth_table dist_bins bip_bins
                        splits zeros zeros ;;
            let p_conn_dist_bip :=
              map nan_to_zero (zip_with true_divide (fst counts) (snd counts)) in
            inr {| p_conn := p_conn_dist_bip; count_conn := fst counts;
                   count_all := snd counts; dist_bins := dist_bins; bip_bins := bip_bins |}
      end.

End Extraction.

(** A table on a line, for examples: the position is a rational, the distance
    the absolute difference. *)
Definition line_distance (x y : Q) : npfloat := fin (Qabs (x - y)).

Definition line3 : list (Q * npfloat) :=
  [(0%Q, Fin 0); (1%Q, Fin 5); (3%Q, Fin 5)].

Definition adj3 : adjacency := adjacency_of triangle3.


(** * Notions used in the statements *)

(** Edges in non-decreasing order, as [np.histogram] requires them. *)
Fixpoint nondecreasing (l : list Z) : Prop :=
  match l with
  | a :: (b :: _) as l' => a <= b /\ nondecreasing l'
  | _ => True
  end.

(** Split points in increasing order, from [start] on. *)
Fixpoint ascending_from (start : nat) (points : list nat) : Prop :=
  match points with
  | [] => True
  | p :: points' => (start <= p)%nat /\ ascending_from p points'
  end.

(** The end of an edge whose degree a direction counts: the target for
    afferent, the source for efferent. *)
Definition direction_end (direction : string) : nat * nat -> nat :=
  if String.eqb direction "afferent" then snd else fst.

(** What [rich_club_curve] computes at threshold [k] on the boolean matrix
    with the entries [nz]. *)
Definition naive_value (n : nat) (nz : list (nat * nat)) (degrees : list Z) (k : Z) : npfloat :=
  true_divide (sum_ix (BoolMatrix n nz) (map (fun d => k <=? d) degrees))
              (count_ge degrees k * (count_ge degrees k - 1)).

(** What [efficient_rich_club_curve] computes at degree [b]. *)
Definition efficient_value (n : nat) (nz : list (nat * nat)) (deg : series nat Z) (b : Z)
  : npfloat :=
  true_divide
    (count_ge (zip_with Z.min (map (fun r => nth r (scatter n deg) 0) (map fst nz))
                              (map (fun c => nth c (scatter n deg) 0) (map snd nz))) b)
    (count_ge (values deg) b * (count_ge (values deg) b - 1)).

(** The two curves of a boolean matrix, each reduced to its table; [sel]
    picks the end of an edge whose degree is counted. *)
Definition naive_curve (n : nat) (nz : list (nat * nat)) (sel : nat * nat -> nat)
  : result (series Q npfloat) :=
  let degs := map (fun r => Z.of_nat (count_occ Nat.eq_dec (map sel nz) r)) (seq 0 n) in
  match zmax degs with
  | Some mx => inr (map (fun k => (inject_Z k, naive_value n nz degs k)) (arange 1 (mx + 1)))
  | None => inl (ValueError "zero-size array to reduction operation maximum which has no identity")
  end.

Definition efficient_curve (n : nat) (nz : list (nat * nat)) (sel : nat * nat -> nat)
  : result (series Z npfloat) :=
  let deg := value_counts (map sel nz) in
  match zmax (values deg) with
  | Some mx => inr (map (fun b => (b, efficient_value n nz deg b)) (rev (arange 0 (mx + 1))))
  | None => inl (ValueError "arange: cannot compute length")
  end.

(** The efficient curve with the sparse bin set: one row per observed degree
    (and 0); without any edge, the single row 0/0. *)
Definition efficient_curve_sparse (n : nat) (nz : list (nat * nat)) (sel : nat * nat -> nat)
  : result (series Z npfloat) :=
  let deg := value_counts (map sel nz) in
  match zmax (values deg) with
  | Some mx =>
      inr (map (fun b => (b, efficient_value n nz deg b))
               (rev (removelast (np_unique (values deg ++ [0; mx + 1])))))
  | None => inr [(0, true_divide 0 0)]
  end.

(** * Further code and notions *)

(** The ordered pairs of distinct elements of [S]. *)
Definition distinct_pairs (S : list nat) : list (nat * nat) :=
  flat_map (fun r => map (pair r) (filter (fun c => negb (c =? r)%nat) S)) S.

(** The number of bins that [_bin_degrees] uses for [len] nodes. *)
Definition degree_nbins (len : nat) : Z :=
  Z.max (Z.of_nat len / 10) (Z.min (Z.of_nat len) 30).

(** The number of stored entries at each node, as source plus as target
    (the degree that direction "both" of [efficient_rich_club_curve] counts). *)
Definition total_degree (M : spmatrix) : list Z :=
  map (fun v => Z.of_nat (count_occ Nat.eq_dec (map fst (coords M)) v)
                + Z.of_nat (count_occ Nat.eq_dec (map snd (coords M)) v))
      (seq 0 (size M)).

(** The stored entries whose two ends both have at least the total degree [b]. *)
Definition club_entries (M : spmatrix) (b : Z) : Z :=
  Z.of_nat (length (filter (fun rc => (b <=? nth (fst rc) (total_degree M) 0)
                                      && (b <=? nth (snd rc) (total_degree M) 0))
                           (coords M))).

(** The indices that [np.random.choice] can return in the turn of line [col]:
    those of [idxx] whose probability, after [p[col] = 0.0] and the
    normalization, is positive. *)
Definition choice_support (idxx : list nat) (p_out : list npfloat) (col : nat) : list nat :=
  map fst (filter (fun ap => ltb (Fin 0) (snd ap))
                  (combine idxx (map (fun x => div x (Np.sum (set_zero col p_out)))
                                     (set_zero col p_out)))).

(** The direction across the one that is shuffled. *)
Definition other_direction (direction : string) : string :=
  if String.eqb direction "efferent" then "afferent"%string else "efferent"%string.

(** The end of a stored entry that the shuffle rewrites: the column for
    efferent, the row for afferent. *)
Definition rewritten_end (direction : string) (rc : nat * nat) : nat :=
  if String.eqb direction "efferent" then snd rc else fst rc.

(** The number of stored entries of the line [r] that is kept: a row for
    efferent, a column for afferent. *)
Definition line_nnz (M : spmatrix) (direction : string) (r : nat) : nat :=
  if String.eqb direction "efferent" then row_nnz M r else col_nnz M r.

(** The indices other than [r] whose degree across is positive. *)
Definition candidates (M : spmatrix) (direction : string) (r : nat) : list nat :=
  filter (fun c => negb (c =? r)%nat
                   && (0 <? nth c (degree_vector M (other_direction direction)) 0))
         (seq 0 (size M)).

(** ** rich_club_coefficient *)

(** The keyword arguments of a call, in the order they are written.  Their
    values are strings here: the keyword parameters of
    [normalized_rich_club_curve] are only compared with strings. *)
Definition keywords : Type := list (string * string).

Definition keyword (name : string) (kw : keywords) : option string :=
  option_map snd (find (fun b => String.eqb (fst b) name) kw).

(** [f(..., name=value, **kwargs)]: a name that is written out and also a key
    of [kwargs] is a [TypeError] (multiple values for a keyword argument). *)
Definition merge_keywords (explicit kwargs : keywords) : result keywords :=
  if existsb (fun b => existsb (fun e => String.eqb (fst e) (fst b)) explicit) kwargs
  then inl TypeError
  else inr (explicit ++ kwargs).

Section RichClubCoefficient.

Variable hypergeom_stats : Z -> Z -> Z -> npfloat * npfloat.
Variable np_sqrt : npfloat -> npfloat.
Variable pd_concat : list (series Z npfloat) -> series Z (list npfloat).

(** The call [normalized_rich_club_curve(m, **kw)] with [m] as the only
    positional argument.  The parameters are
    [(m, nrn, direction='efferent', normalize='std', normalize_with='shuffled', **kwargs)]:
    a keyword [m] is a second value for the first parameter, [nrn] has no
    default, and keywords that name no parameter are collected and ignored. *)
Definition call_normalized_rich_club_curve (m : spmatrix) (kw : keywords) (g : rng)
  : result (series Q npfloat * rng) :=
  if existsb (fun b => String.eqb (fst b) "m") kw then inl TypeError
  else
    match keyword "nrn" kw with
    | None => inl TypeError
    | Some nrn =>
        normalized_rich_club_curve hypergeom_stats np_sqrt pd_concat m nrn
          (match keyword "direction" kw with Some d => d | None => "efferent"%string end)
          (match keyword "normalize" kw with Some d => d | None => "std"%string end)
          (match keyword "normalize_with" kw with Some d => d | None => "shuffled"%string end)
          g
    end.

(** [kwargs] is what the caller passed besides [m] and [nrn]. *)
Definition rich_club_coefficient {NRN : Type} (m : spmatrix) (nrn : NRN) (kwargs : keywords)
    (g : rng) : result (npfloat * rng) :=
  kw <- merge_keywords [("normalize", "std")]%string kwargs ;;
  Bn <- call_normalized_rich_club_curve m kw g ;;
  inr (nanmean (values (fst Bn)), snd Bn).

End RichClubCoefficient.

(** All pairs of a row index and a column index, row by row. *)
Definition all_pairs (shape : nat * nat) : list (nat * nat) :=
  flat_map (fun s => map (pair s) (seq 0 (snd shape))) (seq 0 (fst shape)).

(** Bin edges in non-decreasing order (none of them [nan]). *)
Fixpoint edges_sorted (l : list npfloat) : Prop :=
  match l with
  | a :: (b :: _) as l' => leb a b = true /\ edges_sorted l'
  | _ => True
  end.

(** ** build_2nd_order *)




Section Fitting.

(** [scipy.optimize.curve_fit(exp_model, X, y, p0=[0.0, 0.0])[0]] for the
    exponential model [a * exp(-b * x)]: the fitted [(a, b)], or the exception
    of the fit. *)
Variable curve_fit_exp : list npfloat -> list npfloat -> result (npfloat * npfloat).


End Fitting.

(** ** build_3rd_order *)


Section Fitting3.

Variable curve_fit_exp : list npfloat -> list npfloat -> result (npfloat * npfloat).


End Fitting3.

(** * Properties *)

(** ** Integer arrays: sums, cumulative sums, histograms *)

Lemma zsum_app (l1 l2 : list Z) : zsum (l1 ++ l2) = zsum l1 + zsum l2.
Proof.
  induction l1 as [|x l1 IH]; simpl; [reflexivity | rewrite IH; lia].
Qed.

Lemma zsum_rev (l : list Z) : zsum (rev l) = zsum l.
Proof.
  induction l as [|x l IH]; simpl; [reflexivity |].
  rewrite zsum_app, IH. simpl. lia.
Qed.

Lemma cumsum_from_snoc (l : list Z) (acc x : Z) :
  cumsum_from acc (l ++ [x]) = cumsum_from acc l ++ [acc + zsum l + x].
Proof.
  revert acc. induction l as [|y l IH]; intros acc; simpl.
  - f_equal. lia.
  - rewrite IH. replace (acc + y + zsum l + x) with (acc + (y + zsum l) + x) by lia.
    reflexivity.
Qed.

Lemma filter_length_split {A : Type} (p q r : A -> bool) (l : list A) :
  (forall x, In x l -> p x = q x || r x) ->
  (forall x, In x l -> q x && r x = false) ->
  length (filter p l) = (length (filter q l) + length (filter r l))%nat.
Proof.
  induction l as [|a l IH]; intros Hp Hd; simpl; [reflexivity |].
  rewrite (Hp a (or_introl eq_refl)).
  specialize (Hd a (or_introl eq_refl)) as Ha.
  assert (IH' : length (filter p l) = (length (filter q l) + length (filter r l))%nat).
  { apply IH; intros; [apply Hp | apply Hd]; now right. }
  destruct (q a), (r a); simpl in *; try discriminate; lia.
Qed.

Lemma filter_length_ext {A : Type} (p q : A -> bool) (l : list A) :
  (forall x, In x l -> p x = q x) ->
  length (filter p l) = length (filter q l).
Proof.
  intros H. f_equal. apply filter_ext_in. exact H.
Qed.

Lemma last_cons_indep (l : list Z) (a b x : Z) :
  last (x :: l) a = last (x :: l) b.
Proof.
  revert x. induction l as [|y l IH]; intros x; [reflexivity |].
  change (last (y :: l) a = last (y :: l) b). apply IH.
Qed.

Lemma last_cons (l : list Z) (a x : Z) : last (x :: l) a = last l x.
Proof.
  destruct l as [|y l]; [reflexivity |].
  change (last (y :: l) a = last (y :: l) x). apply last_cons_indep.
Qed.

Lemma nondecreasing_last (l : list Z) (a : Z) :
  nondecreasing (a :: l) -> a <= last l a.
Proof.
  revert a. induction l as [|b l IH]; intros a H; [simpl; lia |].
  destruct H as [Hab H]. rewrite last_cons.
  specialize (IH b H). lia.
Qed.

(** The bins of a histogram add up to the values between the first and the
    last edge. *)
Lemma histogram_sum (vals bins : list Z) (lo : Z) :
  nondecreasing (lo :: bins) -> bins <> [] ->
  zsum (histogram vals (lo :: bins))
  = Z.of_nat (length (filter (fun v => (lo <=? v) && (v <=? last bins lo)) vals)).
Proof.
  revert lo. induction bins as [|hi bins IH]; intros lo Hs Hne; [congruence |].
  destruct bins as [|h2 bins].
  - simpl. rewrite Z.add_0_r. f_equal. apply filter_length_ext.
    intros v _. destruct (lo <=? v), (v <? hi) eqn:E1, (v <=? hi) eqn:E2; simpl; try reflexivity; lia.
  - destruct Hs as [Hlh Hs].
    change (histogram vals (lo :: hi :: h2 :: bins))
      with (Z.of_nat (length (filter (fun v => (lo <=? v) && ((v <? hi) || (false && (v <=? hi)))) vals))
            :: histogram vals (hi :: h2 :: bins)).
    cbn [zsum fold_right]. fold (zsum (histogram vals (hi :: h2 :: bins))).
    rewrite IH by (auto; discriminate).
    pose proof (nondecreasing_last _ _ Hs) as Hl.
    rewrite (last_cons_indep bins hi lo h2) in Hl.
    change (last (hi :: h2 :: bins) lo) with (last (h2 :: bins) lo).
    change (last (h2 :: bins) hi) with (last (h2 :: bins) hi).
    rewrite (last_cons_indep bins hi lo h2).
    rewrite <- Nat2Z.inj_add. f_equal. symmetry.
    apply filter_length_split; intros v _.
    + destruct (lo <=? v) eqn:E1, (v <? hi) eqn:E2, (hi <=? v) eqn:E3,
        (v <=? last (h2 :: bins) lo) eqn:E4; simpl; try reflexivity; lia.
    + destruct (lo <=? v) eqn:E1, (v <? hi) eqn:E2, (hi <=? v) eqn:E3,
        (v <=? last (h2 :: bins) lo) eqn:E4; simpl; try reflexivity; lia.
Qed.

(** Summing a histogram from its last bin backwards counts, at each edge, the
    values at or above that edge (none lies beyond the last edge). *)
Lemma cumsum_rev_histogram (vals bins : list Z) (lo : Z) :
  nondecreasing (lo :: bins) -> bins <> [] ->
  (forall v, In v vals -> v <= last bins lo) ->
  cumsum (rev (histogram vals (lo :: bins)))
  = map (count_ge vals) (rev (removelast (lo :: bins))).
Proof.
  revert lo. induction bins as [|hi bins IH]; intros lo Hs Hne Hb; [congruence |].
  destruct bins as [|h2 bins].
  - simpl. unfold cumsum, count_ge. simpl. do 2 f_equal.
    apply filter_length_ext. intros v Hv. specialize (Hb v Hv). simpl in Hb.
    destruct (lo <=? v), (v <? hi) eqn:E1, (v <=? hi) eqn:E2; simpl; try reflexivity; lia.
  - pose proof Hs as [Hlh Hs'].
    change (histogram vals (lo :: hi :: h2 :: bins))
      with (Z.of_nat (length (filter (fun v => (lo <=? v) && ((v <? hi) || (false && (v <=? hi)))) vals))
            :: histogram vals (hi :: h2 :: bins)).
    change (removelast (lo :: hi :: h2 :: bins)) with (lo :: removelast (hi :: h2 :: bins)).
    cbn [rev]. unfold cumsum. rewrite cumsum_from_snoc, map_app.
    assert (Hb' : forall v, In v vals -> v <= last (h2 :: bins) hi).
    { intros v Hv. specialize (Hb v Hv).
      change (last (hi :: h2 :: bins) lo) with (last (h2 :: bins) lo) in Hb.
      now rewrite (last_cons_indep bins hi lo h2). }
    f_equal.
    + apply (IH hi); auto; discriminate.
    + cbn [map]. f_equal. rewrite zsum_rev, histogram_sum by (auto; discriminate).
      unfold count_ge. rewrite Z.add_0_l, Z.add_comm, <- Nat2Z.inj_add. f_equal. symmetry.
      apply filter_length_split; intros v Hv; specialize (Hb' v Hv);
        destruct (lo <=? v) eqn:E1, (v <? hi) eqn:E2, (hi <=? v) eqn:E3,
          (v <=? last (h2 :: bins) hi) eqn:E4; simpl; try reflexivity; lia.
Qed.

Lemma arange_cons (a b : Z) : a < b -> arange a b = a :: arange (a + 1) b.
Proof.
  intros H. unfold arange.
  replace (Z.to_nat (b - a)) with (S (Z.to_nat (b - (a + 1)))) by lia.
  cbn [seq map]. rewrite <- seq_shift, map_map. f_equal; [lia |].
  apply map_ext. intros i. lia.
Qed.

Lemma arange_snoc (a b : Z) : a < b -> arange a b = arange a (b - 1) ++ [b - 1].
Proof.
  intros H. unfold arange.
  replace (Z.to_nat (b - a)) with (S (Z.to_nat (b - 1 - a))) by lia.
  rewrite seq_S, map_app. cbn [map]. do 2 f_equal. lia.
Qed.

Lemma In_arange (a b x : Z) : In x (arange a b) <-> a <= x < b.
Proof.
  unfold arange. rewrite in_map_iff. split.
  - intros (i & <- & Hi). apply in_seq in Hi. lia.
  - intros H. exists (Z.to_nat (x - a)). split; [lia |]. apply in_seq. lia.
Qed.

Lemma nondecreasing_arange (a b : Z) : nondecreasing (arange a b).
Proof.
  unfold arange. generalize (Z.to_nat (b - a)) as n. intros n. revert a.
  induction n as [|n IH]; intros a; [exact I |].
  cbn [seq map]. rewrite <- seq_shift, map_map.
  destruct n as [|n]; [exact I |].
  specialize (IH (a + 1)). cbn [seq map] in IH |- *.
  rewrite <- seq_shift, map_map in IH |- *. split; [lia |].
  replace (a + Z.of_nat 1) with (a + 1 + Z.of_nat 0) by lia.
  erewrite map_ext; [exact IH |]. intros i. cbn beta. lia.
Qed.

Lemma last_arange (a b d : Z) : a < b -> last (arange a b) d = b - 1.
Proof.
  intros H. rewrite arange_snoc by exact H. apply last_last.
Qed.

Lemma zmax_ge (l : list Z) (mx : Z) :
  zmax l = Some mx -> forall v, In v l -> v <= mx.
Proof.
  destruct l as [|x l]; [discriminate |]. intros [= <-].
  induction l as [|y l IH]; intros v Hv.
  - destruct Hv as [<- | []]. simpl. lia.
  - cbn [fold_right]. destruct Hv as [Hv | [Hv | Hv]].
    + specialize (IH v (or_introl Hv)). lia.
    + lia.
    + specialize (IH v (or_intror Hv)). lia.
Qed.

Lemma zmax_In (l : list Z) (mx : Z) : zmax l = Some mx -> In mx l.
Proof.
  destruct l as [|x l]; [discriminate |]. intros [= <-].
  induction l as [|y l IH]; [now left |].
  cbn [fold_right]. destruct (Z.max_spec y (fold_right Z.max x l)) as [[_ ->] | [_ ->]].
  - destruct IH as [IH | IH]; [now left | now right; right].
  - now right; left.
Qed.

Lemma combine_zip_with_map {A B C D : Type} (f : B -> C -> D) (g : A -> B) (h : A -> C)
    (l : list A) :
  combine l (zip_with f (map g l) (map h l)) = map (fun x => (x, f (g x) (h x))) l.
Proof.
  unfold zip_with. induction l as [|x l IH]; simpl; [reflexivity | now rewrite IH].
Qed.

Lemma combine_map_zip_with_map {A K B C D : Type} (key : A -> K) (f : B -> C -> D)
    (g : A -> B) (h : A -> C) (l : list A) :
  combine (map key l) (zip_with f (map g l) (map h l))
  = map (fun x => (key x, f (g x) (h x))) l.
Proof.
  unfold zip_with. induction l as [|x l IH]; simpl; [reflexivity | now rewrite IH].
Qed.

Lemma count_ge_map {A : Type} (f : A -> Z) (l : list A) (k : Z) :
  count_ge (map f l) k = Z.of_nat (length (filter (fun x => k <=? f x) l)).
Proof.
  unfold count_ge. f_equal.
  induction l as [|x l IH]; simpl; [reflexivity |].
  destruct (k <=? f x); simpl; now rewrite IH.
Qed.

(** Looking a key up in a table computed key by key. *)
Lemma lookup_map (F : Z -> npfloat) (l : list Z) (k : Z) (v : npfloat) :
  lookup k (map (fun b => (b, F b)) l) = Some v -> v = F k.
Proof.
  unfold lookup. induction l as [|b l IH]; simpl; [discriminate |].
  destruct (b =? k) eqn:E; simpl; [| exact IH].
  apply Z.eqb_eq in E. subst b. now intros [= <-].
Qed.

Lemma lookup_map_In (F : Z -> npfloat) (l : list Z) (k : Z) :
  In k l -> lookup k (map (fun b => (b, F b)) l) = Some (F k).
Proof.
  unfold lookup. induction l as [|b l IH]; simpl; [contradiction |].
  intros H. destruct (b =? k) eqn:E; simpl.
  - apply Z.eqb_eq in E. now subst b.
  - apply IH. destruct H as [-> | H]; [| exact H]. rewrite Z.eqb_refl in E. discriminate.
Qed.

Lemma inject_Z_eqb (a b : Z) : Qeq_bool (inject_Z a) (inject_Z b) = (a =? b).
Proof.
  unfold Qeq_bool, inject_Z. simpl. now rewrite !Z.mul_1_r.
Qed.

Lemma at_threshold_map (F : Z -> npfloat) (l : list Z) (k : Z) (v : npfloat) :
  at_threshold k (map (fun b => (inject_Z b, F b)) l) = Some v -> In k l /\ v = F k.
Proof.
  unfold at_threshold. induction l as [|b l IH]; simpl; [discriminate |].
  rewrite inject_Z_eqb. destruct (b =? k) eqn:E; simpl.
  - apply Z.eqb_eq in E. subst b. intros [= <-]. split; [now left | reflexivity].
  - intros H. destruct (IH H) as [Hin ->]. split; [now right | reflexivity].
Qed.

(** ** Boolean matrices: degrees as occurrence counts *)

Lemma coords_bool (n : nat) (nz : list (nat * nat)) : coords (BoolMatrix n nz) = nz.
Proof.
  unfold coords, cells. rewrite map_map. cbn [fst].
  rewrite <- (map_id nz) at 2. apply map_ext. now intros [r c].
Qed.

Lemma in_shape_bool (n : nat) (nz : list (nat * nat)) :
  in_shape (BoolMatrix n nz) = true ->
  forall e, In e nz -> (fst e < n)%nat /\ (snd e < n)%nat.
Proof.
  unfold in_shape. rewrite coords_bool, forallb_forall. intros H e He.
  specialize (H e He). apply andb_prop in H as [H1 H2].
  apply Nat.ltb_lt in H1, H2. now split.
Qed.

Lemma sum_axis_bool (sel : nat * nat -> nat) (nz : list (nat * nat)) (r : nat) :
  zsum (map cell_val
          (filter (fun e => (sel (fst e) =? r)%nat) (map (fun rc => (fst rc, snd rc, 1)) nz)))
  = Z.of_nat (count_occ Nat.eq_dec (map sel nz) r).
Proof.
  induction nz as [|[a b] nz IH]; [reflexivity |].
  cbn [map filter fst snd count_occ].
  destruct (Nat.eq_dec (sel (a, b)) r) as [E | E].
  - apply Nat.eqb_eq in E. rewrite E. cbn [map zsum fold_right cell_val snd].
    fold (zsum (map cell_val
                  (filter (fun e => (sel (fst e) =? r)%nat)
                          (map (fun rc => (fst rc, snd rc, 1)) nz)))).
    rewrite IH. lia.
  - apply Nat.eqb_neq in E. rewrite E. exact IH.
Qed.

Lemma sum_axis1_bool (n : nat) (nz : list (nat * nat)) :
  sum_axis1 (BoolMatrix n nz)
  = map (fun r => Z.of_nat (count_occ Nat.eq_dec (map fst nz) r)) (seq 0 n).
Proof.
  unfold sum_axis1. apply map_ext. intros r. apply (sum_axis_bool fst).
Qed.

Lemma sum_axis0_bool (n : nat) (nz : list (nat * nat)) :
  sum_axis0 (BoolMatrix n nz)
  = map (fun c => Z.of_nat (count_occ Nat.eq_dec (map snd nz) c)) (seq 0 n).
Proof.
  unfold sum_axis0. apply map_ext. intros r. apply (sum_axis_bool snd).
Qed.

Lemma sum_ix_bool (n : nat) (nz : list (nat * nat)) (mask : list bool) :
  sum_ix (BoolMatrix n nz) mask
  = Z.of_nat (length (filter (fun rc => nth (fst rc) mask false && nth (snd rc) mask false) nz)).
Proof.
  unfold sum_ix, cells. induction nz as [|[a b] nz IH]; [reflexivity |].
  cbn [map filter cell_row cell_col fst snd].
  destruct (nth a mask false && nth b mask false).
  - cbn [map zsum fold_right cell_val snd length].
    fold (zsum (map cell_val
                  (filter (fun e => nth (cell_row e) mask false && nth (cell_col e) mask false)
                          (map (fun rc => (fst rc, snd rc, 1)) nz)))).
    rewrite IH. lia.
  - exact IH.
Qed.

Section ValueCounts.

Variable own : list nat.
Variable n : nat.
Hypothesis own_in_shape : forall v, In v own -> (v < n)%nat.

Let D (r : nat) : Z := Z.of_nat (count_occ Nat.eq_dec own r).

Lemma values_value_counts : values (value_counts own) = map D (nodup Nat.eq_dec own).
Proof.
  unfold values, value_counts. rewrite map_map. reflexivity.
Qed.

Lemma find_value_counts (l : list nat) (F : nat -> Z) (v : nat) :
  find (fun p => (fst p =? v)%nat) (map (fun v => (v, F v)) l)
  = if in_dec Nat.eq_dec v l then Some (v, F v) else None.
Proof.
  induction l as [|x l IH]; [reflexivity |].
  cbn [map find fst]. destruct (Nat.eqb_spec x v) as [-> | E].
  - destruct (in_dec Nat.eq_dec v (v :: l)) as [_ | H]; [reflexivity |].
    exfalso. apply H. now left.
  - rewrite IH. destruct (in_dec Nat.eq_dec v l) as [H | H],
      (in_dec Nat.eq_dec v (x :: l)) as [H' | H']; try reflexivity.
    + exfalso. apply H'. now right.
    + exfalso. destruct H' as [H' | H']; [now apply E | now apply H].
Qed.

(** The scatter of the counts is the degree vector, zero-degree nodes
    included. *)
Lemma scatter_value_counts : scatter n (value_counts own) = map D (seq 0 n).
Proof.
  unfold scatter, value_counts. apply map_ext. intros v.
  rewrite <- map_rev, find_value_counts.
  destruct (in_dec Nat.eq_dec v (rev (nodup Nat.eq_dec own))) as [H | H]; [reflexivity |].
  unfold D. symmetry. rewrite (proj1 (count_occ_not_In Nat.eq_dec own v)); [reflexivity |].
  intros Hin. apply H. apply in_rev. rewrite rev_involutive. now apply nodup_In.
Qed.

(** From threshold 1 on, counting over the nodes that have an edge is
    counting over all nodes. *)
Lemma count_ge_value_counts (k : Z) :
  1 <= k ->
  count_ge (values (value_counts own)) k = count_ge (map D (seq 0 n)) k.
Proof.
  intros Hk. rewrite values_value_counts, !count_ge_map. f_equal.
  apply Permutation_length.
  apply NoDup_Permutation.
  - apply NoDup_filter, NoDup_nodup.
  - apply NoDup_filter, seq_NoDup.
  - intros x. rewrite !filter_In, nodup_In, in_seq. split.
    + intros [Hin Hx]. split; [| exact Hx]. specialize (own_in_shape x Hin). lia.
    + intros [_ Hx]. split; [| exact Hx].
      apply (count_occ_In Nat.eq_dec). unfold D in Hx. apply Z.leb_le in Hx. lia.
Qed.

Lemma index_value_counts_in_shape :
  existsb (fun v => (n <=? v)%nat) (index_values (value_counts own)) = false.
Proof.
  apply not_true_is_false. intros H. apply existsb_exists in H as (v & Hin & Hv).
  unfold index_values, value_counts in Hin. rewrite map_map in Hin. cbn [fst] in Hin.
  rewrite map_id in Hin. apply nodup_In in Hin. specialize (own_in_shape v Hin).
  apply Nat.leb_le in Hv. lia.
Qed.

End ValueCounts.

(** ** The two rich-club algorithms on a boolean matrix *)

Lemma removelast_arange (a b : Z) : a < b -> removelast (arange a b) = arange a (b - 1).
Proof.
  intros H. rewrite arange_snoc by exact H. apply removelast_last.
Qed.

(** The table that [efficient_rich_club_curve] builds from its two histograms
    over the bins [0 .. mx+1] holds, at each degree [b], the number of edges
    whose smaller end degree is at least [b] over the number of ordered pairs
    of nodes of degree at least [b]. *)
Lemma efficient_table (vals1 vals2 : list Z) (mx : Z) :
  0 <= mx ->
  (forall v, In v vals1 -> v <= mx + 1) ->
  (forall v, In v vals2 -> v <= mx + 1) ->
  combine (rev (removelast (arange 0 (mx + 2))))
          (zip_with true_divide
             (cumsum (rev (histogram vals2 (arange 0 (mx + 2)))))
             (map (fun c => c * (c - 1)) (cumsum (rev (histogram vals1 (arange 0 (mx + 2)))))))
  = map (fun b => (b, true_divide (count_ge vals2 b)
                        (count_ge vals1 b * (count_ge vals1 b - 1))))
        (rev (arange 0 (mx + 1))).
Proof.
  intros Hmx H1 H2.
  assert (Hns : nondecreasing (0 :: arange (0 + 1) (mx + 2))).
  { rewrite <- arange_cons by lia. apply nondecreasing_arange. }
  assert (Hne : arange (0 + 1) (mx + 2) <> []).
  { rewrite arange_cons by lia. discriminate. }
  assert (Hl : last (arange (0 + 1) (mx + 2)) 0 = mx + 1).
  { rewrite last_arange by lia. lia. }
  rewrite (arange_cons 0 (mx + 2)) by lia.
  rewrite !cumsum_rev_histogram by (auto; intros v Hv; rewrite Hl; auto).
  rewrite <- (arange_cons 0 (mx + 2)) by lia.
  rewrite removelast_arange by lia.
  replace (mx + 2 - 1) with (mx + 1) by lia.
  rewrite map_map. apply combine_zip_with_map.
Qed.

Lemma efficient_table_general (vals1 vals2 bins : list Z) (lo : Z) :
  nondecreasing (lo :: bins) -> bins <> [] ->
  (forall v, In v vals1 -> v <= last bins lo) ->
  (forall v, In v vals2 -> v <= last bins lo) ->
  combine (rev (removelast (lo :: bins)))
          (zip_with true_divide
             (cumsum (rev (histogram vals2 (lo :: bins))))
             (map (fun c => c * (c - 1)) (cumsum (rev (histogram vals1 (lo :: bins))))))
  = map (fun b => (b, true_divide (count_ge vals2 b)
                        (count_ge vals1 b * (count_ge vals1 b - 1))))
        (rev (removelast (lo :: bins))).
Proof.
  intros Hs Hne H1 H2. rewrite !cumsum_rev_histogram by assumption.
  rewrite map_map. apply combine_zip_with_map.
Qed.

(** [np.unique] gives the same values in non-decreasing order. *)
Lemma insert_unique_In (x y : Z) (l : list Z) :
  In y (insert_unique x l) <-> y = x \/ In y l.
Proof.
  induction l as [|z l IH]; cbn [insert_unique].
  - simpl. intuition.
  - destruct (Z.ltb_spec x z) as [H | H]; [simpl; intuition |].
    destruct (Z.eqb_spec x z) as [-> | Hne]; [simpl; intuition |].
    cbn [In]. rewrite IH. intuition.
Qed.

Lemma np_unique_In (y : Z) (l : list Z) : In y (np_unique l) <-> In y l.
Proof.
  unfold np_unique. induction l as [|x l IH]; [reflexivity |].
  cbn [fold_right]. rewrite insert_unique_In, IH. simpl. intuition.
Qed.

Lemma nondecreasing_head_le (a : Z) (l : list Z) :
  nondecreasing (a :: l) -> forall z, In z l -> a <= z.
Proof.
  revert a. induction l as [|b l IH]; intros a H z Hz; [contradiction |].
  destruct H as [Hab H]. destruct Hz as [<- | Hz]; [exact Hab |].
  specialize (IH b H z Hz). lia.
Qed.

Lemma nondecreasing_cons (a : Z) (l : list Z) :
  (forall z, In z l -> a <= z) -> nondecreasing l -> nondecreasing (a :: l).
Proof.
  intros Ha Hl. destruct l as [|b l]; [exact I |].
  split; [apply Ha; now left | exact Hl].
Qed.

Lemma nondecreasing_tail (a : Z) (l : list Z) : nondecreasing (a :: l) -> nondecreasing l.
Proof.
  destruct l as [|b l]; [intros _; exact I | now intros [_ H]].
Qed.

Lemma nondecreasing_insert_unique (x : Z) (l : list Z) :
  nondecreasing l -> nondecreasing (insert_unique x l).
Proof.
  induction l as [|y l IH]; intros Hl; [exact I |].
  cbn [insert_unique].
  destruct (Z.ltb_spec x y) as [H | H]; [split; [lia | exact Hl] |].
  destruct (Z.eqb_spec x y) as [-> | Hne]; [exact Hl |].
  apply nondecreasing_cons.
  - intros z Hz. apply insert_unique_In in Hz as [-> | Hz]; [lia |].
    now apply (nondecreasing_head_le y l Hl).
  - apply IH. now apply (nondecreasing_tail y).
Qed.

Lemma nondecreasing_np_unique (l : list Z) : nondecreasing (np_unique l).
Proof.
  unfold np_unique. induction l as [|x l IH]; [exact I |].
  cbn [fold_right]. now apply nondecreasing_insert_unique.
Qed.

Lemma nondecreasing_le_last (a : Z) (l : list Z) :
  nondecreasing (a :: l) -> forall z, In z (a :: l) -> z <= last l a.
Proof.
  revert a. induction l as [|b l IH]; intros a H z Hz.
  - destruct Hz as [<- | []]. simpl. lia.
  - rewrite last_cons. destruct Hz as [<- | Hz].
    + pose proof (nondecreasing_last (b :: l) a H) as Hl. now rewrite last_cons in Hl.
    + apply IH; [now apply (nondecreasing_tail a) | exact Hz].
Qed.

Lemma zip_with_map_pair {B C D : Type} (f : B -> C -> D) (g : nat -> B) (h : nat -> C)
    (l : list (nat * nat)) :
  zip_with f (map g (map fst l)) (map h (map snd l))
  = map (fun rc => f (g (fst rc)) (h (snd rc))) l.
Proof.
  unfold zip_with. induction l as [|x l IH]; simpl; [reflexivity | now rewrite IH].
Qed.

Section RichClubBool.

Variable n : nat.
Variable nz : list (nat * nat).
Variable sel : nat * nat -> nat.
Hypothesis sel_in_shape : forall v, In v (map sel nz) -> (v < n)%nat.

Let own : list nat := map sel nz.
Let D (r : nat) : Z := Z.of_nat (count_occ Nat.eq_dec own r).
Let degs : list Z := map D (seq 0 n).

Lemma D_nonneg (r : nat) : 0 <= D r.
Proof. unfold D. lia. Qed.

Lemma degs_le_max (mx : Z) (r : nat) :
  zmax (values (value_counts own)) = Some mx -> 0 <= nth r degs 0 <= mx.
Proof.
  intros Hmx.
  assert (H0 : 0 <= mx).
  { apply zmax_In in Hmx. rewrite values_value_counts in Hmx.
    apply in_map_iff in Hmx as (v & <- & _). lia. }
  assert (HD : forall v, 0 <= Z.of_nat (count_occ Nat.eq_dec own v) <= mx).
  { intros v. split; [lia |].
    destruct (in_dec Nat.eq_dec v own) as [Hin | Hin].
    - apply (zmax_ge _ _ Hmx). rewrite values_value_counts.
      apply in_map_iff. exists v. split; [reflexivity | now apply nodup_In].
    - rewrite (proj1 (count_occ_not_In Nat.eq_dec own v) Hin). simpl. exact H0. }
  destruct (Nat.lt_ge_cases r n) as [Hr | Hr].
  - unfold degs. rewrite (nth_indep _ 0 (D 0)) by (now rewrite length_map, length_seq).
    rewrite map_nth, seq_nth by exact Hr. apply HD.
  - rewrite nth_overflow; [lia |]. unfold degs. now rewrite length_map, length_seq.
Qed.

(** The edges with both ends in the club, counted from the mask or from the
    smaller end degree. *)
Lemma club_edges (k : Z) :
  1 <= k ->
  count_ge (zip_with Z.min (map (fun r => nth r degs 0) (map fst nz))
                           (map (fun c => nth c degs 0) (map snd nz))) k
  = sum_ix (BoolMatrix n nz) (map (fun d => k <=? d) degs).
Proof.
  intros Hk. rewrite zip_with_map_pair, count_ge_map, sum_ix_bool. f_equal.
  apply filter_length_ext. intros [r c] _. cbn [fst snd].
  assert (Hf : false = (k <=? 0)) by (symmetry; apply Z.leb_gt; lia).
  rewrite Hf, !(map_nth (fun d => k <=? d)).
  destruct (k <=? nth r degs 0) eqn:E1, (k <=? nth c degs 0) eqn:E2,
    (k <=? Z.min (nth r degs 0) (nth c degs 0)) eqn:E3; simpl; try reflexivity; lia.
Qed.

Lemma naive_efficient_value (k : Z) :
  1 <= k -> efficient_value n nz (value_counts own) k = naive_value n nz degs k.
Proof.
  intros Hk. unfold efficient_value, naive_value.
  rewrite (scatter_value_counts own n).
  fold D. fold degs. rewrite club_edges by exact Hk.
  rewrite (count_ge_value_counts own n sel_in_shape k Hk). reflexivity.
Qed.

Lemma efficient_values_bounded (mx : Z) :
  zmax (values (value_counts own)) = Some mx ->
  0 <= mx
  /\ (forall v, In v (values (value_counts own)) -> v <= mx + 1)
  /\ (forall v, In v (zip_with Z.min
                        (map (fun r => nth r (scatter n (value_counts own)) 0) (map fst nz))
                        (map (fun c => nth c (scatter n (value_counts own)) 0) (map snd nz))) ->
                v <= mx + 1).
Proof.
  intros Hmx. pose proof (degs_le_max mx 0%nat Hmx) as H0. split; [lia |]. split.
  - intros v Hv. pose proof (zmax_ge _ _ Hmx v Hv). lia.
  - intros v Hv. rewrite (scatter_value_counts own n) in Hv. fold D in Hv. fold degs in Hv.
    rewrite zip_with_map_pair in Hv. apply in_map_iff in Hv as ([r c] & <- & _).
    cbn [fst snd]. pose proof (degs_le_max mx r Hmx). lia.
Qed.

(** The largest threshold of the naive curve is a degree of the efficient
    one. *)
Lemma naive_max_le (mx1 mx2 : Z) :
  zmax degs = Some mx1 -> zmax (values (value_counts own)) = Some mx2 -> mx1 <= mx2.
Proof.
  intros H1 H2. apply zmax_In in H1. apply In_nth with (d := 0) in H1 as (r & _ & <-).
  apply (degs_le_max mx2 r H2).
Qed.

Lemma curves_agree (c1 : series Q npfloat) (c2 : series Z npfloat) :
  naive_curve n nz sel = inr c1 -> efficient_curve n nz sel = inr c2 ->
  forall k v, at_threshold k c1 = Some v -> lookup k c2 = Some v.
Proof.
  unfold naive_curve, efficient_curve. cbv zeta. fold own. fold D. fold degs.
  destruct (zmax degs) as [mx1|] eqn:E1; [| discriminate].
  destruct (zmax (values (value_counts own))) as [mx2|] eqn:E2; [| discriminate].
  intros [= <-] [= <-] k v Hk.
  apply at_threshold_map in Hk as [Hin ->]. apply In_arange in Hin.
  pose proof (naive_max_le mx1 mx2 E1 E2) as Hle.
  rewrite <- naive_efficient_value by lia.
  apply (lookup_map_In (efficient_value n nz (value_counts own))).
  apply in_rev. rewrite rev_involutive. apply In_arange. lia.
Qed.

Lemma sparse_bins_shape (mx : Z) :
  zmax (values (value_counts own)) = Some mx ->
  exists bins,
    np_unique (values (value_counts own) ++ [0; mx + 1]) = 0 :: bins
    /\ bins <> []
    /\ nondecreasing (0 :: bins)
    /\ mx + 1 <= last bins 0.
Proof.
  intros Hmx. pose proof (degs_le_max mx 0%nat Hmx) as H0.
  set (l := values (value_counts own) ++ [0; mx + 1]).
  pose proof (nondecreasing_np_unique l) as Hs.
  assert (Hz : In 0 (np_unique l)).
  { apply np_unique_In. unfold l. apply in_or_app. right. now left. }
  assert (Hm : In (mx + 1) (np_unique l)).
  { apply np_unique_In. unfold l. apply in_or_app. right. right. now left. }
  assert (Hnn : forall z, In z (np_unique l) -> 0 <= z).
  { intros z Hin. apply (proj1 (np_unique_In z l)) in Hin. unfold l in Hin.
    apply in_app_or in Hin as [Hin | [<- | [<- | []]]]; try lia.
    rewrite values_value_counts in Hin. apply in_map_iff in Hin as (v & <- & _). lia. }
  destruct (np_unique l) as [|lo bins] eqn:El; [contradiction |].
  assert (Hlo : lo = 0).
  { pose proof (Hnn lo (or_introl eq_refl)).
    destruct Hz as [-> | Hz]; [reflexivity |].
    pose proof (nondecreasing_head_le lo bins Hs 0 Hz). lia. }
  subst lo. exists bins. split; [reflexivity |].
  assert (Hne : bins <> []).
  { intros ->. destruct Hm as [Hm | []]. lia. }
  split; [exact Hne |]. split; [exact Hs |].
  now apply (nondecreasing_le_last 0 bins Hs).
Qed.

Lemma curves_agree_sparse (c1 : series Q npfloat) (c2 : series Z npfloat) :
  naive_curve n nz sel = inr c1 -> efficient_curve_sparse n nz sel = inr c2 ->
  forall k v1 v2, at_threshold k c1 = Some v1 -> lookup k c2 = Some v2 -> v1 = v2.
Proof.
  unfold naive_curve, efficient_curve_sparse. cbv zeta. fold own. fold D. fold degs.
  destruct (zmax degs) as [mx1|] eqn:E1; [| discriminate].
  intros [= <-] H2 k v1 v2 Hk Hl.
  apply at_threshold_map in Hk as [Hin ->]. apply In_arange in Hin.
  destruct (zmax (values (value_counts own))) as [mx2|] eqn:E2.
  - injection H2 as <-. apply lookup_map in Hl. subst v2.
    symmetry. apply naive_efficient_value. lia.
  - injection H2 as <-. unfold lookup in Hl. cbn [find fst] in Hl.
    destruct (Z.eqb_spec 0 k); [lia | discriminate].
Qed.

End RichClubBool.

Lemma rich_club_curve_bool {NRN : Type} (n : nat) (nz : list (nat * nat)) (nrn : NRN)
    (direction : string) :
  direction = "afferent"%string \/ direction = "efferent"%string ->
  rich_club_curve (BoolMatrix n nz) nrn direction = naive_curve n nz (direction_end direction).
Proof.
  intros [-> | ->]; unfold rich_club_curve, naive_curve, direction_end.
  - change (String.eqb "afferent" "afferent") with true. cbn [bind dtype_is_bool].
    rewrite sum_axis0_bool.
    destruct (zmax _); cbn [bind fst snd]; [| reflexivity].
    now rewrite combine_map_zip_with_map.
  - change (String.eqb "efferent" "afferent") with false.
    change (String.eqb "efferent" "efferent") with true. cbn [bind dtype_is_bool].
    rewrite sum_axis1_bool.
    destruct (zmax _); cbn [bind fst snd]; [| reflexivity].
    now rewrite combine_map_zip_with_map.
Qed.

Lemma efficient_rich_club_curve_bool (n : nat) (nz : list (nat * nat)) (direction : string) :
  direction = "afferent"%string \/ direction = "efferent"%string ->
  in_shape (BoolMatrix n nz) = true ->
  efficient_rich_club_curve (BoolMatrix n nz) direction None false
  = efficient_curve n nz (direction_end direction).
Proof.
  intros Hd Hs.
  assert (Hsel : forall v, In v (map (direction_end direction) nz) -> (v < n)%nat).
  { unfold in_shape in Hs. rewrite coords_bool in Hs. rewrite forallb_forall in Hs.
    intros v Hv. apply in_map_iff in Hv as (rc & <- & Hrc). specialize (Hs rc Hrc).
    apply andb_prop in Hs as [H1 H2]. apply Nat.ltb_lt in H1, H2. cbn [size] in H1, H2.
    unfold direction_end. destruct (String.eqb direction "afferent"); assumption. }
  assert (Hdeg : efficient_rich_club_curve (BoolMatrix n nz) direction None false
                 = match zmax (values (value_counts (map (direction_end direction) nz))) with
                   | None => inl (ValueError "arange: cannot compute length")
                   | Some mx =>
                       let deg := value_counts (map (direction_end direction) nz) in
                       let degree_bins := arange 0 (mx + 2) in
                       if existsb (fun v => (n <=? v)%nat) (index_values deg) then inl IndexError
                       else
                         inr (combine (rev (removelast degree_bins))
                                (zip_with true_divide
                                   (cumsum (rev (histogram
                                      (zip_with Z.min
                                         (map (fun r => nth r (scatter n deg) 0) (map fst nz))
                                         (map (fun c => nth c (scatter n deg) 0) (map snd nz)))
                                      degree_bins)))
                                   (map (fun c => c * (c - 1))
                                      (cumsum (rev (histogram (values deg) degree_bins))))))
                   end).
  { unfold efficient_rich_club_curve, direction_end. rewrite coords_bool.
    destruct Hd as [-> | ->]; reflexivity. }
  rewrite Hdeg. unfold efficient_curve. cbv zeta.
  destruct (zmax (values (value_counts (map (direction_end direction) nz)))) as [mx|] eqn:Emx;
    [| reflexivity].
  rewrite (index_value_counts_in_shape _ n Hsel).
  destruct (efficient_values_bounded n nz (direction_end direction) mx Emx) as (H0 & H1 & H2).
  rewrite efficient_table by assumption. reflexivity.
Qed.

Lemma efficient_rich_club_curve_bool_sparse (n : nat) (nz : list (nat * nat))
    (direction : string) :
  direction = "afferent"%string \/ direction = "efferent"%string ->
  in_shape (BoolMatrix n nz) = true ->
  efficient_rich_club_curve (BoolMatrix n nz) direction None true
  = efficient_curve_sparse n nz (direction_end direction).
Proof.
  intros Hd Hs.
  assert (Hsel : forall v, In v (map (direction_end direction) nz) -> (v < n)%nat).
  { intros v Hv. apply in_map_iff in Hv as (rc & <- & Hrc).
    destruct (in_shape_bool n nz Hs rc Hrc) as [H1 H2].
    unfold direction_end. destruct (String.eqb direction "afferent"); assumption. }
  assert (Hdeg : efficient_rich_club_curve (BoolMatrix n nz) direction None true
                 = match zmax (values (value_counts (map (direction_end direction) nz))) with
                   | None => inr [(0, true_divide 0 0)]
                   | Some mx =>
                       let deg := value_counts (map (direction_end direction) nz) in
                       let degree_bins := np_unique (values deg ++ [0; mx + 1]) in
                       if existsb (fun v => (n <=? v)%nat) (index_values deg) then inl IndexError
                       else
                         inr (combine (rev (removelast degree_bins))
                                (zip_with true_divide
                                   (cumsum (rev (histogram
                                      (zip_with Z.min
                                         (map (fun r => nth r (scatter n deg) 0) (map fst nz))
                                         (map (fun c => nth c (scatter n deg) 0) (map snd nz)))
                                      degree_bins)))
                                   (map (fun c => c * (c - 1))
                                      (cumsum (rev (histogram (values deg) degree_bins))))))
                   end).
  { unfold efficient_rich_club_curve, direction_end. rewrite coords_bool.
    destruct Hd as [-> | ->]; reflexivity. }
  rewrite Hdeg. unfold efficient_curve_sparse. cbv zeta.
  destruct (zmax (values (value_counts (map (direction_end direction) nz)))) as [mx|] eqn:Emx;
    [| reflexivity].
  rewrite (index_value_counts_in_shape _ n Hsel).
  destruct (efficient_values_bounded n nz (direction_end direction) mx Emx) as (H0 & H1 & H2).
  destruct (sparse_bins_shape n nz (direction_end direction) mx Emx)
    as (bins & -> & Hne & Hnd & Hlast).
  rewrite efficient_table_general; [reflexivity | exact Hnd | exact Hne | |].
  - intros v Hv. specialize (H1 v Hv). lia.
  - intros v Hv. specialize (H2 v Hv). lia.
Qed.

(** C1.  On every boolean square matrix in canonical form and for the directions
    afferent and efferent, the naive [rich_club_curve] and
    [efficient_rich_club_curve] (with either bin set) agree at every degree
    threshold present in both outputs; with the default bin set every
    threshold of the naive curve is present in the efficient one, with the
    same value.  Both curves divide the same two integers, so the agreement
    is exact. *)
Theorem rich_club_curves_agree {NRN : Type} (n : nat) (nz : list (nat * nat)) (nrn : NRN)
    (direction : string) (sparse_bin_set : bool)
    (c1 : series Q npfloat) (c2 : series Z npfloat) :
  direction = "afferent"%string \/ direction = "efferent"%string ->
  canonical (BoolMatrix n nz) = true ->
  rich_club_curve (BoolMatrix n nz) nrn direction = inr c1 ->
  efficient_rich_club_curve (BoolMatrix n nz) direction None sparse_bin_set = inr c2 ->
  (forall k v1 v2, at_threshold k c1 = Some v1 -> lookup k c2 = Some v2 -> v1 = v2)
  /\ (sparse_bin_set = false ->
      forall k v, at_threshold k c1 = Some v -> lookup k c2 = Some v).
Proof.
  intros Hd Hc H1 H2.
  apply andb_prop in Hc as [Hs _].
  rewrite rich_club_curve_bool in H1 by exact Hd.
  assert (Hsel : forall v, In v (map (direction_end direction) nz) -> (v < n)%nat).
  { intros v Hv. apply in_map_iff in Hv as (rc & <- & Hrc).
    destruct (in_shape_bool n nz Hs rc Hrc) as [Ha Hb].
    unfold direction_end. destruct (String.eqb direction "afferent"); assumption. }
  destruct sparse_bin_set.
  - rewrite efficient_rich_club_curve_bool_sparse in H2 by assumption.
    split; [| discriminate].
    exact (curves_agree_sparse n nz (direction_end direction) Hsel c1 c2 H1 H2).
  - rewrite efficient_rich_club_curve_bool in H2 by assumption.
    pose proof (curves_agree n nz (direction_end direction) Hsel c1 c2 H1 H2) as Hag.
    split; [| intros _; exact Hag].
    intros k v1 v2 Hv1 Hv2. apply Hag in Hv1. congruence.
Qed.

Lemma rich_club_curves_agree_witness :
  (forall k v1 v2,
      at_threshold k [(1%Q, Fin (1 # 2)); (2%Q, NaN)] = Some v1 ->
      lookup k [(2, NaN); (1, Fin (1 # 2)); (0, Fin (2 # 3))] = Some v2 -> v1 = v2)
  /\ (false = false ->
      forall k v,
        at_threshold k [(1%Q, Fin (1 # 2)); (2%Q, NaN)] = Some v ->
        lookup k [(2, NaN); (1, Fin (1 # 2)); (0, Fin (2 # 3))] = Some v).
Proof.
  apply (@rich_club_curves_agree unit 4 [(0, 1); (0, 2); (1, 2); (2, 3)]%nat tt "efferent"
           false).
  - right. reflexivity.
  - reflexivity.
  - reflexivity.
  - reflexivity.
Defined.

(** ** The four-node example *)

(** C4 (as the code has it).  On the 4-node boolean matrix with the edges
    0->1, 0->2, 1->2, 2->3, [rich_club_curve] with direction efferent has the
    thresholds 1 and 2; at threshold 1 its value is 3 edges over 6 ordered
    pairs among the nodes 0, 1, 2, that is 1/2, and at threshold 2 (node 0
    alone, no pair) its value is NaN. *)
Theorem rich_club_curve_example4 :
  forall (NRN : Type) (nrn : NRN),
  exists c,
    rich_club_curve example4 nrn "efferent" = inr c
    /\ index_values c = [inject_Z 1; inject_Z 2]
    /\ at_threshold 1 c = Some (true_divide 3 6)
    /\ true_divide 3 6 = Fin (1 # 2)
    /\ at_threshold 2 c = Some NaN.
Proof.
  intros NRN nrn. eexists. split; [reflexivity |]. repeat split.
Qed.

(** The value at threshold 1 is not the 2/6 of the specification's example. *)
Lemma rich_club_curve_example4_not_third :
  exists c v,
    rich_club_curve example4 tt "efferent" = inr c
    /\ at_threshold 1 c = Some v
    /\ ~ feq v (true_divide 2 6).
Proof.
  eexists. eexists. split; [reflexivity |]. split; [reflexivity |].
  cbv. intros H. discriminate H.
Qed.

(** ** The [nrn] argument *)

(** C10.  [gini_curve], [gini_coefficient], [normalized_gini_coefficient] and
    [rich_club_curve] never read their [nrn] argument: for every matrix and
    direction, any two values of [nrn] (of any types) give the same
    output. *)
Theorem nrn_is_never_read :
  forall (binom_pmf : Z -> Z -> npfloat -> npfloat) (A B : Type) (nrn1 : A) (nrn2 : B)
         (m : spmatrix) (direction : string),
    gini_curve m nrn1 direction = gini_curve m nrn2 direction
    /\ gini_coefficient m nrn1 direction = gini_coefficient m nrn2 direction
    /\ normalized_gini_coefficient binom_pmf m nrn1 direction
       = normalized_gini_coefficient binom_pmf m nrn2 direction
    /\ rich_club_curve m nrn1 direction = rich_club_curve m nrn2 direction.
Proof.
  intros. repeat split; reflexivity.
Qed.

(** ** Finite values as rationals *)


Lemma represents_Fin (q : Q) : represents (Fin q) q.
Proof. simpl. reflexivity. Qed.

Lemma represents_add (x y : npfloat) (a b : Q) :
  represents x a -> represents y b -> represents (add x y) (a + b).
Proof.
  destruct x, y; cbn [represents add]; try contradiction. intros Ha Hb.
  unfold fin, represents. rewrite Qred_correct, Ha, Hb. reflexivity.
Qed.

Lemma represents_sub (x y : npfloat) (a b : Q) :
  represents x a -> represents y b -> represents (sub x y) (a - b).
Proof.
  destruct x, y; cbn [represents sub add opp]; try contradiction. intros Ha Hb.
  unfold fin, represents. cbn [add]. unfold fin.
  rewrite !Qred_correct, Ha, Hb. reflexivity.
Qed.

Lemma represents_mul (x y : npfloat) (a b : Q) :
  represents x a -> represents y b -> represents (mul x y) (a * b).
Proof.
  destruct x, y; cbn [represents mul]; try contradiction. intros Ha Hb.
  unfold fin, represents. rewrite Qred_correct, Ha, Hb. reflexivity.
Qed.

Lemma represents_div (x y : npfloat) (a b : Q) :
  ~ (b == 0)%Q -> represents x a -> represents y b -> represents (div x y) (a / b).
Proof.
  destruct x, y; cbn [represents div]; try contradiction. intros Hnz Ha Hb.
  destruct (Qeq_bool q0 0) eqn:E.
  - apply Qeq_bool_iff in E. exfalso. apply Hnz. rewrite <- Hb. exact E.
  - unfold fin, represents. rewrite Qred_correct, Ha, Hb. reflexivity.
Qed.

Lemma represents_true_divide (a b : Z) :
  b <> 0 -> represents (true_divide a b) (inject_Z a / inject_Z b).
Proof.
  intros Hb. unfold true_divide. apply represents_div; try apply represents_Fin.
  unfold Qeq, inject_Z. simpl. lia.
Qed.

Lemma represents_sum {A : Type} (F : A -> npfloat) (t : A -> Q) (l : list A) :
  (forall j, In j l -> represents (F j) (t j)) ->
  represents (Np.sum (map F l)) (Qsum (map t l)).
Proof.
  induction l as [|x l IH]; intros H; [simpl; reflexivity |].
  cbn [map Np.sum Qsum fold_right]. apply represents_add.
  - apply H. now left.
  - apply IH. intros j Hj. apply H. now right.
Qed.

Lemma represents_ex (x : npfloat) (q : Q) :
  represents x q -> exists a, x = Fin a /\ (a == q)%Q.
Proof.
  destruct x; cbn [represents]; try contradiction. intros H. now exists q0.
Qed.

(** ** The trapezoid sum, point by point *)

Lemma cumsum_from_seq (l : list Z) (acc : Z) :
  cumsum_from acc l = map (fun j => acc + zsum (firstn (S j) l)) (seq 0 (length l)).
Proof.
  revert acc. induction l as [|x l IH]; intros acc; [reflexivity |].
  cbn [cumsum_from length seq map]. rewrite <- seq_shift, map_map, IH. f_equal.
  - simpl. lia.
  - apply map_ext. intros j. cbn [firstn zsum fold_right].
    fold (zsum (firstn (S j) l)). lia.
Qed.

Lemma cumsum_seq (l : list Z) :
  cumsum l = map (fun j => zsum (firstn (S j) l)) (seq 0 (length l)).
Proof.
  unfold cumsum. rewrite cumsum_from_seq. apply map_ext. intros j. lia.
Qed.

Lemma zip_with_map_prefix {A B C D : Type} (f : B -> C -> D) (g : A -> B) (h : A -> C)
    (l l' : list A) :
  zip_with f (map g (l ++ l')) (map h l) = map (fun x => f (g x) (h x)) l.
Proof.
  unfold zip_with. induction l as [|x l IH]; simpl.
  - destruct (map g l'); reflexivity.
  - now rewrite IH.
Qed.

Lemma zip_with_map_same {A B C D : Type} (f : B -> C -> D) (g : A -> B) (h : A -> C)
    (l : list A) :
  zip_with f (map g l) (map h l) = map (fun x => f (g x) (h x)) l.
Proof.
  rewrite <- (app_nil_r l) at 1. apply zip_with_map_prefix.
Qed.

Lemma tl_map_seq {B : Type} (g : nat -> B) (m : nat) :
  tl (map g (seq 0 (S m))) = map (fun j => g (S j)) (seq 0 m).
Proof.
  cbn [seq map tl]. now rewrite <- seq_shift, map_map.
Qed.

Lemma removelast_map_seq {B : Type} (g : nat -> B) (m : nat) :
  removelast (map g (seq 0 (S m))) = map g (seq 0 m).
Proof.
  rewrite seq_S, map_app. cbn [map]. apply removelast_last.
Qed.

Lemma trapezoid_map_seq (al be : nat -> npfloat) (m : nat) :
  trapezoid (map al (seq 0 (S m))) (map be (seq 0 (S m)))
  = Np.sum (map (fun j => div (mul (sub (al (S j)) (al j)) (add (be j) (be (S j)))) (Fin 2))
                (seq 0 m)).
Proof.
  unfold trapezoid, np_diff.
  rewrite !tl_map_seq, removelast_map_seq.
  rewrite (seq_S m 0) at 1. cbn [Nat.add].
  rewrite (zip_with_map_prefix (fun lo hi => sub hi lo) al (fun j => al (S j))).
  rewrite (zip_with_map_same add be (fun j => be (S j))).
  rewrite (zip_with_map_same mul).
  rewrite map_map. reflexivity.
Qed.

Lemma length_linspace (a b : Q) (n : nat) : length (linspace a b n) = n.
Proof.
  destruct n as [|[|n]]; [reflexivity | reflexivity |].
  unfold linspace. now rewrite length_map, length_seq.
Qed.

Lemma index_values_combine {K V : Type} (a : list K) (b : list V) :
  length a = length b -> index_values (combine a b) = a.
Proof.
  unfold index_values. revert b. induction a as [|x a IH]; intros [|y b] H;
    try discriminate; [reflexivity |]. simpl. f_equal. apply IH. now injection H.
Qed.

Lemma values_combine {K V : Type} (a : list K) (b : list V) :
  length a = length b -> values (combine a b) = b.
Proof.
  unfold values. revert b. induction a as [|x a IH]; intros [|y b] H;
    try discriminate; [reflexivity |]. simpl. f_equal. apply IH. now injection H.
Qed.

Lemma length_cumsum (l : list Z) : length (cumsum l) = length l.
Proof.
  now rewrite cumsum_seq, length_map, length_seq.
Qed.

(** ** The Gini curve and its integral *)

Lemma zsum_insert_sorted (x : Z) (l : list Z) : zsum (insert_sorted x l) = x + zsum l.
Proof.
  induction l as [|y l IH]; [reflexivity |].
  cbn [insert_sorted]. destruct (x <=? y); [reflexivity |].
  cbn [zsum fold_right] in *. fold (zsum (insert_sorted x l)). fold (zsum l).
  rewrite IH. lia.
Qed.

Lemma zsum_sort_ascending (l : list Z) : zsum (sort_ascending l) = zsum l.
Proof.
  induction l as [|x l IH]; [reflexivity |].
  cbn [sort_ascending fold_right]. fold (sort_ascending l).
  rewrite zsum_insert_sorted, IH. reflexivity.
Qed.

Lemma length_insert_sorted (x : Z) (l : list Z) :
  length (insert_sorted x l) = S (length l).
Proof.
  induction l as [|y l IH]; [reflexivity |].
  cbn [insert_sorted]. destruct (x <=? y); [reflexivity |]. simpl. now rewrite IH.
Qed.

Lemma length_sort_ascending (l : list Z) : length (sort_ascending l) = length l.
Proof.
  induction l as [|x l IH]; [reflexivity |].
  cbn [sort_ascending fold_right]. fold (sort_ascending l).
  rewrite length_insert_sorted, IH. reflexivity.
Qed.

Lemma Forall_insert_sorted (P : Z -> Prop) (x : Z) (l : list Z) :
  P x -> Forall P l -> Forall P (insert_sorted x l).
Proof.
  intros Hx Hl. induction Hl as [|y l Hy Hl IH]; [now constructor |].
  cbn [insert_sorted]. destruct (x <=? y); repeat constructor; assumption.
Qed.

Lemma Forall_sort_ascending (P : Z -> Prop) (l : list Z) :
  Forall P l -> Forall P (sort_ascending l).
Proof.
  intros Hl. induction Hl as [|x l Hx Hl IH]; [constructor |].
  cbn [sort_ascending fold_right]. fold (sort_ascending l).
  now apply Forall_insert_sorted.
Qed.

Lemma sort_ascending_repeat (c : Z) (n : nat) : sort_ascending (repeat c n) = repeat c n.
Proof.
  induction n as [|n IH]; [reflexivity |].
  cbn [repeat sort_ascending fold_right]. fold (sort_ascending (repeat c n)).
  rewrite IH. destruct n; [reflexivity |]. cbn [repeat insert_sorted].
  now rewrite Z.leb_refl.
Qed.

Lemma rev_repeat_same (c : Z) (n : nat) : rev (repeat c n) = repeat c n.
Proof.
  induction n as [|n IH]; [reflexivity |].
  cbn [repeat rev]. rewrite IH. symmetry. apply repeat_cons.
Qed.

Lemma cells_nonneg (m : spmatrix) : Forall (fun e => 0 <= cell_val e) (cells m).
Proof.
  apply Forall_forall. intros e He. destruct m as [n nz | n nz]; cbn [cells] in He;
    apply in_map_iff in He as (x & <- & _); unfold cell_val; cbn [snd]; lia.
Qed.

Lemma zsum_nonneg (l : list Z) : Forall (fun d => 0 <= d) l -> 0 <= zsum l.
Proof.
  induction 1 as [|x l Hx Hl IH]; simpl; [lia |]. fold (zsum l). lia.
Qed.

Lemma sum_axis_nonneg (m : spmatrix) :
  Forall (fun d => 0 <= d) (sum_axis0 m) /\ Forall (fun d => 0 <= d) (sum_axis1 m).
Proof.
  pose proof (cells_nonneg m) as Hc. rewrite Forall_forall in Hc.
  split; apply Forall_forall; intros d Hd; apply in_map_iff in Hd as (k & <- & _);
    apply zsum_nonneg, Forall_forall; intros v Hv;
    apply in_map_iff in Hv as (e & <- & He); apply filter_In in He as [He _]; now apply Hc.
Qed.

Lemma gini_order_facts (m : spmatrix) (direction : string) :
  length (gini_order m direction) = size m
  /\ Forall (fun d => 0 <= d) (gini_order m direction)
  /\ zsum (gini_order m direction) = zsum (degree_vector m direction).
Proof.
  unfold gini_order, degree_vector. destruct (sum_axis_nonneg m) as [H0 H1].
  destruct (String.eqb direction "afferent").
  - rewrite length_rev, length_sort_ascending, zsum_rev, zsum_sort_ascending.
    unfold sum_axis0 at 1. rewrite length_map, length_seq. repeat split.
    apply Forall_rev, Forall_sort_ascending, H0.
  - unfold sum_axis1 at 1. rewrite length_map, length_seq. repeat split. exact H1.
Qed.

Lemma gini_order_regular (m : spmatrix) (direction : string) (c : Z) :
  degree_vector m direction = repeat c (size m) ->
  gini_order m direction = repeat c (size m).
Proof.
  unfold gini_order, degree_vector. destruct (String.eqb direction "afferent"); intros ->.
  - now rewrite sort_ascending_repeat, rev_repeat_same.
  - reflexivity.
Qed.

Lemma gini_coefficient_unfold {NRN : Type} (m : spmatrix) (nrn : NRN) (direction : string) :
  direction = "afferent"%string \/ direction = "efferent"%string ->
  gini_curve m nrn direction
  = inr (combine (linspace 0 1 (length (gini_order m direction)))
                 (map (fun c => true_divide c (zsum (degree_vector m direction)))
                      (cumsum (gini_order m direction))))
  /\ gini_coefficient m nrn direction
     = inr (gini_from (gini_order m direction) (zsum (degree_vector m direction))).
Proof.
  assert (Hlen : forall L t,
             length (linspace 0 1 (length (map (fun c => true_divide c t) (cumsum L))))
             = length (map (fun c => true_divide c t) (cumsum L))).
  { intros. apply length_linspace. }
  intros [-> | ->]; unfold gini_coefficient, gini_curve, gini_order, degree_vector, gini_from.
  - change (String.eqb "afferent" "afferent") with true.
    cbn [bind flatten flipud py_sorted].
    rewrite index_values_combine, values_combine by apply Hlen.
    now rewrite !length_map, !length_cumsum.
  - change (String.eqb "efferent" "afferent") with false.
    change (String.eqb "efferent" "efferent") with true.
    cbn [bind flatten flipud py_sorted].
    rewrite index_values_combine, values_combine by apply Hlen.
    now rewrite !length_map, !length_cumsum.
Qed.

Lemma Qnat_S (j : nat) : (Qnat (S j) == Qnat j + 1)%Q.
Proof.
  unfold Qnat. rewrite Nat2Z.inj_succ, <- Z.add_1_r, inject_Z_plus. reflexivity.
Qed.

Lemma Qnat_pos (j : nat) : (0 < Qnat (S j))%Q.
Proof.
  unfold Qnat, Qlt. simpl. lia.
Qed.

Lemma Qnat_nonneg (j : nat) : (0 <= Qnat j)%Q.
Proof.
  unfold Qnat, Qle. simpl. lia.
Qed.

Lemma Qsum_map_ext {A : Type} (f g : A -> Q) (l : list A) :
  (forall j, In j l -> (f j == g j)%Q) -> (Qsum (map f l) == Qsum (map g l))%Q.
Proof.
  induction l as [|x l IH]; intros H; [reflexivity |].
  cbn [map Qsum fold_right]. fold (Qsum (map f l)). fold (Qsum (map g l)).
  rewrite IH, (H x) by (try (intros; apply H); now (left + right)). reflexivity.
Qed.

Lemma Qsum_map_bounds {A : Type} (f : A -> Q) (u : Q) (l : list A) :
  (forall j, In j l -> (0 <= f j <= u)%Q) ->
  (0 <= Qsum (map f l) <= Qnat (length l) * u)%Q.
Proof.
  induction l as [|x l IH]; intros H.
  - cbn. split; [apply Qle_refl |]. unfold Qle. simpl. lia.
  - cbn [map Qsum fold_right length]. fold (Qsum (map f l)).
    destruct (H x (or_introl eq_refl)) as [H1 H2].
    destruct IH as [H3 H4]; [intros; apply H; now right |].
    rewrite Qnat_S. split; [lra |]. lra.
Qed.

Lemma Qsum_seq_S (f : nat -> Q) (k : nat) :
  (Qsum (map f (seq 0 (S k))) == Qsum (map f (seq 0 k)) + f k)%Q.
Proof.
  rewrite seq_S, map_app. cbn [Nat.add map].
  generalize (map f (seq 0 k)) as l. intros l.
  induction l as [|x l IH]; cbn [app Qsum fold_right].
  - lra.
  - fold (Qsum (l ++ [f k])). fold (Qsum l). rewrite IH. lra.
Qed.

Lemma zsum_firstn_bounds (L : list Z) (k : nat) :
  Forall (fun d => 0 <= d) L -> 0 <= zsum (firstn k L) <= zsum L.
Proof.
  intros H. rewrite <- (firstn_skipn k L) in H. apply Forall_app in H as [H1 H2].
  rewrite <- (firstn_skipn k L) at 3. rewrite zsum_app.
  pose proof (zsum_nonneg _ H1). pose proof (zsum_nonneg _ H2). lia.
Qed.

Lemma Qdiv_Z_bounds (p t : Z) :
  0 <= p <= t -> 0 < t -> (0 <= inject_Z p / inject_Z t <= 1)%Q.
Proof.
  intros Hp Ht.
  assert (H0 : (0 < inject_Z t)%Q) by (unfold Qlt; simpl; lia).
  split.
  - apply Qle_shift_div_l; [exact H0 |]. rewrite Qmult_0_l.
    unfold Qle. simpl. lia.
  - apply Qle_shift_div_r; [exact H0 |]. rewrite Qmult_1_l.
    unfold Qle. simpl. lia.
Qed.

Section GiniFrom.

Variable L : list Z.
Variable total : Z.
Variable m : nat.
Hypothesis total_pos : 0 < total.
Hypothesis length_L : length L = S (S m).

(** The rank of node [j] and the cumulative share up to node [j]. *)
Let rank (j : nat) : Q := (0 + Qnat j * ((1 - 0) / Qnat (S m)))%Q.
Let share (j : nat) : Q := (inject_Z (zsum (firstn (S j) L)) / inject_Z total)%Q.
Let strip (j : nat) : Q := ((rank (S j) - rank j) * (share j + share (S j)) / 2)%Q.

Lemma gini_from_represents :
  represents (gini_from L total) (Qsum (map strip (seq 0 (S m)))).
Proof.
  unfold gini_from. rewrite cumsum_seq, length_L.
  change (linspace 0 1 (S (S m))) with (map rank (seq 0 (S (S m)))).
  rewrite !map_map, trapezoid_map_seq.
  apply represents_sum. intros j _. unfold strip.
  apply represents_div; [discriminate | | apply represents_Fin].
  apply represents_mul.
  - apply represents_sub; apply represents_Fin.
  - apply represents_add; apply represents_true_divide; lia.
Qed.

Lemma rank_step (j : nat) : (rank (S j) - rank j == 1 / Qnat (S m))%Q.
Proof.
  unfold rank. rewrite Qnat_S. pose proof (Qnat_pos m). field. lra.
Qed.

Lemma gini_from_range :
  Forall (fun d => 0 <= d) L -> zsum L = total ->
  exists q, gini_from L total = Fin q /\ (0 <= q <= 1)%Q.
Proof.
  intros Hnn Hsum.
  destruct (represents_ex _ _ gini_from_represents) as (q & Hq & Eq).
  exists q. split; [exact Hq |]. rewrite Eq.
  assert (Hb : forall j, In j (seq 0 (S m)) -> (0 <= strip j <= 1 / Qnat (S m))%Q).
  { intros j _. unfold strip. rewrite rank_step.
    assert (Hs : forall i, (0 <= share i <= 1)%Q).
    { intros i. unfold share. apply Qdiv_Z_bounds; [| exact total_pos].
      rewrite <- Hsum. now apply zsum_firstn_bounds. }
    pose proof (Hs j) as [H1 H2]. pose proof (Hs (S j)) as [H3 H4].
    pose proof (Qnat_pos m) as Hm.
    assert (Hinv : (0 < 1 / Qnat (S m))%Q).
    { apply Qlt_shift_div_l; [exact Hm | lra]. }
    set (u := (1 / Qnat (S m))%Q) in *.
    set (a := share j) in *. set (b := share (S j)) in *.
    clearbody u a b. split.
    - setoid_replace (u * (a + b) / 2)%Q with (u * ((a + b) * (1 # 2)))%Q by field.
      apply Qmult_le_0_compat; lra.
    - setoid_replace (u * (a + b) / 2)%Q with (u * ((a + b) * (1 # 2)))%Q by field.
      rewrite <- (Qmult_1_r u) at 2. apply Qmult_le_l; [exact Hinv | lra]. }
  pose proof (Qsum_map_bounds strip _ _ Hb) as [H1 H2].
  rewrite length_seq in H2. split; [exact H1 |].
  eapply Qle_trans; [exact H2 |]. pose proof (Qnat_pos m).
  apply Qle_lteq. right. field. lra.
Qed.

End GiniFrom.

Lemma firstn_repeat (c : Z) (k n : nat) : firstn k (repeat c n) = repeat c (Nat.min k n).
Proof.
  revert k. induction n as [|n IH]; intros [|k]; try reflexivity.
  cbn [repeat firstn Nat.min]. now rewrite IH.
Qed.

Lemma zsum_repeat (c : Z) (k : nat) : zsum (repeat c k) = Z.of_nat k * c.
Proof.
  induction k as [|k IH]; [reflexivity |].
  cbn [repeat zsum fold_right]. fold (zsum (repeat c k)). rewrite IH. lia.
Qed.

Section GiniRegular.

Variable c : Z.
Variable m : nat.
Hypothesis c_pos : 0 < c.

Let n : nat := S (S m).
Let L : list Z := repeat c n.
Let total : Z := Z.of_nat n * c.

Lemma regular_strip (j : nat) :
  (j < S m)%nat ->
  (((0 + Qnat (S j) * ((1 - 0) / Qnat (S m))) - (0 + Qnat j * ((1 - 0) / Qnat (S m))))
   * (inject_Z (zsum (firstn (S j) L)) / inject_Z total
      + inject_Z (zsum (firstn (S (S j)) L)) / inject_Z total) / 2
   == (2 * Qnat j + 3) / (2 * Qnat (S m) * Qnat n))%Q.
Proof.
  intros Hj. unfold L, total. rewrite !firstn_repeat, !zsum_repeat.
  replace (Nat.min (S j) n) with (S j) by (unfold n; lia).
  replace (Nat.min (S (S j)) n) with (S (S j)) by (unfold n; lia).
  rewrite !inject_Z_mult. fold (Qnat (S j)) (Qnat (S (S j))) (Qnat n).
  assert (Hc : ~ (inject_Z c == 0)%Q) by (unfold Qeq; simpl; lia).
  pose proof (Qnat_pos m) as Hm. pose proof (Qnat_pos (S m)) as Hn. fold n in Hn.
  rewrite (Qnat_S (S j)), (Qnat_S j). field. repeat split; try assumption; lra.
Qed.

Lemma regular_partial_sum (k : nat) :
  (k <= S m)%nat ->
  (Qsum (map (fun j => (2 * Qnat j + 3) / (2 * Qnat (S m) * Qnat n)) (seq 0 k))
   == Qnat k * (Qnat k + 2) / (2 * Qnat (S m) * Qnat n))%Q.
Proof.
  pose proof (Qnat_pos m) as Hm. pose proof (Qnat_pos (S m)) as Hn. fold n in Hn.
  induction k as [|k IH]; intros Hk.
  - cbn [seq map Qsum fold_right]. change (Qnat 0) with 0%Q. field. split; lra.
  - rewrite Qsum_seq_S, IH by lia. rewrite (Qnat_S k). field. split; lra.
Qed.

Lemma gini_from_regular :
  represents (gini_from L total) ((Qnat n + 1) / (2 * Qnat n)).
Proof.
  assert (Htot : 0 < total) by (unfold total, n; lia).
  assert (Hlen : length L = S (S m)) by (unfold L, n; apply repeat_length).
  pose proof (gini_from_represents L total m Htot Hlen) as H. cbv zeta in H.
  destruct (represents_ex _ _ H) as (q & Hq & Eq).
  rewrite Hq. cbn [represents]. rewrite Eq.
  rewrite (Qsum_map_ext _ (fun j => (2 * Qnat j + 3) / (2 * Qnat (S m) * Qnat n))%Q).
  - rewrite regular_partial_sum by lia.
    pose proof (Qnat_pos m) as Hm.
    assert (Hnn : (Qnat n == Qnat (S m) + 1)%Q) by (unfold n; apply Qnat_S).
    rewrite !Hnn. field. split; lra.
  - intros j Hj. apply in_seq in Hj. apply regular_strip. lia.
Qed.

End GiniRegular.

(** C5 (as the code has it).  For every matrix with at least one edge (its
    weights are non-negative) and either direction, [gini_coefficient] is the
    trapezoid sum of the Gini curve over its rank axis and lies in [0, 1].
    On a regular graph with N >= 2 nodes (every node the same degree) it is
    (N + 1) / (2 N): the area under the diagonal plus half a step, not 0. *)
Theorem gini_coefficient_spec {NRN : Type} (m : spmatrix) (nrn : NRN) (direction : string) :
  direction = "afferent"%string \/ direction = "efferent"%string ->
  0 < zsum (degree_vector m direction) ->
  exists gc q,
    gini_curve m nrn direction = inr gc
    /\ gini_coefficient m nrn direction = inr (Fin q)
    /\ trapezoid (map Fin (index_values gc)) (values gc) = Fin q
    /\ (0 <= q <= 1)%Q
    /\ (forall c, (2 <= size m)%nat -> degree_vector m direction = repeat c (size m) ->
                  (q == (Qnat (size m) + 1) / (2 * Qnat (size m)))%Q).
Proof.
  intros Hd Hpos.
  destruct (gini_coefficient_unfold m nrn direction Hd) as [Hcurve Hcoef].
  destruct (gini_order_facts m direction) as (Hlen & Hnn & Hsum).
  assert (Htrap : forall gc, gini_curve m nrn direction = inr gc ->
            trapezoid (map Fin (index_values gc)) (values gc)
            = gini_from (gini_order m direction) (zsum (degree_vector m direction))).
  { intros gc Hgc. unfold gini_coefficient in Hcoef. rewrite Hgc in Hcoef.
    cbn [bind] in Hcoef. now injection Hcoef. }
  remember (gini_order m direction) as L eqn:EL.
  remember (zsum (degree_vector m direction)) as total eqn:Et.
  destruct L as [|x [|y L]].
  - cbn [zsum fold_right] in Hsum. lia.
  - eexists. exists (0%Q). split; [exact Hcurve |]. split; [exact Hcoef |].
    split; [now apply Htrap |]. split; [lra |].
    intros c Hn. cbn [length] in Hlen. lia.
  - destruct (gini_from_range (x :: y :: L) total (length L) Hpos eq_refl Hnn Hsum)
      as (q & Hq & Hr).
    eexists. exists q. split; [exact Hcurve |]. split; [now rewrite Hcoef, Hq |].
    split; [rewrite <- Hq; now apply Htrap |]. split; [exact Hr |].
    intros c Hn Hreg. pose proof (gini_order_regular m direction c Hreg) as Hord.
    rewrite <- EL, <- Hlen in Hord. cbn [length] in Hord.
    assert (Hc : 0 < c).
    { rewrite Et, Hreg, zsum_repeat in Hpos. nia. }
    pose proof (gini_from_regular c (length L) Hc) as Hrep. cbv zeta in Hrep.
    rewrite <- Hord in Hrep.
    replace (Z.of_nat (S (S (length L))) * c) with total in Hrep.
    + rewrite Hq in Hrep. cbn [represents] in Hrep. rewrite Hrep, <- Hlen. reflexivity.
    + rewrite Et, Hreg, zsum_repeat, <- Hlen. reflexivity.
Qed.

Lemma gini_coefficient_spec_witness :
  exists gc q,
    gini_curve cycle2 tt "efferent" = inr gc
    /\ gini_coefficient cycle2 tt "efferent" = inr (Fin q)
    /\ trapezoid (map Fin (index_values gc)) (values gc) = Fin q
    /\ (0 <= q <= 1)%Q
    /\ (forall c, (2 <= size cycle2)%nat ->
                  degree_vector cycle2 "efferent" = repeat c (size cycle2) ->
                  (q == (Qnat (size cycle2) + 1) / (2 * Qnat (size cycle2)))%Q).
Proof.
  apply (@gini_coefficient_spec unit cycle2 tt "efferent").
  - right. reflexivity.
  - reflexivity.
Defined.

(** On the two-node cycle (both degrees are 1) the coefficient is 3/4, not 0;
    on a matrix without edges it is NaN, outside [0, 1]. *)
Lemma gini_coefficient_regular_not_zero :
  degree_vector cycle2 "efferent" = [1; 1]
  /\ degree_vector cycle2 "afferent" = [1; 1]
  /\ gini_coefficient cycle2 tt "efferent" = inr (Fin (3 # 4))
  /\ gini_coefficient cycle2 tt "afferent" = inr (Fin (3 # 4))
  /\ ~ feq (Fin (3 # 4)) (Fin 0)
  /\ gini_coefficient (BoolMatrix 3 []) tt "efferent" = inr NaN.
Proof.
  repeat split. cbv. intros H. discriminate H.
Qed.

(** ** The degree-based control *)

Lemma length_remove_nth {A : Type} (i : nat) (l : list A) :
  (i < length l)%nat -> length (remove_nth i l) = pred (length l).
Proof.
  revert i. induction l as [|x l IH]; intros i Hi; [simpl in Hi; lia |].
  destruct i as [|i]; [reflexivity |].
  cbn [remove_nth length] in *. rewrite IH by lia. lia.
Qed.

Lemma length_draw (cands : list nat) (size : nat) (g : rng) :
  (size <= length cands)%nat -> length (fst (draw cands size g)) = size.
Proof.
  revert cands g. induction size as [|size IH]; intros cands g H; [reflexivity |].
  destruct cands as [|c cands]; [simpl in H; lia |].
  cbn [draw fst length]. f_equal. apply IH.
  rewrite length_remove_nth.
  - cbn [length] in *. lia.
  - apply Nat.mod_upper_bound. discriminate.
Qed.

Lemma length_np_random_choice (a : list nat) (size : nat) (p : list npfloat) (g : rng)
    (s : list nat * rng) :
  np_random_choice a size p g = inr s -> length (fst s) = size.
Proof.
  unfold np_random_choice.
  destruct (existsb isnan p); [discriminate |].
  destruct (length a <? size)%nat; [discriminate |].
  destruct (Nat.ltb_spec
              (length (map fst (filter (fun ap => ltb (Fin 0) (snd ap)) (combine a p)))) size)
    as [H | H]; [discriminate |].
  intros [= <-]. now apply length_draw.
Qed.

Lemma length_zip_with {A B C : Type} (f : A -> B -> C) (l1 : list A) (l2 : list B) :
  length l1 = length l2 -> length (zip_with f l1 l2) = length l1.
Proof.
  intros H. unfold zip_with. rewrite length_map, length_combine. lia.
Qed.

Section ShuffleFacts.

Variable E : Type.
Variable major : E -> nat.
Variable set_minor : E -> nat -> E.
Hypothesis major_set_minor : forall e i, major (set_minor e i) = major e.

Variable idxx : list nat.
Variable p_out : list npfloat.
Variable entries : list E.

Lemma shuffle_line_count (col : nat) (g : rng) (out : list E * rng) (r : nat) :
  shuffle_line E major set_minor idxx p_out entries col g = inr out ->
  length (line E major (fst out) r)
  = if (r =? col)%nat then length (line E major entries col) else O.
Proof.
  unfold shuffle_line.
  destruct (np_random_choice idxx _ _ g) as [e | sample] eqn:Ech; [discriminate |].
  cbn [bind]. intros [= <-]. cbn [fst].
  apply length_np_random_choice in Ech.
  assert (Hall : forall l s, Forall (fun e => major e = col) l -> length s = length l ->
            length (line E major (zip_with set_minor l s) r)
            = if (r =? col)%nat then length l else O).
  { induction l as [|e l IH]; intros [|i s] Hl Hs; try discriminate.
    - now destruct (r =? col)%nat.
    - inversion Hl as [|? ? He Hl']; subst.
      unfold zip_with, line in *. cbn [combine map filter fst snd length].
      rewrite major_set_minor, Nat.eqb_sym.
      specialize (IH s Hl' ltac:(now injection Hs)).
      destruct (r =? major e)%nat; cbn [length]; now rewrite IH. }
  apply Hall; [| exact Ech].
  apply Forall_forall. intros e He. apply filter_In in He as [_ He].
  now apply Nat.eqb_eq in He.
Qed.

Lemma line_app (l1 l2 : list E) (r : nat) :
  line E major (l1 ++ l2) r = line E major l1 r ++ line E major l2 r.
Proof. apply filter_app. Qed.

Lemma shuffle_lines_count (cols : list nat) (g : rng) (out : list E * rng) (r : nat) :
  NoDup cols ->
  shuffle_lines E major set_minor idxx p_out entries cols g = inr out ->
  length (line E major (fst out) r)
  = if in_dec Nat.eq_dec r cols then length (line E major entries r) else O.
Proof.
  revert g out. induction cols as [|col cols IH]; intros g out Hnd.
  - intros [= <-]. reflexivity.
  - cbn [shuffle_lines].
    destruct (shuffle_line E major set_minor idxx p_out entries col g) as [e | first] eqn:E1;
      [discriminate |].
    cbn [bind].
    destruct (shuffle_lines E major set_minor idxx p_out entries cols (snd first))
      as [e | others] eqn:E2; [discriminate |].
    cbn [bind]. intros [= <-]. cbn [fst].
    inversion Hnd as [|? ? Hnotin Hnd']; subst.
    rewrite line_app, length_app, (shuffle_line_count col g first r E1),
      (IH (snd first) others Hnd' E2).
    destruct (Nat.eqb_spec r col) as [-> | Hne].
    + destruct (in_dec Nat.eq_dec col cols) as [Hin | _]; [contradiction |].
      destruct (in_dec Nat.eq_dec col (col :: cols)) as [_ | Hn]; [lia |].
      exfalso. apply Hn. now left.
    + destruct (in_dec Nat.eq_dec r cols) as [Hin | Hnin],
        (in_dec Nat.eq_dec r (col :: cols)) as [Hin' | Hnin']; try reflexivity.
      * exfalso. apply Hnin'. now right.
      * exfalso. destruct Hin' as [-> | Hin']; [now apply Hne | now apply Hnin].
Qed.

(** Every line inside the shape keeps its number of entries. *)
Lemma shuffle_lines_preserves (n : nat) (g : rng) (out : list E * rng) (r : nat) :
  (forall e, In e entries -> (major e < n)%nat) ->
  shuffle_lines E major set_minor idxx p_out entries (seq 0 n) g = inr out ->
  length (line E major (fst out) r) = length (line E major entries r).
Proof.
  intros Hin Hout. rewrite (shuffle_lines_count (seq 0 n) g out r (seq_NoDup n 0) Hout).
  destruct (in_dec Nat.eq_dec r (seq 0 n)) as [_ | Hn]; [reflexivity |].
  symmetry. apply length_zero_iff_nil.
  destruct (line E major entries r) as [|e l] eqn:El; [reflexivity |].
  exfalso. apply Hn. apply in_seq.
  assert (He : In e (line E major entries r)) by (rewrite El; now left).
  apply filter_In in He as [He Hr]. apply Nat.eqb_eq in Hr. specialize (Hin e He). lia.
Qed.

End ShuffleFacts.

Lemma length_filter_map {A B : Type} (p : B -> bool) (f : A -> B) (l : list A) :
  length (filter p (map f l)) = length (filter (fun x => p (f x)) l).
Proof.
  induction l as [|x l IH]; [reflexivity |]. cbn [map filter].
  destruct (p (f x)); cbn [length]; now rewrite IH.
Qed.

Lemma coords_int (n : nat) (nz : list (nat * nat * nat)) :
  coords (IntMatrix n nz) = map fst nz.
Proof.
  unfold coords, cells. rewrite map_map. apply map_ext. now intros [[r c] w].
Qed.

Lemma in_shape_int (n : nat) (nz : list (nat * nat * nat)) :
  in_shape (IntMatrix n nz) = true ->
  forall e, In e nz -> (fst (fst e) < n)%nat /\ (snd (fst e) < n)%nat.
Proof.
  unfold in_shape. rewrite coords_int, forallb_forall. intros H e He.
  specialize (H (fst e) (in_map fst nz e He)). apply andb_prop in H as [H1 H2].
  apply Nat.ltb_lt in H1, H2. now split.
Qed.

(** C3 (as the code has it).  With direction efferent the matrix is taken in
    CSR form and the loop rewrites the column indices of one row at a time:
    whatever the random source yields, every row keeps its exact number of
    stored entries (the out-degree), and the shape and dtype are kept. *)
Theorem degree_based_control_efferent_rows (M M' : spmatrix) (g g' : rng) :
  in_shape M = true ->
  generate_degree_based_control M "efferent" g = inr (M', g') ->
  size M' = size M
  /\ dtype_is_bool M' = dtype_is_bool M
  /\ forall r, row_nnz M' r = row_nnz M r.
Proof.
  intros Hs. unfold generate_degree_based_control.
  change (String.eqb "efferent" "efferent") with true. cbv iota.
  destruct M as [n nz | n nz]; cbn [size mean_axis0].
  - destruct (shuffle_lines _ _ _ _ _ nz (seq 0 n) g) as [e | out] eqn:Eo; [discriminate |].
    cbn [bind]. intros [= <- <-]. cbn [size dtype_is_bool]. repeat split.
    intros r. unfold row_nnz. rewrite !coords_bool.
    refine (shuffle_lines_preserves (nat * nat) fst (fun e i => (fst e, i))
              (fun _ _ => eq_refl) _ _ nz n g out r _ Eo).
    intros e He. now apply (in_shape_bool n nz Hs).
  - destruct (shuffle_lines _ _ _ _ _ nz (seq 0 n) g) as [e | out] eqn:Eo; [discriminate |].
    cbn [bind]. intros [= <- <-]. cbn [size dtype_is_bool]. repeat split.
    intros r. unfold row_nnz. rewrite !coords_int, !length_filter_map.
    refine (shuffle_lines_preserves (nat * nat * nat) (fun e => fst (fst e))
              (fun e i => (fst (fst e), i, snd e))
              (fun _ _ => eq_refl) _ _ nz n g out r _ Eo).
    intros e He. now apply (in_shape_int n nz Hs).
Qed.

Lemma degree_based_control_efferent_rows_witness :
  size (BoolMatrix 3 [(0, 2); (1, 2); (2, 1)]%nat) = size triangle3
  /\ dtype_is_bool (BoolMatrix 3 [(0, 2); (1, 2); (2, 1)]%nat) = dtype_is_bool triangle3
  /\ forall r, row_nnz (BoolMatrix 3 [(0, 2); (1, 2); (2, 1)]%nat) r = row_nnz triangle3 r.
Proof.
  apply (degree_based_control_efferent_rows triangle3 _ [1; 0; 0]%nat []).
  - reflexivity.
  - reflexivity.
Defined.

(** With direction efferent the number of entries of a column can change:
    a run on three nodes moves one entry from column 1 to column 2. *)
Lemma degree_based_control_efferent_columns_change :
  exists M' g',
    generate_degree_based_control triangle3 "efferent" [1; 0; 0]%nat = inr (M', g')
    /\ col_nnz triangle3 1 = 2%nat
    /\ col_nnz M' 1 = 1%nat
    /\ (forall r, row_nnz M' r = row_nnz triangle3 r).
Proof.
  eexists. eexists. split; [reflexivity |]. split; [reflexivity |]. split; [reflexivity |].
  intros [|[|[|r]]]; reflexivity.
Qed.

(** ** The normalized rich-club curve *)

Section NullModelFacts.

Variable hypergeom_stats : Z -> Z -> Z -> npfloat * npfloat.
Variable np_sqrt : npfloat -> npfloat.
Variable pd_concat : list (series Z npfloat) -> series Z (list npfloat).

(** No local or module-level name is [rr]. *)
Lemma load_name_rr (m : spmatrix) (direction : string) (n : nat)
    (res : series Z (list npfloat)) (last : option spmatrix) :
  load_name "rr"
    ([("m", PyMatrix m); ("direction", PyStr direction); ("n", PyInt (Z.of_nat n));
      ("res", PyFrame res); ("_", PyInt (Z.of_nat n - 1))]%string
     ++ match last with
        | Some m_shuf => [("m_shuf"%string, PyMatrix m_shuf)]
        | None => []
        end)
  = inl (NameError "rr").
Proof.
  destruct last; reflexivity.
Qed.

(** The empirical null curve is never returned: when the loop and the
    concatenation succeed, reading [rr] raises. *)
Lemma randomized_control_raises (m : spmatrix) (direction : string) (n : nat) (g : rng) :
  exists e,
    _randomized_control_rich_club_curve np_sqrt pd_concat m direction n g = inl e
    /\ (forall looped, randomized_curves m direction n g = inr looped ->
                       (0 < n)%nat -> e = NameError "rr").
Proof.
  unfold _randomized_control_rich_club_curve.
  destruct (randomized_curves m direction n g) as [e | looped] eqn:El.
  - exists e. split; [reflexivity | discriminate].
  - cbn [bind]. destruct (fst (fst looped)) as [|c res] eqn:Er.
    + eexists. split; [reflexivity |]. intros looped' [= <-] Hn.
      destruct n as [|n]; [lia |]. exfalso. cbn [randomized_curves] in El.
      destruct (generate_degree_based_control m direction g); [discriminate |].
      cbn [bind] in El. destruct (efficient_rich_club_curve _ _ _ _); [discriminate |].
      cbn [bind] in El. destruct (randomized_curves m direction n _); [discriminate |].
      cbn [bind] in El. injection El as <-. discriminate Er.
    + cbn [bind]. rewrite load_name_rr. cbn [bind]. eexists. split; reflexivity.
Qed.

End NullModelFacts.

(** C2.  With [normalize_with = "shuffled"] (the default) the function never
    returns a curve: whatever the matrix, the direction, the normalization
    and the random source, the call ends in an exception; on the four-node
    example the ten randomizations succeed and the exception is the
    [NameError] for [rr] in [_randomized_control_rich_club_curve]. *)
Theorem shuffled_normalization_raises :
  forall (hypergeom_stats : Z -> Z -> Z -> npfloat * npfloat)
         (np_sqrt : npfloat -> npfloat)
         (pd_concat : list (series Z npfloat) -> series Z (list npfloat))
         (NRN : Type) (m : spmatrix) (nrn : NRN) (direction normalize : string) (g : rng),
    (exists e, normalized_rich_club_curve hypergeom_stats np_sqrt pd_concat
                 m nrn direction normalize "shuffled" g = inl e)
    /\ normalized_rich_club_curve hypergeom_stats np_sqrt pd_concat
         example4 nrn "efferent" "std" "shuffled" [] = inl (NameError "rr")
    /\ normalized_rich_club_curve hypergeom_stats np_sqrt pd_concat
         example4 nrn "efferent" "mean" "shuffled" [] = inl (NameError "rr").
Proof.
  intros hs sq cc NRN m nrn direction normalize g. split; [| split; reflexivity].
  unfold normalized_rich_club_curve.
  destruct (negb (dtype_is_bool m)); [eexists; reflexivity |].
  destruct (rich_club_curve m nrn direction) as [e | data]; [eexists; reflexivity |].
  cbn [bind]. change (String.eqb "shuffled" "analytical") with false.
  change (String.eqb "shuffled" "shuffled") with true. cbv iota.
  destruct (randomized_control_raises sq cc m direction 10 g) as (e & -> & _).
  eexists. reflexivity.
Qed.

(** C9 (as the code has it).  An unsupported [normalize] or [normalize_with]
    always makes [normalized_rich_club_curve] fail, but neither argument is
    checked before the work starts: the dtype assertion and the observed
    curve come first, so an exception of [rich_club_curve] is the one that
    is reported; with the analytical null model the exception
    "Unknown normalization" is raised once both curves have been computed. *)
Theorem normalization_arguments_checked_late
    (hypergeom_stats : Z -> Z -> Z -> npfloat * npfloat)
    (np_sqrt : npfloat -> npfloat)
    (pd_concat : list (series Z npfloat) -> series Z (list npfloat))
    {NRN : Type} (m : spmatrix) (nrn : NRN)
    (direction normalize normalize_with : string) (g : rng) :
  (normalize <> "mean"%string /\ normalize <> "std"%string)
  \/ (normalize_with <> "analytical"%string /\ normalize_with <> "shuffled"%string) ->
  exists e,
    normalized_rich_club_curve hypergeom_stats np_sqrt pd_concat
      m nrn direction normalize normalize_with g = inl e
    /\ (dtype_is_bool m = true ->
        forall e', rich_club_curve m nrn direction = inl e' -> e = e')
    /\ (dtype_is_bool m = true -> normalize_with = "analytical"%string ->
        forall data ctrl,
          rich_club_curve m nrn direction = inr data ->
          _analytical_expected_rich_club_curve hypergeom_stats np_sqrt m direction = inr ctrl ->
          e = Exception (String.append "Unknown normalization: " normalize)).
Proof.
  intros Hbad. unfold normalized_rich_club_curve.
  destruct (dtype_is_bool m); cbn [negb].
  2:{ eexists. split; [reflexivity |]. split; discriminate. }
  destruct (rich_club_curve m nrn direction) as [e | data] eqn:Ed; cbn [bind].
  { exists e. split; [reflexivity |]. split.
    - now intros _ e' [= <-].
    - intros _ _ data ctrl Hdata. discriminate Hdata. }
  destruct (String.eqb_spec normalize_with "analytical") as [Ha | Ha].
  - destruct Hbad as [[Hm Hs] | [Hna _]]; [| contradiction].
    apply String.eqb_neq in Hm, Hs.
    destruct (_analytical_expected_rich_club_curve hypergeom_stats np_sqrt m direction)
      as [e | c] eqn:Ec; cbn [bind fst].
    + exists e. split; [reflexivity |]. split; [discriminate |].
      intros _ _ data' ctrl _ Hc. discriminate Hc.
    + rewrite Hm, Hs. eexists. split; [reflexivity |]. split; [discriminate |].
      reflexivity.
  - destruct (String.eqb_spec normalize_with "shuffled") as [Hsh | Hsh].
    + destruct (randomized_control_raises np_sqrt pd_concat m direction 10 g) as (e & -> & _).
      cbn [bind]. exists e. split; [reflexivity |]. split; [discriminate |].
      intros _ Hw. contradiction.
    + cbn [bind fst]. eexists. split; [reflexivity |]. split; [discriminate |].
      intros _ Hw. contradiction.
Qed.

Lemma normalization_arguments_checked_late_witness :
  exists e,
    normalized_rich_club_curve (fun _ _ _ => (NaN, NaN)) (fun x => x) (fun _ => [])
      example4 tt "efferent" "bogus" "analytical" [] = inl e
    /\ (dtype_is_bool example4 = true ->
        forall e', rich_club_curve example4 tt "efferent" = inl e' -> e = e')
    /\ (dtype_is_bool example4 = true -> "analytical"%string = "analytical"%string ->
        forall data ctrl,
          rich_club_curve example4 tt "efferent" = inr data ->
          _analytical_expected_rich_club_curve (fun _ _ _ => (NaN, NaN)) (fun x => x)
            example4 "efferent" = inr ctrl ->
          e = Exception (String.append "Unknown normalization: " "bogus")).
Proof.
  apply (normalization_arguments_checked_late
           (fun _ _ _ => (NaN, NaN)) (fun x => x) (fun _ => [])
           example4 tt "efferent" "bogus" "analytical" []).
  left. split; discriminate.
Defined.

(** An unsupported argument is not detected before the computation: with an
    unsupported [normalize] (or [normalize_with]) and an unsupported
    direction, the exception is the one [rich_club_curve] raises for the
    direction; with [normalize_with = "shuffled"] it comes out of the
    randomized control; an unsupported [normalize_with] alone ends in an
    unbound local variable after the observed curve was computed. *)
Lemma normalization_error_not_eager :
  (forall hs sq cc,
      normalized_rich_club_curve hs sq cc example4 tt "sideways" "bogus" "analytical" []
      = inl (unknown_direction "sideways"))
  /\ (forall hs sq cc,
         normalized_rich_club_curve hs sq cc example4 tt "sideways" "std" "bogus" []
         = inl (unknown_direction "sideways"))
  /\ (forall hs sq cc,
         normalized_rich_club_curve hs sq cc example4 tt "efferent" "bogus" "shuffled" []
         = inl (NameError "rr"))
  /\ (forall hs sq cc,
         normalized_rich_club_curve hs sq cc example4 tt "efferent" "std" "bogus" []
         = inl (UnboundLocalError "ctrl"))
  /\ (forall hs sq cc,
         normalized_rich_club_curve hs sq cc example4 tt "efferent" "bogus" "analytical" []
         = inl (Exception "Unknown normalization: bogus")).
Proof.
  repeat split.
Qed.

(** ** Binned connection probabilities *)

Lemma selected_nil_conn (adj_matrix : adjacency) (sel : list (nat * nat)) :
  Z.of_nat (length sel) = 0 ->
  zsum (map (fun st => adj_get adj_matrix (fst st) (snd st)) sel) = 0.
Proof.
  destruct sel; [reflexivity | simpl; lia].
Qed.

(** C8.  Whenever [extract_dependent_p_conn] returns, the probability of every
    bin combination whose total pair count is zero is exactly 0 (the 0/0 of
    the division is mapped to 0); no returned probability is NaN. *)
Theorem zero_pairs_give_probability_zero (adj_matrix : adjacency)
    (dep_matrices : list dense) (dep_bins : list (list npfloat))
    (p : list npfloat) (cc ca : list Z) :
  extract_dependent_p_conn adj_matrix dep_matrices dep_bins = inr (p, cc, ca) ->
  (forall i, nth_error ca i = Some 0 ->
             nth_error cc i = Some 0 /\ nth_error p i = Some (Fin 0))
  /\ Forall (fun x => isnan x = false) p.
Proof.
  unfold extract_dependent_p_conn.
  destruct (negb _); [discriminate |].
  destruct (negb _); [discriminate |].
  destruct (existsb _ _); [discriminate |].
  set (idxs := product _).
  intros [= <- <- <-]. split.
  - intros i Hi. rewrite zip_with_map_same, map_map.
    rewrite !nth_error_map in *.
    destruct (nth_error idxs i) as [idx|]; [| discriminate].
    cbn [option_map] in *. injection Hi as Hi.
    rewrite (selected_nil_conn adj_matrix _ Hi), Hi. split; reflexivity.
  - apply Forall_forall. intros x Hx. apply in_map_iff in Hx as (y & <- & _).
    unfold nan_to_zero. destruct y; reflexivity.
Qed.

Lemma zero_pairs_give_probability_zero_witness :
  (forall i, nth_error [0; 2; 4] i = Some 0 ->
             nth_error [0; 1; 2] i = Some 0
             /\ nth_error [Fin 0; Fin (1 # 2); Fin (1 # 2)] i = Some (Fin 0))
  /\ Forall (fun x => isnan x = false) [Fin 0; Fin (1 # 2); Fin (1 # 2)].
Proof.
  apply (zero_pairs_give_probability_zero adj3
           [compute_dist_matrix Q line_distance (map fst line3) (map fst line3)]
           [[Fin 0; Fin 1; Fin 2; Fin 3]]).
  reflexivity.
Defined.

(** ** The bipolar matrix *)

Lemma zip_with_map_l {A B C : Type} (f : B -> A -> C) (g : A -> B) (l : list A) :
  zip_with f (map g l) l = map (fun x => f (g x) x) l.
Proof.
  unfold zip_with. induction l as [|x l IH]; simpl; [reflexivity | now rewrite IH].
Qed.

Lemma compute_bip_matrix_rows (src tgt : list npfloat) :
  d_rows (compute_bip_matrix src tgt)
  = map (fun s => map (fun t => np_sign (opp (sub t s))) tgt) src.
Proof.
  unfold compute_bip_matrix, meshgrid_ij, diff_axis0. cbn [d_rows tl].
  unfold zip_with at 1. cbn [combine map fst snd nth].
  rewrite (zip_with_map_same (zip_with (fun l h => sub h l))
             (fun xi => map (fun _ => xi) tgt) (fun _ => tgt)).
  rewrite !map_map. apply map_ext. intros s.
  rewrite (zip_with_map_l (fun l h => sub h l) (fun _ => s)), !map_map. reflexivity.
Qed.

Lemma Qnum_sgn_compare (q a b : Q) :
  (q == a - b)%Q ->
  Z.sgn (Qnum q) = match (a ?= b)%Q with Lt => -1 | Eq => 0 | Gt => 1 end.
Proof.
  intros Hq.
  assert (Hs : forall x : Q, ((x < 0)%Q -> Z.sgn (Qnum x) = -1)
                         /\ ((x == 0)%Q -> Z.sgn (Qnum x) = 0)
                         /\ ((0 < x)%Q -> Z.sgn (Qnum x) = 1)).
  { intros [n d]. unfold Qlt, Qeq. cbn [Qnum Qden]. repeat split; intros H; lia. }
  destruct (Hs q) as (H1 & H2 & H3).
  destruct (Qcompare_spec a b) as [E | E | E].
  - apply H2. rewrite Hq, E. ring.
  - apply H1. rewrite Hq. lra.
  - apply H3. rewrite Hq. lra.
Qed.

Lemma np_sign_opp_sub (s t : npfloat) : np_sign (opp (sub t s)) = np_sign (sub s t).
Proof.
  destruct s as [| | |a], t as [| | |b]; try reflexivity.
  cbn [sub opp add np_sign]. unfold fin. cbn [opp np_sign]. unfold fin. cbn [np_sign].
  do 2 f_equal.
  rewrite (Qnum_sgn_compare _ a b), (Qnum_sgn_compare _ a b); [reflexivity | |].
  - rewrite !Qred_correct. reflexivity.
  - rewrite !Qred_correct. ring.
Qed.

Lemma np_sign_sub_compare (a b : Q) :
  np_sign (sub (Fin a) (Fin b))
  = match (a ?= b)%Q with Lt => Fin (-1) | Eq => Fin 0 | Gt => Fin 1 end.
Proof.
  cbn [sub opp add np_sign]. unfold fin. cbn [np_sign].
  rewrite (Qnum_sgn_compare _ a b) by (rewrite !Qred_correct; reflexivity).
  destruct (a ?= b)%Q; reflexivity.
Qed.

Lemma d_get_compute_bip_matrix (src tgt : list npfloat) (i j : nat) :
  (i < length src)%nat -> (j < length tgt)%nat ->
  d_get (compute_bip_matrix src tgt) i j = np_sign (sub (nth i src NaN) (nth j tgt NaN)).
Proof.
  intros Hi Hj. unfold d_get. rewrite compute_bip_matrix_rows.
  rewrite (nth_indep _ [] ((fun s => map (fun t => np_sign (opp (sub t s))) tgt) NaN))
    by (now rewrite length_map).
  rewrite (map_nth (fun s => map (fun t => np_sign (opp (sub t s))) tgt)).
  rewrite (nth_indep _ NaN ((fun t => np_sign (opp (sub t (nth i src NaN)))) NaN))
    by (now rewrite length_map).
  rewrite (map_nth (fun t => np_sign (opp (sub t (nth i src NaN))))).
  apply np_sign_opp_sub.
Qed.

(** The order of the values that are not [nan]. *)
Lemma leb_refl (x : npfloat) : isnan x = false -> leb x x = true.
Proof.
  destruct x; try reflexivity; [discriminate |]. intros _. cbn [leb].
  apply Qle_bool_iff. apply Qle_refl.
Qed.

Lemma leb_total (x y : npfloat) :
  isnan x = false -> isnan y = false -> leb x y = false -> leb y x = true.
Proof.
  destruct x, y; cbn [isnan leb]; try discriminate; try reflexivity.
  intros _ _ H. apply Qle_bool_iff.
  destruct (Qlt_le_dec q0 q) as [Hlt | Hle].
  - now apply Qlt_le_weak.
  - apply Qle_bool_iff in Hle. congruence.
Qed.

Lemma leb_trans (x y z : npfloat) : leb x y = true -> leb y z = true -> leb x z = true.
Proof.
  destruct x, y, z; cbn [leb]; try discriminate; try reflexivity.
  rewrite !Qle_bool_iff. apply Qle_trans.
Qed.

Lemma leb_not_nan (x y : npfloat) : leb x y = true -> isnan x = false /\ isnan y = false.
Proof.
  destruct x, y; cbn [leb]; try discriminate; split; reflexivity.
Qed.

Lemma fold_fmax_upper (l : list npfloat) (x : npfloat) :
  In x l -> isnan x = false -> leb x (fold_right fmax NaN l) = true.
Proof.
  induction l as [|y l IH]; intros Hin Hx; [contradiction |].
  cbn [fold_right]. set (R := fold_right fmax NaN l) in *.
  unfold fmax. destruct Hin as [-> | Hin].
  - rewrite Hx. destruct (isnan R) eqn:ER; [now apply leb_refl |].
    destruct (leb x R) eqn:E; [exact E | now apply leb_refl].
  - specialize (IH Hin Hx). destruct (leb_not_nan _ _ IH) as [_ HR].
    destruct (isnan y) eqn:Ey; [exact IH |]. rewrite HR.
    destruct (leb y R) eqn:E; [exact IH |].
    apply (leb_trans x R y IH). now apply leb_total.
Qed.

Section ThirdOrderBins.

Variable pos : Type.
Variable distance : pos -> pos -> npfloat.

(** The edges of the bipolar axis that [extract_3rd_order] returns. *)
Lemma extract_3rd_order_bip_bins (adj_matrix : adjacency) (nrn_table : list (pos * npfloat))
    (bin_size_um : Q) (max_range_um : option Q) (N_split : option nat) (r : extracted) :
  extract_3rd_order pos distance adj_matrix nrn_table bin_size_um max_range_um N_split = inr r ->
  bip_bins r = [Fin (-1); Fin 0; Fin 1]
  \/ exists lo hi,
       nanmax (concat (d_rows (compute_bip_matrix (map snd nrn_table) (map snd nrn_table))))
       = inr hi
       /\ bip_bins r = [lo; Fin 0; hi].
Proof.
  unfold extract_3rd_order.
  destruct (_ =? 0)%nat; [discriminate |].
  destruct (_ =? 1)%nat.
  - destruct (match max_range_um with Some _ => _ | None => _ end) as [e | ratio];
      [discriminate |]. cbn [bind].
    destruct (ceil_astype_int ratio) as [e | nb]; [discriminate |]. cbn [bind].
    destruct (nanmin _) as [e | lo]; [discriminate |]. cbn [bind].
    destruct (nanmax _) as [e | hi] eqn:Ehi; [discriminate |]. cbn [bind].
    destruct (extract_dependent_p_conn _ _ _) as [e | res]; [discriminate |]. cbn [bind].
    intros [= <-]. right. exists lo, hi. split; reflexivity.
  - destruct max_range_um as [mr|]; [| discriminate].
    destruct (python_div mr bin_size_um) as [e | ratio]; [discriminate |]. cbn [bind].
    destruct (ceil_astype_int ratio) as [e | nb]; [discriminate |]. cbn [bind].
    destruct (nb <? 0); [discriminate |].
    destruct (accumulate_3rd _ _ _ _ _ _ _ _ _ _) as [e | counts]; [discriminate |].
    cbn [bind]. intros [= <-]. left. reflexivity.
Qed.

(** C7 (as the code has it).  The entry (i, j) of [compute_bip_matrix] is the
    sign of (source depth of i - target depth of j): -1 when the target lies
    deeper, +1 when the source does, 0 for equal depths.  [extract_3rd_order]
    puts these signs in two bins: bin 0 holds -1 only, and a zero difference
    falls, like +1, in the last bin (closed on both ends); it has no bin of
    its own. *)
Theorem bipolar_sign_and_bins (adj_matrix : adjacency) (nrn_table : list (pos * npfloat))
    (bin_size_um : Q) (max_range_um : option Q) (N_split : option nat) (r : extracted)
    (src tgt : list npfloat) (i j : nat) :
  (i < length src)%nat -> (j < length tgt)%nat ->
  extract_3rd_order pos distance adj_matrix nrn_table bin_size_um max_range_um N_split = inr r ->
  d_get (compute_bip_matrix src tgt) i j = np_sign (sub (nth i src NaN) (nth j tgt NaN))
  /\ (forall a b, nth i src NaN = Fin a -> nth j tgt NaN = Fin b ->
        d_get (compute_bip_matrix src tgt) i j
        = match (a ?= b)%Q with Lt => Fin (-1) | Eq => Fin 0 | Gt => Fin 1 end)
  /\ length (bip_bins r) = 3%nat
  /\ in_bin (bip_bins r) 0 (Fin 0) = false
  /\ in_bin (bip_bins r) 0 (Fin 1) = false
  /\ (forall x, x = Fin 0 \/ x = Fin 1 ->
        In x (concat (d_rows (compute_bip_matrix (map snd nrn_table) (map snd nrn_table)))) ->
        in_bin (bip_bins r) 1 x = true).
Proof.
  intros Hi Hj Hr. split; [now apply d_get_compute_bip_matrix |]. split.
  { intros a b Ha Hb. rewrite d_get_compute_bip_matrix by assumption.
    rewrite Ha, Hb. apply np_sign_sub_compare. }
  destruct (extract_3rd_order_bip_bins _ _ _ _ _ _ Hr) as [-> | (lo & hi & Hhi & ->)].
  - repeat split. intros x [-> | ->] _; reflexivity.
  - split; [reflexivity |]. unfold in_bin. cbn [nth length Nat.add].
    change (Z.of_nat 0 <? Z.of_nat 3 - 1 - 1) with true.
    change (Z.of_nat 1 <? Z.of_nat 3 - 1 - 1) with false. cbv iota.
    split; [apply andb_false_r |]. split; [apply andb_false_r |].
    intros x Hx Hin.
    assert (Hnn : isnan x = false) by (destruct Hx as [-> | ->]; reflexivity).
    assert (Hge : geb x (Fin 0) = true) by (destruct Hx as [-> | ->]; reflexivity).
    rewrite Hge. cbn [andb].
    unfold nanmax in Hhi.
    destruct (concat _) as [|y l] eqn:El; [contradiction |].
    injection Hhi as <-. now apply (fold_fmax_upper (y :: l)).
Qed.

End ThirdOrderBins.

Lemma bipolar_sign_and_bins_witness :
  d_get (compute_bip_matrix [Fin 0] [Fin 1]) 0 0
  = np_sign (sub (nth 0%nat [Fin 0] NaN) (nth 0%nat [Fin 1] NaN))
  /\ (forall a b, nth 0%nat [Fin 0] NaN = Fin a -> nth 0%nat [Fin 1] NaN = Fin b ->
        d_get (compute_bip_matrix [Fin 0] [Fin 1]) 0 0
        = match (a ?= b)%Q with Lt => Fin (-1) | Eq => Fin 0 | Gt => Fin 1 end)
  /\ length [Fin (-1); Fin 0; Fin 1] = 3%nat
  /\ in_bin [Fin (-1); Fin 0; Fin 1] 0 (Fin 0) = false
  /\ in_bin [Fin (-1); Fin 0; Fin 1] 0 (Fin 1) = false
  /\ (forall x, x = Fin 0 \/ x = Fin 1 ->
        In x (concat (d_rows (compute_bip_matrix (map snd line3) (map snd line3)))) ->
        in_bin [Fin (-1); Fin 0; Fin 1] 1 x = true).
Proof.
  apply (bipolar_sign_and_bins Q line_distance adj3 line3 1 (Some 3%Q) None
           {| p_conn := [Fin 0; Fin 0; Fin 1; Fin 0; Fin 0; Fin (2 # 3)];
              count_conn := [0; 0; 1; 0; 0; 2];
              count_all := [0; 0; 1; 1; 1; 3];
              dist_bins := [Fin 0; Fin 1; Fin 2; Fin 3];
              bip_bins := [Fin (-1); Fin 0; Fin 1] |}
           [Fin 0] [Fin 1] 0 0).
  - simpl. lia.
  - simpl. lia.
  - reflexivity.
Defined.

(** The sign is the one of (source - target), the opposite of (target -
    source); and a zero difference shares its bin with the positive
    differences: on three cells at the depths 0, 5, 5 the bipolar axis has
    two bins, and the pairs of equal depth are counted in the second. *)
Lemma bipolar_sign_is_source_minus_target :
  d_get (compute_bip_matrix [Fin 0] [Fin 1]) 0 0 = Fin (-1)
  /\ np_sign (sub (Fin 1) (Fin 0)) = Fin 1
  /\ in_bin [Fin (-1); Fin 0; Fin 1] 1 (Fin 0) = true
  /\ in_bin [Fin (-1); Fin 0; Fin 1] 1 (Fin 1) = true
  /\ extract_3rd_order Q line_distance adj3 line3 1 (Some 3%Q) (Some 2%nat)
     = inr {| p_conn := [Fin 0; Fin 0; Fin 1; Fin 0; Fin 0; Fin (2 # 3)];
              count_conn := [0; 0; 1; 0; 0; 2];
              count_all := [0; 0; 1; 1; 1; 3];
              dist_bins := [Fin 0; Fin 1; Fin 2; Fin 3];
              bip_bins := [Fin (-1); Fin 0; Fin 1] |}.
Proof.
  repeat split.
Qed.

(** ** Splitting the extraction into chunks of rows *)

Lemma length_flat_map_sum {A B : Type} (f : A -> list B) (l : list A) :
  Z.of_nat (length (flat_map f l)) = zsum (map (fun x => Z.of_nat (length (f x))) l).
Proof.
  induction l as [|x l IH]; [reflexivity |].
  cbn [flat_map map zsum fold_right]. fold (zsum (map (fun x => Z.of_nat (length (f x))) l)).
  rewrite length_app, Nat2Z.inj_add, IH. reflexivity.
Qed.

Lemma zsum_flat_map {A B : Type} (g : B -> Z) (f : A -> list B) (l : list A) :
  zsum (map g (flat_map f l)) = zsum (map (fun x => zsum (map g (f x))) l).
Proof.
  induction l as [|x l IH]; [reflexivity |].
  cbn [flat_map map zsum fold_right]. fold (zsum (map (fun x => zsum (map g (f x))) l)).
  rewrite map_app, zsum_app, IH. reflexivity.
Qed.

Lemma zsum_map_concat {A : Type} (F : A -> Z) (ls : list (list A)) :
  zsum (map F (concat ls)) = zsum (map (fun l => zsum (map F l)) ls).
Proof.
  induction ls as [|l ls IH]; [reflexivity |].
  cbn [concat map zsum fold_right]. fold (zsum (map (fun l => zsum (map F l)) ls)).
  rewrite map_app, zsum_app, IH. reflexivity.
Qed.

Lemma map_nth_seq {A : Type} (F : nat -> A) (sel : list nat) :
  map (fun k => F (nth k sel O)) (seq 0 (length sel)) = map F sel.
Proof.
  induction sel as [|s sel IH]; [reflexivity |].
  cbn [length seq map nth]. rewrite <- seq_shift, map_map. cbn [nth]. now rewrite IH.
Qed.

Lemma zip_with_add_assoc (a b c : list Z) :
  zip_with Z.add (zip_with Z.add a b) c = zip_with Z.add a (zip_with Z.add b c).
Proof.
  unfold zip_with. revert b c. induction a as [|x a IH]; intros [|y b] [|z c]; try reflexivity.
  cbn [combine map fst snd]. rewrite IH. f_equal. lia.
Qed.

Lemma zip_with_add_map {A : Type} (f g : A -> Z) (l : list A) :
  zip_with Z.add (map f l) (map g l) = map (fun x => f x + g x) l.
Proof. apply zip_with_map_same. Qed.

Lemma zip_with_add_zeros (l : list Z) :
  zip_with Z.add (repeat 0 (length l)) l = l.
Proof.
  unfold zip_with. induction l as [|x l IH]; [reflexivity |].
  cbn [length repeat combine map fst snd]. now rewrite IH.
Qed.

Lemma nth_map_error {A B : Type} (f : A -> B) (l : list A) (k : nat) (d : B) :
  nth k (map f l) d = match nth_error l k with Some x => f x | None => d end.
Proof.
  revert k. induction l as [|x l IH]; intros [|k]; try reflexivity. apply IH.
Qed.

Lemma length_take_rows {A : Type} (table : list A) (sel : list nat) :
  Forall (fun s => (s < length table)%nat) sel -> length (take_rows table sel) = length sel.
Proof.
  induction 1 as [|s sel Hs Hsel IH]; [reflexivity |].
  unfold take_rows in *. cbn [flat_map]. rewrite length_app, IH.
  destruct (nth_error table s) eqn:E; [reflexivity |].
  apply nth_error_None in E. lia.
Qed.

Lemma nth_error_take_rows {A : Type} (table : list A) (sel : list nat) (k : nat) :
  Forall (fun s => (s < length table)%nat) sel -> (k < length sel)%nat ->
  nth_error (take_rows table sel) k = nth_error table (nth k sel O).
Proof.
  intros H. revert k. induction H as [|s sel Hs Hsel IH]; intros k Hk; [simpl in Hk; lia |].
  unfold take_rows in *. cbn [flat_map].
  destruct (nth_error table s) as [x|] eqn:E; [| apply nth_error_None in E; lia].
  destruct k as [|k]; [now cbn |]. cbn [app nth_error nth]. apply IH. cbn [length] in Hk. lia.
Qed.

Lemma concat_np_split_from {A : Type} (ary : list A) (points : list nat) (start : nat) :
  ascending_from start points ->
  concat (np_split_from start ary points) = skipn start ary.
Proof.
  revert start. induction points as [|p points IH]; intros start H.
  - cbn. apply app_nil_r.
  - destruct H as [Hp H]. cbn [np_split_from concat]. rewrite (IH p H).
    replace (skipn p ary) with (skipn (p - start) (skipn start ary)).
    + apply firstn_skipn.
    + rewrite skipn_skipn. f_equal. lia.
Qed.

Lemma ascending_multiples (chunk a len start : nat) :
  (start <= a * chunk)%nat ->
  ascending_from start (map (fun j => (j * chunk)%nat) (seq a len)).
Proof.
  revert a start. induction len as [|len IH]; intros a start H; [exact I |].
  cbn [seq map ascending_from]. split; [exact H |]. apply IH. nia.
Qed.

Lemma concat_split_indices (N N_split : nat) : concat (split_indices N N_split) = seq 0 N.
Proof.
  unfold split_indices, np_split. rewrite concat_np_split_from; [reflexivity |].
  apply ascending_multiples. lia.
Qed.

Section ChunkedExtraction.

Variable pos : Type.
Variable distance : pos -> pos -> npfloat.
Variable adj_matrix : adjacency.
Variable pos_table : list pos.
Variable bins : list npfloat.

Let N : nat := length pos_table.

Hypothesis adj_square : adj_shape adj_matrix = (N, N).
Hypothesis bins_nonempty : (1 <= length bins)%nat.

Let full : dense := compute_dist_matrix pos distance pos_table pos_table.
Let idxs : list (list nat) := product [seq 0 (Z.to_nat (Z.of_nat (length bins) - 1))].

(** The pairs of row [s] in the bin [idx], and the connected ones among
    them. *)
Let row_all (idx : list nat) (s : nat) : Z :=
  Z.of_nat (length (filter (dep_sel [full] [bins] idx s) (seq 0 N))).
Let row_conn (idx : list nat) (s : nat) : Z :=
  zsum (map (adj_get adj_matrix s) (filter (dep_sel [full] [bins] idx s) (seq 0 N))).

Lemma selected_counts (a : adjacency) (d : dense) (idx : list nat) :
  Z.of_nat (length (selected (adj_shape a) [d] [bins] idx))
  = zsum (map (fun s => Z.of_nat (length (filter (dep_sel [d] [bins] idx s)
                                                 (seq 0 (snd (adj_shape a))))))
              (seq 0 (fst (adj_shape a))))
  /\ zsum (map (fun st => adj_get a (fst st) (snd st)) (selected (adj_shape a) [d] [bins] idx))
     = zsum (map (fun s => zsum (map (adj_get a s)
                                     (filter (dep_sel [d] [bins] idx s)
                                             (seq 0 (snd (adj_shape a))))))
                 (seq 0 (fst (adj_shape a)))).
Proof.
  unfold selected. split.
  - rewrite length_flat_map_sum. f_equal. apply map_ext. intros s. now rewrite length_map.
  - rewrite zsum_flat_map. f_equal. apply map_ext. intros s. now rewrite map_map.
Qed.

Lemma extract_full :
  exists p,
    extract_dependent_p_conn adj_matrix [full] [bins]
    = inr (p, map (fun idx => zsum (map (row_conn idx) (seq 0 N))) idxs,
              map (fun idx => zsum (map (row_all idx) (seq 0 N))) idxs).
Proof.
  unfold extract_dependent_p_conn.
  cbn [length Nat.eqb negb forallb map existsb d_shape full compute_dist_matrix fst snd].
  fold N. rewrite adj_square. cbn [fst snd]. rewrite !Nat.eqb_refl. cbn [andb negb orb].
  destruct (Z.ltb_spec (Z.of_nat (length bins) - 1) 0) as [H | H]; [lia |].
  eexists. apply f_equal. apply f_equal2; [apply (f_equal (pair _)) |];
    apply map_ext; intros idx.
  - pose proof (selected_counts adj_matrix full idx) as [_ Hc].
    rewrite adj_square in Hc. exact Hc.
  - pose proof (selected_counts adj_matrix full idx) as [Ha _].
    rewrite adj_square in Ha. exact Ha.
Qed.

Lemma d_get_split (sel : list nat) (k t : nat) :
  Forall (fun s => (s < N)%nat) sel -> (k < length sel)%nat ->
  d_get (compute_dist_matrix pos distance (take_rows pos_table sel) pos_table) k t
  = d_get full (nth k sel O) t.
Proof.
  intros Hsel Hk. unfold d_get, full, compute_dist_matrix. cbn [d_rows].
  rewrite !nth_map_error, (nth_error_take_rows pos_table sel k Hsel Hk). reflexivity.
Qed.

Lemma dep_sel_split (sel : list nat) (idx : list nat) (k t : nat) :
  Forall (fun s => (s < N)%nat) sel -> (k < length sel)%nat ->
  dep_sel [compute_dist_matrix pos distance (take_rows pos_table sel) pos_table] [bins] idx k t
  = dep_sel [full] [bins] idx (nth k sel O) t.
Proof.
  intros Hsel Hk. unfold dep_sel. destruct idx as [|i idx]; [reflexivity |].
  cbn [combine forallb fst snd]. now rewrite d_get_split.
Qed.

Lemma extract_split (sel : list nat) :
  Forall (fun s => (s < N)%nat) sel ->
  exists adj_split p,
    adj_rows adj_matrix sel = inr adj_split
    /\ extract_dependent_p_conn adj_split
         [compute_dist_matrix pos distance (take_rows pos_table sel) pos_table] [bins]
       = inr (p, map (fun idx => zsum (map (row_conn idx) sel)) idxs,
                 map (fun idx => zsum (map (row_all idx) sel)) idxs).
Proof.
  intros Hsel. unfold adj_rows. rewrite adj_square. cbn [fst snd].
  assert (Hex : existsb (fun s => (N <=? s)%nat) sel = false).
  { apply not_true_is_false. intros H. apply existsb_exists in H as (s & Hs & Hle).
    rewrite Forall_forall in Hsel. specialize (Hsel s Hs). apply Nat.leb_le in Hle. lia. }
  rewrite Hex. eexists. eexists. split; [reflexivity |].
  unfold extract_dependent_p_conn.
  cbn [length Nat.eqb negb forallb map existsb d_shape compute_dist_matrix fst snd adj_shape].
  rewrite (length_take_rows pos_table sel Hsel). fold N.
  rewrite !Nat.eqb_refl. cbn [andb negb orb].
  destruct (Z.ltb_spec (Z.of_nat (length bins) - 1) 0) as [H | H]; [lia |].
  apply f_equal. apply f_equal2; [apply (f_equal (pair _)) |];
    apply map_ext; intros idx; cbn [adj_get].
  - match goal with |- zsum (map _ (selected ?sh _ _ _)) = _ =>
      pose proof (selected_counts
                    {| adj_shape := sh;
                       adj_get := fun k t => adj_get adj_matrix (nth k sel O) t |}
                    (compute_dist_matrix pos distance (take_rows pos_table sel) pos_table) idx)
        as [_ Hc] end.
    cbn [adj_shape adj_get fst snd] in Hc. rewrite Hc.
    rewrite <- (map_nth_seq (row_conn idx) sel). f_equal.
    apply map_ext_in. intros k Hk. apply in_seq in Hk. unfold row_conn. f_equal. f_equal.
    apply filter_ext. intros t. apply dep_sel_split; [exact Hsel | lia].
  - match goal with |- Z.of_nat (length (selected ?sh _ _ _)) = _ =>
      pose proof (selected_counts
                    {| adj_shape := sh;
                       adj_get := fun k t => adj_get adj_matrix (nth k sel O) t |}
                    (compute_dist_matrix pos distance (take_rows pos_table sel) pos_table) idx)
        as [Ha _] end.
    cbn [adj_shape adj_get fst snd] in Ha. rewrite Ha.
    rewrite <- (map_nth_seq (row_all idx) sel). f_equal.
    apply map_ext_in. intros k Hk. apply in_seq in Hk. unfold row_all. do 2 f_equal.
    apply filter_ext. intros t. apply dep_sel_split; [exact Hsel | lia].
Qed.

Lemma zip_with_add_zero_r (l : list Z) :
  length l = length idxs -> zip_with Z.add l (map (fun _ : list nat => 0) idxs) = l.
Proof.
  unfold zip_with. generalize idxs as ix. intros ix. revert l.
  induction ix as [|i ix IHix]; intros [|x l] H; try discriminate; [reflexivity |].
  cbn [map combine fst snd]. rewrite IHix by (now injection H). f_equal. lia.
Qed.

Lemma accumulate_2nd_spec (splits : list (list nat)) (cc ca : list Z) :
  Forall (Forall (fun s => (s < N)%nat)) splits ->
  length cc = length idxs -> length ca = length idxs ->
  accumulate_2nd pos distance adj_matrix pos_table bins splits cc ca
  = inr (zip_with Z.add cc (map (fun idx => zsum (map (row_conn idx) (concat splits))) idxs),
         zip_with Z.add ca (map (fun idx => zsum (map (row_all idx) (concat splits))) idxs)).
Proof.
  intros H. revert cc ca. induction H as [|sel splits Hsel Hsplits IH]; intros cc ca Hcc Hca.
  - cbn [accumulate_2nd concat map zsum fold_right].
    now rewrite !zip_with_add_zero_r.
  - cbn [accumulate_2nd].
    destruct (extract_split sel Hsel) as (adj_split & p & Ha & He).
    rewrite Ha. cbn [bind]. rewrite He. cbn [bind fst snd].
    rewrite IH by (rewrite length_zip_with; rewrite ?length_map; congruence).
    rewrite !zip_with_add_assoc, !zip_with_add_map. cbn [concat].
    f_equal. f_equal; f_equal; apply map_ext; intros idx; now rewrite map_app, zsum_app.
Qed.

(** The counts of the chunked run are those of the run on all rows. *)
Lemma chunked_counts (N_split : nat) (p : list npfloat) (cc ca : list Z) :
  extract_dependent_p_conn adj_matrix [full] [bins] = inr (p, cc, ca) ->
  accumulate_2nd pos distance adj_matrix pos_table bins (split_indices N N_split)
    (repeat 0 (length idxs)) (repeat 0 (length idxs))
  = inr (cc, ca).
Proof.
  intros Hfull. destruct extract_full as (p' & Hp'). rewrite Hp' in Hfull.
  injection Hfull as _ <- <-.
  pose proof (concat_split_indices N N_split) as Hcat.
  rewrite accumulate_2nd_spec.
  - rewrite Hcat.
    rewrite <- (length_map (fun idx => zsum (map (row_conn idx) (seq 0 N))) idxs) at 1.
    rewrite <- (length_map (fun idx => zsum (map (row_all idx) (seq 0 N))) idxs) at 1.
    now rewrite !zip_with_add_zeros.
  - apply Forall_forall. intros sel Hsel. apply Forall_forall. intros s Hs.
    assert (Hin : In s (concat (split_indices N N_split))).
    { apply in_concat. exists sel. now split. }
    rewrite Hcat in Hin. apply in_seq in Hin. lia.
  - apply repeat_length.
  - apply repeat_length.
Qed.

End ChunkedExtraction.

Lemma extract_p_conn_of_counts (adj_matrix : adjacency) (dep_matrices : list dense)
    (dep_bins : list (list npfloat)) (p : list npfloat) (cc ca : list Z) :
  extract_dependent_p_conn adj_matrix dep_matrices dep_bins = inr (p, cc, ca) ->
  p = map nan_to_zero (zip_with true_divide cc ca).
Proof.
  unfold extract_dependent_p_conn.
  destruct (negb _); [discriminate |].
  destruct (negb _); [discriminate |].
  destruct (existsb _ _); [discriminate |].
  now intros [= <- <- <-].
Qed.

Lemma extract_checks (adj_matrix : adjacency) (d : dense) (bins : list npfloat)
    (res : list npfloat * list Z * list Z) :
  extract_dependent_p_conn adj_matrix [d] [bins] = inr res ->
  adj_shape adj_matrix = d_shape d /\ (1 <= length bins)%nat.
Proof.
  unfold extract_dependent_p_conn.
  cbn [length Nat.eqb negb forallb map existsb].
  destruct (Nat.eqb_spec (fst (d_shape d)) (fst (adj_shape adj_matrix))) as [E1 | E1];
    [| discriminate].
  destruct (Nat.eqb_spec (snd (d_shape d)) (snd (adj_shape adj_matrix))) as [E2 | E2];
    [| discriminate].
  cbn [andb negb orb].
  destruct (Z.ltb_spec (Z.of_nat (length bins) - 1) 0) as [H | H]; [discriminate |].
  intros _. split; [| lia].
  destruct (adj_shape adj_matrix), (d_shape d). cbn [fst snd] in *. congruence.
Qed.

Lemma length_product_one (l : list nat) : length (product [l]) = length l.
Proof.
  cbn [product]. induction l as [|x l IH]; [reflexivity |].
  cbn [flat_map map app length] in *. now rewrite IH.
Qed.

Lemma length_bin_edges (num_bins : Z) (bin_size_um : Q) :
  length (bin_edges num_bins bin_size_um) = Z.to_nat (num_bins + 1).
Proof.
  unfold bin_edges, arange. rewrite !length_map, length_seq. f_equal. lia.
Qed.

(** C6.  For every adjacency matrix, neuron table, bin size and maximal range:
    whenever the extraction on all rows at once ([N_split = 1]) returns, the
    extraction split into any number [N_split > 1] of row chunks returns the
    same bin edges, the same connection counts, the same total-pair counts
    and hence the same probabilities. *)
Theorem chunked_extraction_agrees (pos : Type) (distance : pos -> pos -> npfloat)
    (adj_matrix : adjacency) (nrn_table : list (pos * npfloat))
    (bin_size_um max_range_um : Q) (N_split : nat) (r : extracted) :
  (1 < N_split)%nat ->
  extract_2nd_order pos distance adj_matrix nrn_table bin_size_um (Some max_range_um) (Some 1%nat)
  = inr r ->
  extract_2nd_order pos distance adj_matrix nrn_table bin_size_um (Some max_range_um)
    (Some N_split)
  = inr r.
Proof.
  intros Hk. unfold extract_2nd_order.
  change (1 =? 0)%nat with false. change (1 =? 1)%nat with true. cbv iota. cbn [bind].
  destruct (Nat.eqb_spec N_split 0) as [E0 | _]; [lia |].
  destruct (Nat.eqb_spec N_split 1) as [E1 | _]; [lia |].
  destruct (python_div max_range_um bin_size_um) as [e | ratio]; [discriminate |].
  cbn [bind].
  destruct (ceil_astype_int ratio) as [e | nb]; [discriminate |].
  cbn [bind].
  destruct (extract_dependent_p_conn adj_matrix _ _) as [e | [[p cc] ca]] eqn:Efull;
    [discriminate |].
  cbn [bind fst snd]. intros [= <-].
  destruct (extract_checks _ _ _ _ Efull) as [Hshape Hbins].
  cbn [compute_dist_matrix d_shape] in Hshape.
  rewrite length_bin_edges in Hbins.
  destruct (Z.ltb_spec nb 0) as [Hneg | Hnn]; [lia |].
  pose proof (chunked_counts pos distance adj_matrix (map fst nrn_table)
                (bin_edges nb bin_size_um) Hshape) as Hch.
  cbv zeta in Hch. rewrite length_bin_edges in Hch.
  specialize (Hch ltac:(lia) N_split p cc ca Efull).
  rewrite length_product_one, length_seq, length_map in Hch.
  replace (Z.to_nat (Z.of_nat (Z.to_nat (nb + 1)) - 1)) with (Z.to_nat nb) in Hch by lia.
  rewrite Hch. cbn [bind fst snd].
  now rewrite (extract_p_conn_of_counts _ _ _ _ _ _ Efull).
Qed.

Lemma chunked_extraction_agrees_witness :
  extract_2nd_order Q line_distance adj3 line3 1 (Some 3%Q) (Some 2%nat)
  = inr {| p_conn := [Fin 0; Fin (1 # 2); Fin (1 # 2)];
           count_conn := [0; 1; 2];
           count_all := [0; 2; 4];
           dist_bins := [Fin 0; Fin 1; Fin 2; Fin 3];
           bip_bins := [] |}.
Proof.
  apply (chunked_extraction_agrees Q line_distance adj3 line3 1 3 2).
  - lia.
  - reflexivity.
Defined.

(** * Further properties of the code *)

(** ** Lists *)

Lemma filter_all {A : Type} (p : A -> bool) (l : list A) :
  (forall x, In x l -> p x = true) -> filter p l = l.
Proof.
  induction l as [|a l IH]; intros H; [reflexivity |].
  cbn [filter]. rewrite (H a (or_introl eq_refl)). f_equal.
  apply IH. intros x Hx. apply H. now right.
Qed.

Lemma nth_error_combine {A B : Type} (l1 : list A) (l2 : list B) (i : nat) (x : A) (y : B) :
  nth_error (combine l1 l2) i = Some (x, y) ->
  nth_error l1 i = Some x /\ nth_error l2 i = Some y.
Proof.
  revert l2 i. induction l1 as [|a l1 IH]; intros [|b l2] [|i]; cbn; try discriminate.
  - intros [= <- <-]. now split.
  - apply IH.
Qed.

Lemma nth_error_map_seq {A : Type} (f : nat -> A) (n i : nat) (x : A) :
  nth_error (map f (seq 0 n)) i = Some x -> (i < n)%nat /\ x = f i.
Proof.
  intros H. assert (Hi : (i < n)%nat).
  { assert (H' : nth_error (map f (seq 0 n)) i <> None) by congruence.
    apply nth_error_Some in H'. now rewrite length_map, length_seq in H'. }
  split; [exact Hi |].
  rewrite nth_error_map, nth_error_seq in H.
  destruct (i <? n)%nat eqn:E; [| apply Nat.ltb_ge in E; lia].
  cbn in H. now injection H as <-.
Qed.

(** ** Arguments that are not accepted *)

Lemma eqb_neq_false (a b : string) : a <> b -> String.eqb a b = false.
Proof. intros H. now apply String.eqb_neq. Qed.

(** X1.  A direction other than "afferent" and "efferent" is rejected
    by every function that takes one: [gini_curve], [gini_coefficient],
    [normalized_gini_coefficient], [rich_club_curve] and, on a boolean matrix,
    [_analytical_expected_rich_club_curve] raise the exception "Unknown value
    for argument direction"; [generate_degree_based_control] raises
    [ValueError], and so does [efficient_rich_club_curve] unless the direction
    is "both".  [_analytical_expected_gini_curve] has no such check and fails
    on its unbound local [C]; [normalized_gini_coefficient] never gets there,
    since [gini_coefficient] is called first. *)
Theorem unknown_direction_raises
    (binom_pmf : Z -> Z -> npfloat -> npfloat)
    (hypergeom_stats : Z -> Z -> Z -> npfloat * npfloat)
    (np_sqrt : npfloat -> npfloat)
    {NRN : Type} (m : spmatrix) (nrn : NRN) (direction : string)
    (sparse_bin_set : bool) (g : rng) :
  direction <> "afferent"%string -> direction <> "efferent"%string ->
  gini_curve m nrn direction = inl (unknown_direction direction)
  /\ gini_coefficient m nrn direction = inl (unknown_direction direction)
  /\ normalized_gini_coefficient binom_pmf m nrn direction = inl (unknown_direction direction)
  /\ _analytical_expected_gini_curve binom_pmf m direction = inl (UnboundLocalError "C")
  /\ rich_club_curve m nrn direction = inl (unknown_direction direction)
  /\ (dtype_is_bool m = true ->
      _analytical_expected_rich_club_curve hypergeom_stats np_sqrt m direction
      = inl (unknown_direction direction))
  /\ generate_degree_based_control m direction g = inl (ValueError "")
  /\ (direction <> "both"%string ->
      efficient_rich_club_curve m direction None sparse_bin_set = inl (ValueError "")).
Proof.
  intros Ha He. apply eqb_neq_false in Ha, He.
  assert (Hg : gini_curve m nrn direction = inl (unknown_direction direction)).
  { unfold gini_curve. now rewrite Ha, He. }
  assert (Hc : gini_coefficient m nrn direction = inl (unknown_direction direction)).
  { unfold gini_coefficient. now rewrite Hg. }
  repeat split.
  - exact Hg.
  - exact Hc.
  - unfold normalized_gini_coefficient. now rewrite Hc.
  - unfold _analytical_expected_gini_curve. now rewrite Ha, He.
  - unfold rich_club_curve. now rewrite Ha, He.
  - intros Hb. unfold _analytical_expected_rich_club_curve. now rewrite Hb, Ha, He.
  - unfold generate_degree_based_control. now rewrite Ha, He.
  - intros Hboth. apply eqb_neq_false in Hboth.
    unfold efficient_rich_club_curve. now rewrite He, Ha, Hboth.
Qed.

Lemma unknown_direction_raises_witness :
  gini_curve example4 tt "both" = inl (unknown_direction "both")
  /\ gini_coefficient example4 tt "both" = inl (unknown_direction "both")
  /\ normalized_gini_coefficient (fun _ _ _ => NaN) example4 tt "both"
     = inl (unknown_direction "both")
  /\ _analytical_expected_gini_curve (fun _ _ _ => NaN) example4 "both"
     = inl (UnboundLocalError "C")
  /\ rich_club_curve example4 tt "both" = inl (unknown_direction "both")
  /\ (dtype_is_bool example4 = true ->
      _analytical_expected_rich_club_curve (fun _ _ _ => (NaN, NaN)) (fun x => x) example4 "both"
      = inl (unknown_direction "both"))
  /\ generate_degree_based_control example4 "both" [] = inl (ValueError "")
  /\ ("both"%string <> "both"%string ->
      efficient_rich_club_curve example4 "both" None false = inl (ValueError "")).
Proof.
  apply (unknown_direction_raises (fun _ _ _ => NaN) (fun _ _ _ => (NaN, NaN)) (fun x => x)
           example4 tt "both" false []); discriminate.
Defined.

(** ** The normalized Gini coefficient needs two nodes *)

(** X2.  [normalized_gini_coefficient] divides the number of stored
    entries by [n * (n - 1)]: on a matrix of at most one node the Gini
    coefficient itself is computed, and then the null model raises
    [ZeroDivisionError]; from two nodes on the function returns a value. *)
Theorem normalized_gini_needs_two_nodes
    (binom_pmf : Z -> Z -> npfloat -> npfloat)
    {NRN : Type} (m : spmatrix) (nrn : NRN) (direction : string) :
  direction = "afferent"%string \/ direction = "efferent"%string ->
  ((size m <= 1)%nat ->
   (exists v, gini_coefficient m nrn direction = inr v)
   /\ normalized_gini_coefficient binom_pmf m nrn direction = inl ZeroDivisionError)
  /\ ((2 <= size m)%nat ->
      exists v, normalized_gini_coefficient binom_pmf m nrn direction = inr v).
Proof.
  intros Hd.
  destruct (gini_coefficient_unfold m nrn direction Hd) as [_ Hcoef].
  assert (HC : forall (P : Prop),
             (_analytical_expected_gini_curve binom_pmf m direction
              = (if Z.of_nat (size m) * (Z.of_nat (size m) - 1) =? 0
                 then inl ZeroDivisionError
                 else _analytical_expected_gini_curve binom_pmf m direction) -> P) -> P).
  { intros P HP. apply HP.
    destruct (Z.of_nat (size m) * (Z.of_nat (size m) - 1) =? 0) eqn:E; [| reflexivity].
    unfold _analytical_expected_gini_curve.
    destruct Hd as [-> | ->]; cbn [String.eqb Ascii.eqb Bool.eqb bind fst snd]; now rewrite E. }
  split.
  - intros Hn. split; [eexists; exact Hcoef |].
    unfold normalized_gini_coefficient. rewrite Hcoef. cbn [bind].
    apply HC. intros ->.
    replace (Z.of_nat (size m) * (Z.of_nat (size m) - 1) =? 0) with true; [reflexivity |].
    symmetry. apply Z.eqb_eq. nia.
  - intros Hn. unfold normalized_gini_coefficient. rewrite Hcoef. cbn [bind].
    unfold _analytical_expected_gini_curve.
    assert (E : (Z.of_nat (size m) * (Z.of_nat (size m) - 1) =? 0) = false).
    { apply Z.eqb_neq. nia. }
    destruct Hd as [-> | ->]; cbn [String.eqb Ascii.eqb Bool.eqb bind fst snd];
      rewrite E; cbn [bind]; eexists; reflexivity.
Qed.

Lemma normalized_gini_needs_two_nodes_witness :
  ((size (BoolMatrix 1 [(0, 0)]%nat) <= 1)%nat ->
   (exists v, gini_coefficient (BoolMatrix 1 [(0, 0)]%nat) tt "efferent" = inr v)
   /\ normalized_gini_coefficient (fun _ _ _ => NaN) (BoolMatrix 1 [(0, 0)]%nat) tt "efferent"
      = inl ZeroDivisionError)
  /\ ((2 <= size (BoolMatrix 1 [(0, 0)]%nat))%nat ->
      exists v, normalized_gini_coefficient (fun _ _ _ => NaN)
                  (BoolMatrix 1 [(0, 0)]%nat) tt "efferent" = inr v).
Proof.
  apply (normalized_gini_needs_two_nodes (fun _ _ _ => NaN) (BoolMatrix 1 [(0, 0)]%nat) tt
           "efferent"). right. reflexivity.
Defined.

(** ** The Gini curve, point by point *)

Lemma nth_error_linspace (a b : Q) (n i : nat) (x : Q) :
  nth_error (linspace a b n) i = Some x ->
  (i < n)%nat
  /\ ((2 <= n)%nat -> x = (a + Qnat i * ((b - a) / Qnat (n - 1)))%Q)
  /\ (n = 1%nat -> x = a).
Proof.
  destruct n as [|[|n]]; cbn [linspace].
  - destruct i; discriminate.
  - destruct i as [|[|i]]; cbn; try discriminate. intros [= <-].
    split; [lia |]. split; [lia | reflexivity].
  - intros H. apply nth_error_map_seq in H as [Hi ->].
    split; [exact Hi |]. split; [| lia]. intros _.
    replace (S (S n) - 1)%nat with (S n) by lia. reflexivity.
Qed.

Lemma zsum_firstn_mono (L : list Z) (i j : nat) :
  Forall (fun d => 0 <= d) L -> (i <= j)%nat -> zsum (firstn i L) <= zsum (firstn j L).
Proof.
  intros HL. revert i j. induction HL as [|x L Hx HL IH]; intros i j Hij.
  - rewrite !firstn_nil. lia.
  - destruct i as [|i]; destruct j as [|j]; cbn [firstn zsum fold_right]; try lia.
    + pose proof (zsum_firstn_bounds L j HL). unfold zsum in *. lia.
    + specialize (IH i j). unfold zsum in *. lia.
Qed.

Lemma Qdiv_Z_cross (k n a t : Z) :
  0 < n -> 0 < t -> k * t <= a * n ->
  (inject_Z k / inject_Z n <= inject_Z a / inject_Z t)%Q.
Proof.
  intros Hn Ht H.
  assert (Hn' : (0 < inject_Z n)%Q) by (unfold Qlt; simpl; lia).
  assert (Ht' : (0 < inject_Z t)%Q) by (unfold Qlt; simpl; lia).
  apply Qle_shift_div_l; [exact Ht' |].
  setoid_replace (inject_Z k / inject_Z n * inject_Z t)%Q
    with ((inject_Z k * inject_Z t) / inject_Z n)%Q
    by (field; intros E; rewrite E in Hn'; lra).
  apply Qle_shift_div_r; [exact Hn' |].
  rewrite <- !inject_Z_mult, <- Zle_Qle. exact H.
Qed.

Lemma Qdiv_Z_le (a b t : Z) :
  0 < t -> a <= b -> (inject_Z a / inject_Z t <= inject_Z b / inject_Z t)%Q.
Proof.
  intros Ht Hab. apply Qdiv_Z_cross; [exact Ht | exact Ht | nia].
Qed.

(** The points of the curve, read off [gini_curve]. *)
Lemma gini_curve_points {NRN : Type} (m : spmatrix) (nrn : NRN) (direction : string) :
  direction = "afferent"%string \/ direction = "efferent"%string ->
  exists gc,
    gini_curve m nrn direction = inr gc
    /\ length gc = size m
    /\ forall i x v, nth_error gc i = Some (x, v) ->
         (i < size m)%nat
         /\ nth_error (linspace 0 1 (size m)) i = Some x
         /\ v = true_divide (zsum (firstn (S i) (gini_order m direction)))
                            (zsum (degree_vector m direction)).
Proof.
  intros Hd.
  destruct (gini_coefficient_unfold m nrn direction Hd) as [Hcurve _].
  destruct (gini_order_facts m direction) as (Hlen & _ & _).
  eexists. split; [exact Hcurve |]. rewrite Hlen. split.
  - rewrite length_combine, length_linspace, length_map, length_cumsum, Hlen. lia.
  - intros i x v H. apply nth_error_combine in H as [Hx Hv].
    rewrite cumsum_seq, map_map, Hlen in Hv.
    apply nth_error_map_seq in Hv as [Hi ->]. now repeat split.
Qed.

(** X3.  For a matrix with at least one unit of degree, [gini_curve]
    returns one point per node; the index runs evenly from 0 to 1, every value
    is a share between 0 and 1, the shares never decrease along the curve and
    the last one is 1. *)
Theorem gini_curve_cumulative_shares {NRN : Type} (m : spmatrix) (nrn : NRN)
    (direction : string) :
  direction = "afferent"%string \/ direction = "efferent"%string ->
  0 < zsum (degree_vector m direction) ->
  exists gc,
    gini_curve m nrn direction = inr gc
    /\ length gc = size m
    /\ (forall i x v, nth_error gc i = Some (x, v) ->
          ((2 <= size m)%nat -> (x * Qnat (size m - 1) == Qnat i)%Q)
          /\ exists q, v = Fin q /\ (0 <= q <= 1)%Q /\ (S i = size m -> (q == 1)%Q))
    /\ (forall i j xi xj qi qj, (i <= j)%nat ->
          nth_error gc i = Some (xi, Fin qi) -> nth_error gc j = Some (xj, Fin qj) ->
          (qi <= qj)%Q).
Proof.
  intros Hd Hpos.
  destruct (gini_curve_points m nrn direction Hd) as (gc & Hgc & Hlen & Hpts).
  destruct (gini_order_facts m direction) as (HlenL & Hnn & Hsum).
  set (L := gini_order m direction) in *.
  set (total := zsum (degree_vector m direction)) in *.
  exists gc. split; [exact Hgc |]. split; [exact Hlen |]. split.
  - intros i x v H. destruct (Hpts i x v H) as (Hi & Hx & ->). split.
    + intros Hn. apply nth_error_linspace in Hx as (_ & Hx & _). rewrite (Hx Hn).
      assert (Hp : (0 < Qnat (size m - 1))%Q).
      { replace (size m - 1)%nat with (S (size m - 2)) by lia. apply Qnat_pos. }
      field. intros E. rewrite E in Hp. lra.
    + pose proof (represents_true_divide (zsum (firstn (S i) L)) total ltac:(lia)) as Hr.
      apply represents_ex in Hr as (q & Hq & Eq). exists q. split; [exact Hq |].
      pose proof (zsum_firstn_bounds L (S i) Hnn) as Hb. rewrite Hsum in Hb.
      split.
      * rewrite Eq. apply Qdiv_Z_bounds; lia.
      * intros Hlast. rewrite Eq. rewrite firstn_all2 by lia. rewrite Hsum.
        field. intros E. assert (Ht : (0 < inject_Z total)%Q).
        { unfold Qlt. simpl. lia. }
        rewrite E in Ht. lra.
  - intros i j xi xj qi qj Hij Hi Hj.
    destruct (Hpts i xi _ Hi) as (_ & _ & Ei). destruct (Hpts j xj _ Hj) as (_ & _ & Ej).
    pose proof (represents_true_divide (zsum (firstn (S i) L)) total ltac:(lia)) as Ri.
    pose proof (represents_true_divide (zsum (firstn (S j) L)) total ltac:(lia)) as Rj.
    rewrite <- Ei in Ri. rewrite <- Ej in Rj. cbn [represents] in Ri, Rj.
    rewrite Ri, Rj. apply Qdiv_Z_le; [exact Hpos |].
    apply zsum_firstn_mono; [exact Hnn | lia].
Qed.

Lemma gini_curve_cumulative_shares_witness :
  exists gc,
    gini_curve triangle3 tt "afferent" = inr gc
    /\ length gc = size triangle3
    /\ (forall i x v, nth_error gc i = Some (x, v) ->
          ((2 <= size triangle3)%nat -> (x * Qnat (size triangle3 - 1) == Qnat i)%Q)
          /\ exists q, v = Fin q /\ (0 <= q <= 1)%Q /\ (S i = size triangle3 -> (q == 1)%Q))
    /\ (forall i j xi xj qi qj, (i <= j)%nat ->
          nth_error gc i = Some (xi, Fin qi) -> nth_error gc j = Some (xj, Fin qj) ->
          (qi <= qj)%Q).
Proof.
  apply (gini_curve_cumulative_shares triangle3 tt "afferent").
  - left. reflexivity.
  - vm_compute. reflexivity.
Defined.

(** ** The afferent curve lies on or above the diagonal *)

Lemma nondecreasing_insert_sorted (x : Z) (l : list Z) :
  nondecreasing l -> nondecreasing (insert_sorted x l).
Proof.
  induction l as [|y l IH]; intros Hl; [exact I |].
  cbn [insert_sorted]. destruct (Z.leb_spec x y) as [H | H]; [split; [lia | exact Hl] |].
  apply nondecreasing_cons.
  - intros z Hz. assert (Hin : In z (x :: l)).
    { clear - Hz. induction l as [|w l IH]; cbn [insert_sorted] in Hz.
      - destruct Hz as [<- | []]. now left.
      - destruct (x <=? w).
        + destruct Hz as [<- | Hz]; [now left | now right].
        + destruct Hz as [<- | Hz]; [right; now left |].
          destruct (IH Hz) as [<- | Hl]; [now left | right; now right]. }
    destruct Hin as [<- | Hin]; [lia |].
    now apply (nondecreasing_head_le y l Hl).
  - apply IH. now apply nondecreasing_tail in Hl.
Qed.

Lemma nondecreasing_sort_ascending (l : list Z) : nondecreasing (sort_ascending l).
Proof.
  unfold sort_ascending. induction l as [|x l IH]; [exact I |].
  cbn [fold_right]. now apply nondecreasing_insert_sorted.
Qed.

Lemma zsum_upper (l : list Z) (x : Z) :
  (forall y, In y l -> y <= x) -> zsum l <= Z.of_nat (length l) * x.
Proof.
  induction l as [|a l IH]; intros H; [cbn; lia |].
  cbn [zsum fold_right length]. specialize (IH (fun y Hy => H y (or_intror Hy))).
  specialize (H a (or_introl eq_refl)). unfold zsum in IH. lia.
Qed.

Lemma zsum_lower (l : list Z) (x : Z) :
  (forall y, In y l -> x <= y) -> Z.of_nat (length l) * x <= zsum l.
Proof.
  induction l as [|a l IH]; intros H; [cbn; lia |].
  cbn [zsum fold_right length]. specialize (IH (fun y Hy => H y (or_intror Hy))).
  specialize (H a (or_introl eq_refl)). unfold zsum in IH. lia.
Qed.

(** In ascending order, the last elements have at least the average. *)
Lemma ascending_suffix_average (A : list Z) (j : nat) :
  nondecreasing A -> (j <= length A)%nat ->
  Z.of_nat (length A - j) * zsum A <= Z.of_nat (length A) * zsum (skipn j A).
Proof.
  intros HA Hj.
  assert (Hsplit : zsum A = zsum (firstn j A) + zsum (skipn j A)).
  { now rewrite <- zsum_app, firstn_skipn. }
  assert (Hpivot : exists x, (forall y, In y (firstn j A) -> y <= x)
                             /\ (forall y, In y (skipn j A) -> x <= y)).
  { clear Hsplit. revert j Hj. induction A as [|a A IH]; intros j Hj.
    - exists 0. rewrite firstn_nil, skipn_nil. split; intros y [].
    - destruct j as [|j].
      + exists a. cbn [firstn skipn]. split; [intros y [] |].
        intros y [<- | Hy]; [lia |]. now apply (nondecreasing_head_le a A HA).
      + cbn [length] in Hj.
        destruct (IH (nondecreasing_tail a A HA) j ltac:(lia)) as (x & H1 & H2).
        destruct (skipn j A) as [|b rest] eqn:Es.
        * exists (Z.max a x). cbn [firstn skipn]. rewrite Es. split; [| intros y []].
          intros y [<- | Hy]; [lia |]. specialize (H1 y Hy). lia.
        * exists b. cbn [firstn skipn]. rewrite Es. split.
          -- assert (Hb : In b A).
             { rewrite <- (firstn_skipn j A), Es. apply in_or_app. right. now left. }
             intros y [<- | Hy]; [now apply (nondecreasing_head_le a A HA) |].
             specialize (H1 y Hy). specialize (H2 b (or_introl eq_refl)). lia.
          -- intros y Hy. destruct Hy as [<- | Hy]; [lia |].
             assert (Hnd : nondecreasing (b :: rest)).
             { clear - HA Es. apply nondecreasing_tail in HA. revert A HA Es.
               induction j as [|j IHj]; intros A HA Es.
               - cbn in Es. now subst A.
               - destruct A as [|c A]; [discriminate |]. cbn [skipn] in Es.
                 apply (IHj A); [now apply nondecreasing_tail in HA | exact Es]. }
             now apply (nondecreasing_head_le b rest Hnd). }
  destruct Hpivot as (x & H1 & H2).
  apply zsum_upper in H1. apply zsum_lower in H2.
  rewrite length_firstn in H1. rewrite length_skipn in H2.
  replace (Nat.min j (length A)) with j in H1 by lia.
  rewrite Hsplit. nia.
Qed.

(** X4.  With direction afferent the in-degrees are accumulated from
    the largest down, so the curve lies on or above the diagonal: the [i+1]
    nodes of largest in-degree hold at least the share [(i+1)/N] of the total
    in-degree. *)
Theorem afferent_gini_curve_above_diagonal {NRN : Type} (m : spmatrix) (nrn : NRN) :
  0 < zsum (sum_axis0 m) ->
  exists gc,
    gini_curve m nrn "afferent" = inr gc
    /\ forall i x v, nth_error gc i = Some (x, v) ->
         exists q, v = Fin q /\ (Qnat (S i) / Qnat (size m) <= q)%Q.
Proof.
  intros Hpos.
  destruct (gini_curve_points m nrn "afferent" (or_introl eq_refl)) as (gc & Hgc & Hlen & Hpts).
  exists gc. split; [exact Hgc |]. intros i x v H.
  destruct (Hpts i x v H) as (Hi & _ & ->).
  change (degree_vector m "afferent") with (sum_axis0 m).
  change (gini_order m "afferent") with (rev (sort_ascending (sum_axis0 m))).
  set (A := sort_ascending (sum_axis0 m)).
  assert (HlenA : length A = size m).
  { unfold A, sum_axis0. now rewrite length_sort_ascending, length_map, length_seq. }
  pose proof (represents_true_divide (zsum (firstn (S i) (rev A))) (zsum (sum_axis0 m))
                ltac:(lia)) as Hr.
  apply represents_ex in Hr as (q & Hq & Eq). exists q. split; [exact Hq |].
  rewrite Eq. unfold Qnat. apply Qdiv_Z_cross; [lia | exact Hpos |].
  rewrite firstn_rev, zsum_rev, HlenA.
  pose proof (ascending_suffix_average A (size m - S i)
                (nondecreasing_sort_ascending _) ltac:(lia)) as Havg.
  rewrite HlenA in Havg. unfold A in Havg at 1. rewrite zsum_sort_ascending in Havg.
  replace (size m - (size m - S i))%nat with (S i) in Havg by lia. lia.
Qed.

Lemma afferent_gini_curve_above_diagonal_witness :
  exists gc,
    gini_curve triangle3 tt "afferent" = inr gc
    /\ forall i x v, nth_error gc i = Some (x, v) ->
         exists q, v = Fin q /\ (Qnat (S i) / Qnat (size triangle3) <= q)%Q.
Proof.
  apply (afferent_gini_curve_above_diagonal triangle3 tt). vm_compute. reflexivity.
Defined.

(** ** The rich-club curve of a simple graph is a density *)

Lemma nodup_coords_NoDup (l : list (nat * nat)) : nodup_coords l = true -> NoDup l.
Proof.
  induction l as [|[r c] l IH]; intros H; [constructor |].
  cbn [nodup_coords fst snd] in H. apply andb_prop in H as [H1 H2].
  constructor; [| now apply IH].
  intros Hin. apply negb_true_iff in H1.
  assert (Hex : existsb (fun rc' => (r =? fst rc')%nat && (c =? snd rc')%nat) l = true).
  { apply existsb_exists. exists (r, c). split; [exact Hin |].
    cbn [fst snd]. now rewrite !Nat.eqb_refl. }
  congruence.
Qed.

Lemma In_distinct_pairs (S : list nat) (r c : nat) :
  In r S -> In c S -> r <> c -> In (r, c) (distinct_pairs S).
Proof.
  intros Hr Hc Hne. unfold distinct_pairs. apply in_flat_map. exists r.
  split; [exact Hr |]. apply in_map. apply filter_In. split; [exact Hc |].
  apply negb_true_iff, Nat.eqb_neq. congruence.
Qed.

Lemma length_filter_others (S : list nat) (r : nat) :
  NoDup S -> In r S -> length (filter (fun c => negb (c =? r)%nat) S) = pred (length S).
Proof.
  induction 1 as [|a S Ha HS IH]; intros Hr; [contradiction |].
  cbn [filter length pred]. destruct (Nat.eqb_spec a r) as [-> | Hne]; cbn [negb].
  - rewrite filter_all; [reflexivity |].
    intros x Hx. apply negb_true_iff, Nat.eqb_neq. intros ->. contradiction.
  - destruct Hr as [-> | Hr]; [congruence |]. cbn [length]. rewrite (IH Hr).
    destruct S; [contradiction | reflexivity].
Qed.

Lemma length_flat_map_const {A B : Type} (f : A -> list B) (k : nat) (l : list A) :
  (forall x, In x l -> length (f x) = k) -> length (flat_map f l) = (length l * k)%nat.
Proof.
  induction l as [|a l IH]; intros H; [reflexivity |].
  cbn [flat_map length]. rewrite length_app, (H a (or_introl eq_refl)), IH; [lia |].
  intros x Hx. apply H. now right.
Qed.

Lemma length_distinct_pairs (S : list nat) :
  NoDup S -> length (distinct_pairs S) = (length S * pred (length S))%nat.
Proof.
  intros HS. unfold distinct_pairs. apply length_flat_map_const.
  intros r Hr. rewrite length_map. now apply length_filter_others.
Qed.

Lemma true_divide_density (e c : Z) :
  0 <= e <= c * (c - 1) ->
  true_divide e (c * (c - 1)) = NaN
  \/ exists q, true_divide e (c * (c - 1)) = Fin q /\ (0 <= q <= 1)%Q.
Proof.
  intros H. destruct (Z.eq_dec (c * (c - 1)) 0) as [E | E].
  - left. rewrite E in *. replace e with 0 by lia. reflexivity.
  - right. pose proof (represents_true_divide e (c * (c - 1)) E) as Hr.
    apply represents_ex in Hr as (q & Hq & Eq). exists q. split; [exact Hq |].
    rewrite Eq. apply Qdiv_Z_bounds; lia.
Qed.

(** X7.  On a canonical boolean matrix without self-loops every value
    of [rich_club_curve] is a density: a number between 0 and 1, or [nan] where
    fewer than two nodes reach the threshold. *)
Theorem rich_club_curve_is_density {NRN : Type} (n : nat) (nz : list (nat * nat)) (nrn : NRN)
    (direction : string) (c : series Q npfloat) :
  direction = "afferent"%string \/ direction = "efferent"%string ->
  canonical (BoolMatrix n nz) = true ->
  forallb (fun rc => negb (fst rc =? snd rc)%nat) nz = true ->
  rich_club_curve (BoolMatrix n nz) nrn direction = inr c ->
  Forall (fun v => v = NaN \/ exists q, v = Fin q /\ (0 <= q <= 1)%Q) (values c).
Proof.
  intros Hd Hcan Hloop Hc. apply Forall_forall. intros v Hin.
  apply in_map_iff in Hin as ([x v'] & Hv & Hin). cbn [snd] in Hv. subst v'.
  rewrite (rich_club_curve_bool n nz nrn direction Hd) in Hc.
  unfold naive_curve in Hc. cbv zeta in Hc.
  set (sel := direction_end direction) in *.
  set (D := fun r => Z.of_nat (count_occ Nat.eq_dec (map sel nz) r)) in *.
  destruct (zmax (map D (seq 0 n))) as [mx|]; [| discriminate].
  injection Hc as <-. apply in_map_iff in Hin as (k & [= <- <-] & _).
  unfold naive_value. apply true_divide_density.
  rewrite sum_ix_bool, count_ge_map. rewrite map_map.
  set (S := filter (fun r => k <=? D r) (seq 0 n)).
  set (club := filter _ nz).
  assert (HS : NoDup S) by (apply NoDup_filter, seq_NoDup).
  assert (Hclub : NoDup club).
  { apply NoDup_filter. unfold canonical in Hcan. apply andb_prop in Hcan as [_ Hnd].
    rewrite coords_bool in Hnd. now apply nodup_coords_NoDup. }
  assert (Hmask : forall r, nth r (map (fun x0 => k <=? D x0) (seq 0 n)) false = true -> In r S).
  { intros r Hr. destruct (Nat.lt_ge_cases r n) as [Hlt | Hge].
    - rewrite nth_map_error, nth_error_seq in Hr.
      destruct (r <? n)%nat eqn:E; [| apply Nat.ltb_ge in E; lia]. cbn in Hr.
      apply filter_In. split; [apply in_seq; lia | exact Hr].
    - rewrite nth_overflow in Hr; [discriminate |]. now rewrite length_map, length_seq. }
  assert (Hincl : incl club (distinct_pairs S)).
  { intros [r t] Hrt. apply filter_In in Hrt as [Hnz Hrt]. cbn [fst snd] in Hrt.
    apply andb_prop in Hrt as [H1 H2].
    rewrite forallb_forall in Hloop. specialize (Hloop (r, t) Hnz). cbn [fst snd] in Hloop.
    apply negb_true_iff, Nat.eqb_neq in Hloop.
    apply In_distinct_pairs; auto. }
  pose proof (NoDup_incl_length Hclub Hincl) as Hle.
  rewrite (length_distinct_pairs S HS) in Hle.
  split; [lia |]. destruct (length S); [lia |]. cbn [pred] in Hle. nia.
Qed.

Lemma rich_club_curve_is_density_witness :
  Forall (fun v => v = NaN \/ exists q, v = Fin q /\ (0 <= q <= 1)%Q)
         (values [(1%Q, Fin (1 # 2)); (2%Q, NaN)]).
Proof.
  apply (rich_club_curve_is_density 4 [(0, 1); (0, 2); (1, 2); (2, 3)]%nat tt "efferent");
    [right; reflexivity | reflexivity | reflexivity | reflexivity].
Defined.

(** ** Binned degrees of a weighted matrix *)

Lemma zmin_le (l : list Z) (mn : Z) :
  zmin l = Some mn -> forall v, In v l -> mn <= v.
Proof.
  destruct l as [|x l]; [discriminate |]. intros [= <-].
  induction l as [|y l IH]; intros v Hv.
  - destruct Hv as [<- | []]. simpl. lia.
  - cbn [fold_right]. destruct Hv as [Hv | [Hv | Hv]].
    + specialize (IH v (or_introl Hv)). lia.
    + subst y. lia.
    + specialize (IH v (or_intror Hv)). lia.
Qed.

Lemma filter_length_pos {A : Type} (p : A -> bool) (l : list A) (x : A) :
  In x l -> p x = true -> (1 <= length (filter p l))%nat.
Proof.
  intros Hin Hp. assert (H : In x (filter p l)) by (apply filter_In; now split).
  destruct (filter p l); [contradiction | cbn; lia].
Qed.

Lemma filter_length_lt {A : Type} (p : A -> bool) (l : list A) (x : A) :
  In x l -> p x = false -> (length (filter p l) < length l)%nat.
Proof.
  induction l as [|a l IH]; intros Hin Hp; [contradiction |].
  cbn [filter length]. destruct Hin as [-> | Hin].
  - rewrite Hp. pose proof (filter_length_le p l). lia.
  - specialize (IH Hin Hp). destruct (p a); cbn [length]; lia.
Qed.

Lemma degree_nbins_pos (len : nat) : (1 <= len)%nat -> 1 <= degree_nbins len.
Proof. unfold degree_nbins. lia. Qed.

Section BinEdges.

Variable mn mx : Z.
Variable N : nat.

Let stop : Q := (inject_Z mx + (1 # 1000000) * (inject_Z mx - inject_Z mn))%Q.
Let edge (j : nat) : Q := (inject_Z mn + Qnat j * ((stop - inject_Z mn) / Qnat (S N)))%Q.

Lemma linspace_edges :
  linspace (inject_Z mn) stop (S (S N)) = map edge (seq 0 (S (S N))).
Proof. reflexivity. Qed.

Lemma edge_first : (edge 0 == inject_Z mn)%Q.
Proof. unfold edge, Qnat. cbn [Z.of_nat]. ring. Qed.

Lemma edge_last : (edge (S N) == stop)%Q.
Proof.
  unfold edge. pose proof (Qnat_pos N) as Hp. field.
  intros E. rewrite E in Hp. lra.
Qed.

Lemma digitize_range (d : Z) :
  mn <= d <= mx -> mn < mx ->
  0 <= digitize (inject_Z d) (linspace (inject_Z mn) stop (S (S N))) - 1 <= Z.of_nat (S N) - 1.
Proof.
  intros Hd Hlt. rewrite linspace_edges. unfold digitize. rewrite length_filter_map.
  assert (Hmn : (inject_Z mn <= inject_Z d)%Q) by (rewrite <- Zle_Qle; lia).
  assert (Hmx : (inject_Z d <= inject_Z mx)%Q) by (rewrite <- Zle_Qle; lia).
  assert (Hgap : (inject_Z mn < inject_Z mx)%Q) by (rewrite <- Zlt_Qlt; lia).
  pose proof (filter_length_pos (fun x => Qle_bool (edge x) (inject_Z d)) (seq 0 (S (S N))) O)
    as Hlo.
  pose proof (filter_length_lt (fun x => Qle_bool (edge x) (inject_Z d)) (seq 0 (S (S N))) (S N))
    as Hhi.
  rewrite length_seq in Hhi.
  assert (H0 : Qle_bool (edge 0) (inject_Z d) = true).
  { apply Qle_bool_iff. rewrite edge_first. exact Hmn. }
  assert (HN : Qle_bool (edge (S N)) (inject_Z d) = false).
  { apply not_true_is_false. intros H. apply Qle_bool_iff in H. rewrite edge_last in H.
    unfold stop in H. lra. }
  specialize (Hlo ltac:(apply in_seq; lia) H0).
  specialize (Hhi ltac:(apply in_seq; lia) HN). lia.
Qed.

Lemma digitize_flat (d : Z) :
  mn = mx -> d = mn ->
  digitize (inject_Z d) (linspace (inject_Z mn) stop (S (S N))) - 1 = Z.of_nat (S N).
Proof.
  intros E ->. rewrite linspace_edges. unfold digitize. rewrite length_filter_map.
  rewrite filter_all.
  - rewrite length_seq. lia.
  - intros j _. apply Qle_bool_iff. unfold edge, stop. subst mx.
    setoid_replace (inject_Z mn + (1 # 1000000) * (inject_Z mn - inject_Z mn) - inject_Z mn)%Q
      with 0%Q by ring.
    unfold Qdiv. rewrite Qmult_0_l, Qmult_0_r, Qplus_0_r. apply Qle_refl.
Qed.

End BinEdges.

Lemma zmin_le_zmax (l : list Z) (mx mn : Z) :
  zmax l = Some mx -> zmin l = Some mn -> mn <= mx.
Proof.
  intros Hx Hn. pose proof (zmax_In l mx Hx) as Hin.
  now apply (zmin_le l mn Hn).
Qed.

Lemma bin_degrees_unfold (degrees : list Z) (mx mn : Z) :
  zmax degrees = Some mx -> zmin degrees = Some mn ->
  _bin_degrees degrees
  = let bins := linspace (inject_Z mn)
                  (inject_Z mx + (1 # 1000000) * (inject_Z mx - inject_Z mn))%Q
                  (S (S (Z.to_nat (degree_nbins (length degrees)) - 1))) in
    inr (zip_with (fun lo hi => (1 # 2) * (lo + hi))%Q (removelast bins) (tl bins),
         arange 0 (degree_nbins (length degrees)),
         map (fun d => digitize (inject_Z d) bins - 1) degrees).
Proof.
  intros Hx Hn. unfold _bin_degrees. cbv zeta. rewrite Hx, Hn.
  fold (degree_nbins (length degrees)).
  assert (Hlen : (1 <= length degrees)%nat).
  { destruct degrees; [discriminate | cbn; lia]. }
  pose proof (degree_nbins_pos _ Hlen).
  replace (Z.to_nat (degree_nbins (length degrees) + 1))
    with (S (S (Z.to_nat (degree_nbins (length degrees)) - 1))) by lia.
  reflexivity.
Qed.

(** X5.  [_bin_degrees] on a non-empty degree array uses
    [max(len/10, min(len, 30))] bins, returns that many bin centres and the
    thresholds [0 .. nbins-1], and one binned degree per node.  When the
    degrees differ, every binned degree is one of the thresholds; when all
    degrees are equal, every node gets the binned degree [nbins], above all
    thresholds. *)
Theorem bin_degrees_range (degrees : list Z) :
  degrees <> [] ->
  exists ret_x binned mx mn,
    _bin_degrees degrees = inr (ret_x, arange 0 (degree_nbins (length degrees)), binned)
    /\ zmax degrees = Some mx /\ zmin degrees = Some mn
    /\ 1 <= degree_nbins (length degrees)
    /\ length ret_x = Z.to_nat (degree_nbins (length degrees))
    /\ length binned = length degrees
    /\ (mn < mx -> Forall (fun b => 0 <= b <= degree_nbins (length degrees) - 1) binned)
    /\ (mn = mx -> Forall (fun b => b = degree_nbins (length degrees)) binned).
Proof.
  intros Hne.
  destruct (zmax degrees) as [mx|] eqn:Hx; [| destruct degrees; [congruence | discriminate]].
  destruct (zmin degrees) as [mn|] eqn:Hn; [| destruct degrees; [congruence | discriminate]].
  assert (Hlen : (1 <= length degrees)%nat).
  { destruct degrees; [congruence | cbn; lia]. }
  pose proof (degree_nbins_pos _ Hlen) as Hnb.
  set (N := (Z.to_nat (degree_nbins (length degrees)) - 1)%nat).
  assert (HN : Z.of_nat (S N) = degree_nbins (length degrees)) by lia.
  do 2 eexists. exists mx, mn.
  split; [rewrite (bin_degrees_unfold degrees mx mn Hx Hn); cbv zeta; reflexivity |].
  split; [reflexivity |]. split; [reflexivity |]. split; [exact Hnb |]. fold N.
  split.
  { rewrite length_zip_with.
    - rewrite removelast_firstn_len, length_firstn, length_linspace. lia.
    - rewrite removelast_firstn_len, length_firstn, length_tl, length_linspace. lia. }
  split; [apply length_map |].
  split.
  - intros Hlt. apply Forall_forall. intros b Hb. apply in_map_iff in Hb as (d & <- & Hd).
    rewrite <- HN. apply digitize_range; [| exact Hlt].
    split; [now apply (zmin_le degrees mn Hn) | now apply (zmax_ge degrees mx Hx)].
  - intros E. apply Forall_forall. intros b Hb. apply in_map_iff in Hb as (d & <- & Hd).
    rewrite <- HN. apply digitize_flat; [exact E |].
    pose proof (zmin_le degrees mn Hn d Hd). pose proof (zmax_ge degrees mx Hx d Hd). lia.
Qed.

Lemma bin_degrees_range_witness :
  exists ret_x binned mx mn,
    _bin_degrees [3; 1; 2] = inr (ret_x, arange 0 (degree_nbins (length [3; 1; 2])), binned)
    /\ zmax [3; 1; 2] = Some mx /\ zmin [3; 1; 2] = Some mn
    /\ 1 <= degree_nbins (length [3; 1; 2])
    /\ length ret_x = Z.to_nat (degree_nbins (length [3; 1; 2]))
    /\ length binned = length [3; 1; 2]
    /\ (mn < mx -> Forall (fun b => 0 <= b <= degree_nbins (length [3; 1; 2]) - 1) binned)
    /\ (mn = mx -> Forall (fun b => b = degree_nbins (length [3; 1; 2])) binned).
Proof.
  apply (bin_degrees_range [3; 1; 2]). discriminate.
Defined.

(** ** A weighted matrix whose nodes all have the same degree *)

Lemma zsum_map_zero {A : Type} (l : list A) : zsum (map (fun _ => 0) l) = 0.
Proof. induction l as [|a l IH]; [reflexivity | cbn [map zsum fold_right]; exact IH]. Qed.

Lemma zsum_map_add {A : Type} (f g : A -> Z) (l : list A) :
  zsum (map (fun x => f x + g x) l) = zsum (map f l) + zsum (map g l).
Proof.
  induction l as [|a l IH]; [reflexivity |].
  unfold zsum in *. cbn [map fold_right]. lia.
Qed.

Lemma zsum_indicator (k n : nat) (v : Z) :
  (k < n)%nat -> zsum (map (fun r => if (k =? r)%nat then v else 0) (seq 0 n)) = v.
Proof.
  induction n as [|n IH]; intros Hk; [lia |].
  rewrite seq_S, map_app, zsum_app. cbn [map zsum fold_right Nat.add].
  destruct (Nat.eqb_spec k n) as [-> | Hne].
  - rewrite (map_ext_in _ (fun _ => 0)); [rewrite zsum_map_zero; lia |].
    intros r Hr. apply in_seq in Hr. destruct (Nat.eqb_spec n r); [lia | reflexivity].
  - rewrite IH by lia. lia.
Qed.

(** Every entry of a list is counted under exactly one key. *)
Lemma zsum_by_key {E : Type} (key : E -> nat) (val : E -> Z) (l : list E) (n : nat) :
  (forall e, In e l -> (key e < n)%nat) ->
  zsum (map (fun r => zsum (map val (filter (fun e => (key e =? r)%nat) l))) (seq 0 n))
  = zsum (map val l).
Proof.
  induction l as [|e l IH]; intros H.
  - cbn [filter map]. apply zsum_map_zero.
  - cbn [map]. change (zsum (val e :: map val l)) with (val e + zsum (map val l)).
    rewrite <- IH by (intros x Hx; apply H; now right).
    rewrite <- (zsum_indicator (key e) n (val e)) by (apply H; now left).
    rewrite <- zsum_map_add. f_equal. apply map_ext. intros r.
    cbn [filter]. destruct (key e =? r)%nat; reflexivity.
Qed.

Lemma in_shape_cells (m : spmatrix) :
  in_shape m = true ->
  forall e, In e (cells m) -> (cell_row e < size m)%nat /\ (cell_col e < size m)%nat.
Proof.
  unfold in_shape, coords. rewrite forallb_forall. intros H e He.
  specialize (H (fst e) (in_map fst _ _ He)). apply andb_prop in H as [H1 H2].
  apply Nat.ltb_lt in H1, H2. now split.
Qed.

(** The degrees of either direction add up to the total weight. *)
Lemma zsum_degree_vector (m : spmatrix) (direction : string) :
  in_shape m = true ->
  zsum (degree_vector m direction) = zsum (map cell_val (cells m)).
Proof.
  intros Hs. pose proof (in_shape_cells m Hs) as Hc.
  unfold degree_vector. destruct (String.eqb direction "afferent").
  - unfold sum_axis0. apply zsum_by_key. intros e He. now apply Hc.
  - unfold sum_axis1. apply zsum_by_key. intros e He. now apply Hc.
Qed.

Lemma sum_ix_all (m : spmatrix) :
  in_shape m = true ->
  sum_ix m (repeat true (size m)) = zsum (map cell_val (cells m)).
Proof.
  intros Hs. pose proof (in_shape_cells m Hs) as Hc. unfold sum_ix.
  rewrite filter_all; [reflexivity |].
  intros e He. destruct (Hc e He) as [H1 H2].
  now rewrite !nth_repeat_lt.
Qed.

Lemma zmax_repeat (c : Z) (n : nat) : zmax (repeat c (S n)) = Some c.
Proof.
  cbn [repeat zmax]. f_equal. induction n as [|n IH]; [reflexivity |].
  cbn [repeat fold_right]. rewrite IH. lia.
Qed.

Lemma zmin_repeat (c : Z) (n : nat) : zmin (repeat c (S n)) = Some c.
Proof.
  cbn [repeat zmin]. f_equal. induction n as [|n IH]; [reflexivity |].
  cbn [repeat fold_right]. rewrite IH. lia.
Qed.

Lemma In_removelast {A : Type} (l : list A) (x : A) : In x (removelast l) -> In x l.
Proof.
  rewrite removelast_firstn_len. intros H.
  rewrite <- (firstn_skipn (pred (length l)) l). apply in_or_app. now left.
Qed.

Lemma In_tl {A : Type} (l : list A) (x : A) : In x (tl l) -> In x l.
Proof. destruct l; [intros [] | now right]. Qed.

Lemma count_ge_repeat (b i : Z) (n : nat) :
  i <= b -> count_ge (repeat b n) i = Z.of_nat n.
Proof.
  intros H. unfold count_ge. rewrite filter_all.
  - now rewrite repeat_length.
  - intros x Hx. apply repeat_spec in Hx. subst x. lia.
Qed.

(** X6.  A weighted matrix whose nodes all have the same degree [c]:
    the bins of [rich_club_curve] all sit at [c], every node passes every
    threshold, and the curve is flat, with the total weight [n * c] over
    [n * (n - 1)] at each of its points. *)
Theorem rich_club_curve_equal_degrees {NRN : Type} (m : spmatrix) (nrn : NRN)
    (direction : string) (c : Z) :
  direction = "afferent"%string \/ direction = "efferent"%string ->
  dtype_is_bool m = false ->
  in_shape m = true ->
  (1 <= size m)%nat ->
  degree_vector m direction = repeat c (size m) ->
  exists crv,
    rich_club_curve m nrn direction = inr crv
    /\ length crv = Z.to_nat (degree_nbins (size m))
    /\ Forall (fun xv =>
                 (fst xv == inject_Z c)%Q
                 /\ snd xv = true_divide (Z.of_nat (size m) * c)
                                         (Z.of_nat (size m) * (Z.of_nat (size m) - 1)))
              crv.
Proof.
  intros Hd Hb Hs Hn Hreg.
  pose proof (zsum_degree_vector m direction Hs) as Htot.
  rewrite Hreg, zsum_repeat in Htot.
  set (n := size m) in *.
  destruct n as [|n'] eqn:En; [lia |].
  set (nb := degree_nbins (S n')).
  pose proof (degree_nbins_pos (S n') ltac:(lia)) as Hnb. fold nb in Hnb.
  set (N := (Z.to_nat nb - 1)%nat).
  assert (HN : Z.of_nat (S N) = nb) by lia.
  set (bins := linspace (inject_Z c) (inject_Z c + (1 # 1000000) * (inject_Z c - inject_Z c))%Q
                 (S (S N))).
  assert (Hbins : forall x, In x bins -> (x == inject_Z c)%Q).
  { intros x Hx. unfold bins in Hx. cbn [linspace] in Hx.
    apply in_map_iff in Hx as (j & <- & _).
    setoid_replace (inject_Z c + (1 # 1000000) * (inject_Z c - inject_Z c) - inject_Z c)%Q
      with 0%Q by ring.
    unfold Qdiv. rewrite Qmult_0_l, Qmult_0_r, Qplus_0_r. reflexivity. }
  assert (Hunf : rich_club_curve m nrn direction
                 = inr (combine (zip_with (fun lo hi => (1 # 2) * (lo + hi))%Q
                                          (removelast bins) (tl bins))
                                (map (fun _ => true_divide (Z.of_nat (S n') * c)
                                                 (Z.of_nat (S n') * (Z.of_nat (S n') - 1)))
                                     (arange 0 nb)))).
  { assert (Hdig : map (fun d => digitize (inject_Z d) bins - 1) (repeat c (S n'))
                   = repeat nb (S n')).
    { rewrite map_repeat. f_equal. rewrite <- HN. now apply digitize_flat. }
    assert (Htail : (binned <- _bin_degrees (repeat c (S n')) ;;
                     inr (combine (fst (fst binned))
                            (zip_with true_divide
                               (map (fun i => sum_ix m (map (fun d => i <=? d) (snd binned)))
                                    (snd (fst binned)))
                               (map (fun i => count_ge (snd binned) i
                                              * (count_ge (snd binned) i - 1))
                                    (snd (fst binned))))))
                    = inr (combine (zip_with (fun lo hi => (1 # 2) * (lo + hi))%Q
                                             (removelast bins) (tl bins))
                                   (map (fun _ => true_divide (Z.of_nat (S n') * c)
                                                    (Z.of_nat (S n') * (Z.of_nat (S n') - 1)))
                                        (arange 0 nb)))).
    { rewrite (bin_degrees_unfold (repeat c (S n')) c c)
        by (apply zmax_repeat || apply zmin_repeat).
      rewrite repeat_length. fold nb. fold N. cbv zeta. fold bins. cbn [bind fst snd].
      do 2 f_equal. rewrite zip_with_map_same. apply map_ext_in. intros i Hi.
      apply In_arange in Hi.
      rewrite Hdig, map_repeat, count_ge_repeat by lia.
      replace (i <=? nb) with true by (symmetry; apply Z.leb_le; lia).
      rewrite <- En. unfold n. rewrite sum_ix_all by exact Hs.
      fold n. rewrite En, <- Htot. reflexivity. }
    unfold rich_club_curve. rewrite Hb.
    destruct Hd as [-> | ->].
    - change (degree_vector m "afferent") with (sum_axis0 m) in Hreg.
      change (String.eqb "afferent" "afferent") with true. cbn [bind].
      rewrite Hreg. exact Htail.
    - change (degree_vector m "efferent") with (sum_axis1 m) in Hreg.
      change (String.eqb "efferent" "afferent") with false.
      change (String.eqb "efferent" "efferent") with true. cbn [bind].
      rewrite Hreg. exact Htail. }
  eexists. split; [exact Hunf |]. split.
  - rewrite length_combine, length_map. unfold arange. rewrite length_map, length_seq.
    rewrite length_zip_with.
    + rewrite removelast_firstn_len, length_firstn. unfold bins. rewrite length_linspace. lia.
    + rewrite removelast_firstn_len, length_firstn, length_tl. unfold bins.
      rewrite length_linspace. lia.
  - apply Forall_forall. intros [x v] Hxv. cbn [fst snd]. split.
    + apply in_combine_l in Hxv. unfold zip_with in Hxv.
      apply in_map_iff in Hxv as ([lo hi] & <- & Hlh). cbn [fst snd].
      pose proof (Hbins lo (In_removelast _ _ (in_combine_l _ _ _ _ Hlh))) as Hlo.
      pose proof (Hbins hi (In_tl _ _ (in_combine_r _ _ _ _ Hlh))) as Hhi.
      rewrite Hlo, Hhi. field.
    + apply in_combine_r in Hxv. apply in_map_iff in Hxv as (i & <- & _). reflexivity.
Qed.

Lemma rich_club_curve_equal_degrees_witness :
  exists crv,
    rich_club_curve (IntMatrix 2 [(0, 1, 3); (1, 0, 3)]%nat) tt "efferent" = inr crv
    /\ length crv = Z.to_nat (degree_nbins (size (IntMatrix 2 [(0, 1, 3); (1, 0, 3)]%nat)))
    /\ Forall (fun xv =>
                 (fst xv == inject_Z 3)%Q
                 /\ snd xv
                    = true_divide
                        (Z.of_nat (size (IntMatrix 2 [(0, 1, 3); (1, 0, 3)]%nat)) * 3)
                        (Z.of_nat (size (IntMatrix 2 [(0, 1, 3); (1, 0, 3)]%nat))
                         * (Z.of_nat (size (IntMatrix 2 [(0, 1, 3); (1, 0, 3)]%nat)) - 1)))
              crv.
Proof.
  apply (rich_club_curve_equal_degrees (IntMatrix 2 [(0, 1, 3); (1, 0, 3)]%nat) tt "efferent" 3);
    [right; reflexivity | reflexivity | reflexivity | simpl; lia | reflexivity].
Defined.

(** ** The efficient rich-club curve for direction "both" *)

Lemma count_ge_rev (l : list Z) (b : Z) : count_ge (rev l) b = count_ge l b.
Proof. unfold count_ge. now rewrite filter_rev, length_rev. Qed.

Lemma total_degree_nonneg (M : spmatrix) (r : nat) : 0 <= nth r (total_degree M) 0.
Proof.
  unfold total_degree. rewrite nth_map_error.
  destruct (nth_error (seq 0 (size M)) r); lia.
Qed.

Lemma total_degree_le_max (M : spmatrix) (mx : Z) (r : nat) :
  In mx (total_degree M) -> Forall (fun d => d <= mx) (total_degree M) ->
  0 <= mx /\ nth r (total_degree M) 0 <= mx.
Proof.
  intros Hin Hle. rewrite Forall_forall in Hle.
  assert (H0 : 0 <= mx).
  { apply In_nth with (d := 0) in Hin as (k & _ & <-). apply total_degree_nonneg. }
  split; [exact H0 |].
  destruct (Nat.lt_ge_cases r (length (total_degree M))) as [Hr | Hr].
  - apply Hle, nth_In, Hr.
  - now rewrite nth_overflow by exact Hr.
Qed.

Lemma efficient_both_unfold (M : spmatrix) (mx : Z) :
  zmax (rev (total_degree M)) = Some mx ->
  efficient_rich_club_curve M "both" None false
  = inr (map (fun b => (b, true_divide (club_entries M b)
                             (count_ge (total_degree M) b
                              * (count_ge (total_degree M) b - 1))))
             (rev (arange 0 (mx + 1)))).
Proof.
  intros Emx.
  assert (Hin : In mx (total_degree M)).
  { apply zmax_In in Emx. now apply in_rev in Emx. }
  assert (Hle : Forall (fun d => d <= mx) (total_degree M)).
  { apply Forall_forall. intros d Hd. apply (zmax_ge _ _ Emx). now apply in_rev in Hd. }
  unfold efficient_rich_club_curve. cbv zeta.
  change (String.eqb "both" "efferent") with false.
  change (String.eqb "both" "afferent") with false.
  change (String.eqb "both" "both") with true. cbv iota. cbn [bind].
  match goal with |- context [scatter _ ?d] => set (deg := d) end.
  assert (Hvals : values deg = rev (total_degree M)).
  { unfold values, deg, total_degree. now rewrite map_map, map_rev. }
  assert (Hidx : index_values deg = rev (seq 0 (size M))).
  { unfold index_values, deg. rewrite map_map. cbn [fst]. apply map_id. }
  assert (Hscatter : scatter (size M) deg = total_degree M).
  { unfold scatter, deg, total_degree. apply map_ext_in. intros v Hv.
    rewrite <- map_rev, find_value_counts, rev_involutive.
    destruct (in_dec Nat.eq_dec v (seq 0 (size M))) as [_ | H]; [reflexivity | contradiction]. }
  rewrite Hvals, Emx, Hidx, Hscatter.
  replace (existsb (fun v => (size M <=? v)%nat) (rev (seq 0 (size M)))) with false.
  2:{ symmetry. apply not_true_is_false. intros H.
      apply existsb_exists in H as (v & Hv & Hge). apply in_rev in Hv.
      apply in_seq in Hv. apply Nat.leb_le in Hge. lia. }
  rewrite efficient_table.
  - f_equal. apply map_ext. intros b. rewrite count_ge_rev. do 2 f_equal.
    unfold club_entries. rewrite zip_with_map_pair, count_ge_map.
    do 2 f_equal. apply filter_ext. intros rc.
    destruct (Z.leb_spec b (Z.min (nth (fst rc) (total_degree M) 0)
                                  (nth (snd rc) (total_degree M) 0)));
      destruct (Z.leb_spec b (nth (fst rc) (total_degree M) 0));
      destruct (Z.leb_spec b (nth (snd rc) (total_degree M) 0)); cbn [andb]; lia.
  - apply (total_degree_le_max M mx O Hin Hle).
  - intros v Hv. apply in_rev in Hv. rewrite Forall_forall in Hle. specialize (Hle v Hv). lia.
  - intros v Hv. rewrite zip_with_map_pair in Hv.
    apply in_map_iff in Hv as (rc & <- & _).
    pose proof (total_degree_le_max M mx (fst rc) Hin Hle). lia.
Qed.

(** X8.  [efficient_rich_club_curve] with direction "both" on a
    matrix with at least one node: the degree of a node is the number of its
    stored entries as source plus as target, nodes without any entry are
    counted with degree 0, the index runs from the maximal degree down to 0,
    and the value at degree [b] is the number of entries between nodes of
    degree at least [b] over the number of ordered pairs of such nodes.  At
    degree 0 this is the number of stored entries over [n * (n - 1)]. *)
Theorem efficient_rich_club_curve_both (M : spmatrix) :
  (1 <= size M)%nat ->
  exists c mx,
    efficient_rich_club_curve M "both" None false = inr c
    /\ In mx (total_degree M)
    /\ Forall (fun d => d <= mx) (total_degree M)
    /\ index_values c = rev (arange 0 (mx + 1))
    /\ (forall b, 0 <= b <= mx ->
          lookup b c
          = Some (true_divide (club_entries M b)
                    (count_ge (total_degree M) b * (count_ge (total_degree M) b - 1))))
    /\ lookup 0 c
       = Some (true_divide (Z.of_nat (nnz M))
                 (Z.of_nat (size M) * (Z.of_nat (size M) - 1))).
Proof.
  intros Hn.
  destruct (zmax (rev (total_degree M))) as [mx|] eqn:Emx.
  2:{ unfold total_degree in Emx.
      destruct (size M) as [|k]; [lia |]. rewrite seq_S, map_app, rev_app_distr in Emx.
      discriminate. }
  assert (Hin : In mx (total_degree M)).
  { apply zmax_In in Emx. now apply in_rev in Emx. }
  assert (Hle : Forall (fun d => d <= mx) (total_degree M)).
  { apply Forall_forall. intros d Hd. apply (zmax_ge _ _ Emx). now apply in_rev in Hd. }
  destruct (total_degree_le_max M mx O Hin Hle) as [H0 _].
  eexists. exists mx. split; [exact (efficient_both_unfold M mx Emx) |].
  split; [exact Hin |]. split; [exact Hle |]. split.
  { unfold index_values. rewrite map_map. cbn [fst]. apply map_id. }
  assert (Hlook : forall b, 0 <= b <= mx ->
            lookup b (map (fun b => (b, true_divide (club_entries M b)
                                          (count_ge (total_degree M) b
                                           * (count_ge (total_degree M) b - 1))))
                          (rev (arange 0 (mx + 1))))
            = Some (true_divide (club_entries M b)
                      (count_ge (total_degree M) b * (count_ge (total_degree M) b - 1)))).
  { intros b Hb.
    apply (lookup_map_In (fun b => true_divide (club_entries M b)
                                     (count_ge (total_degree M) b
                                      * (count_ge (total_degree M) b - 1)))).
    apply in_rev. rewrite rev_involutive. apply In_arange. lia. }
  split; [exact Hlook |].
  rewrite (Hlook 0) by lia. do 2 f_equal.
  - unfold club_entries, nnz, coords. rewrite filter_all, length_map; [reflexivity |].
    intros rc _. apply andb_true_intro. split; apply Z.leb_le, total_degree_nonneg.
  - assert (Hc : count_ge (total_degree M) 0 = Z.of_nat (size M)).
    { unfold count_ge. rewrite filter_all.
      - unfold total_degree. now rewrite length_map, length_seq.
      - intros d Hd. apply In_nth with (d := 0) in Hd as (r & _ & <-).
        apply Z.leb_le, total_degree_nonneg. }
    now rewrite Hc.
Qed.

Lemma efficient_rich_club_curve_both_witness :
  exists c mx,
    efficient_rich_club_curve example4 "both" None false = inr c
    /\ In mx (total_degree example4)
    /\ Forall (fun d => d <= mx) (total_degree example4)
    /\ index_values c = rev (arange 0 (mx + 1))
    /\ (forall b, 0 <= b <= mx ->
          lookup b c
          = Some (true_divide (club_entries example4 b)
                    (count_ge (total_degree example4) b
                     * (count_ge (total_degree example4) b - 1))))
    /\ lookup 0 c
       = Some (true_divide (Z.of_nat (nnz example4))
                 (Z.of_nat (size example4) * (Z.of_nat (size example4) - 1))).
Proof.
  apply (efficient_rich_club_curve_both example4). simpl. lia.
Defined.

(** ** Normalization by the analytical null model *)

Lemma firstn_length_all {A : Type} (l : list A) (k : nat) : k = length l -> firstn k l = l.
Proof. intros ->. apply firstn_all. Qed.

Section AnalyticalNormalization.

Variable hypergeom_stats : Z -> Z -> Z -> npfloat * npfloat.
Variable np_sqrt : npfloat -> npfloat.
Variable pd_concat : list (series Z npfloat) -> series Z (list npfloat).

Lemma analytical_thresholds {NRN : Type} (m : spmatrix) (nrn : NRN) (direction : string)
    (data : series Q npfloat) :
  dtype_is_bool m = true ->
  rich_club_curve m nrn direction = inr data ->
  exists ctrl,
    _analytical_expected_rich_club_curve hypergeom_stats np_sqrt m direction = inr ctrl
    /\ map inject_Z (cf_index ctrl) = index_values data
    /\ length (cf_mean ctrl) = length data
    /\ length (cf_std ctrl) = length data.
Proof.
  intros Hb Hdata. unfold rich_club_curve in Hdata.
  unfold _analytical_expected_rich_club_curve. rewrite Hb in *. cbn [negb].
  destruct (String.eqb direction "afferent").
  - cbn [bind] in *. destruct (zmax (sum_axis0 m)) as [mx|]; [| discriminate].
    cbn [bind fst snd] in Hdata. injection Hdata as <-.
    eexists. split; [reflexivity |]. cbn [cf_index cf_mean cf_std].
    rewrite length_combine, !length_map, length_zip_with by now rewrite !length_map.
    rewrite length_map. split; [| split; lia].
    symmetry. apply index_values_combine.
    rewrite length_zip_with by now rewrite !length_map. now rewrite !length_map.
  - destruct (String.eqb direction "efferent"); [| discriminate].
    cbn [bind] in *. destruct (zmax (sum_axis1 m)) as [mx|]; [| discriminate].
    cbn [bind fst snd] in Hdata. injection Hdata as <-.
    eexists. split; [reflexivity |]. cbn [cf_index cf_mean cf_std].
    rewrite length_combine, !length_map, length_zip_with by now rewrite !length_map.
    rewrite length_map. split; [| split; lia].
    symmetry. apply index_values_combine.
    rewrite length_zip_with by now rewrite !length_map. now rewrite !length_map.
Qed.

(** X9.  Whenever [rich_club_curve] returns on a boolean matrix, the
    analytical null model returns as well and has the thresholds of the
    observed curve, so that [normalized_rich_club_curve] with
    [normalize_with="analytical"] truncates nothing: its result has the index
    of the observed curve and the values [B / mean] ("mean") or
    [(B - mean) / std] ("std"), and no random number is drawn. *)
Theorem analytical_normalization_keeps_thresholds {NRN : Type} (m : spmatrix) (nrn : NRN)
    (direction : string) (g : rng) (data : series Q npfloat) :
  dtype_is_bool m = true ->
  rich_club_curve m nrn direction = inr data ->
  exists ctrl,
    _analytical_expected_rich_club_curve hypergeom_stats np_sqrt m direction = inr ctrl
    /\ map inject_Z (cf_index ctrl) = index_values data
    /\ normalized_rich_club_curve hypergeom_stats np_sqrt pd_concat
         m nrn direction "mean" "analytical" g
       = inr (combine (index_values data) (zip_with div (values data) (cf_mean ctrl)), g)
    /\ normalized_rich_club_curve hypergeom_stats np_sqrt pd_concat
         m nrn direction "std" "analytical" g
       = inr (combine (index_values data)
                (zip_with div (zip_with sub (values data) (cf_mean ctrl)) (cf_std ctrl)), g)
    /\ length (zip_with div (values data) (cf_mean ctrl)) = length data
    /\ length (zip_with div (zip_with sub (values data) (cf_mean ctrl)) (cf_std ctrl))
       = length data.
Proof.
  intros Hb Hdata.
  destruct (analytical_thresholds m nrn direction data Hb Hdata) as (ctrl & Hctrl & Hidx & Hmn & Hsd).
  exists ctrl. split; [exact Hctrl |]. split; [exact Hidx |].
  assert (HB : length (values data) = length data) by apply length_map.
  assert (HA : length (index_values data) = length data) by apply length_map.
  assert (Hl1 : length (zip_with div (values data) (cf_mean ctrl)) = length data).
  { rewrite length_zip_with; lia. }
  assert (Hl2 : length (zip_with sub (values data) (cf_mean ctrl)) = length data).
  { rewrite length_zip_with; lia. }
  assert (Hl3 : length (zip_with div (zip_with sub (values data) (cf_mean ctrl)) (cf_std ctrl))
                = length data).
  { rewrite length_zip_with; lia. }
  split; [| split; [| split; [exact Hl1 | exact Hl3]]].
  - unfold normalized_rich_club_curve. rewrite Hb, Hdata. cbn [negb bind].
    change (String.eqb "analytical" "analytical") with true. cbv iota.
    rewrite Hctrl. cbn [bind fst snd].
    change (String.eqb "mean" "mean") with true. cbv iota.
    rewrite !firstn_length_all by lia.
    unfold broadcast. replace (length (values data) =? length (cf_mean ctrl))%nat with true
      by (symmetry; apply Nat.eqb_eq; lia).
    cbn [bind]. unfold pd_Series.
    replace (length (zip_with div (values data) (cf_mean ctrl)) =? length (index_values data))%nat
      with true by (symmetry; apply Nat.eqb_eq; lia).
    reflexivity.
  - unfold normalized_rich_club_curve. rewrite Hb, Hdata. cbn [negb bind].
    change (String.eqb "analytical" "analytical") with true. cbv iota.
    rewrite Hctrl. cbn [bind fst snd].
    change (String.eqb "std" "mean") with false.
    change (String.eqb "std" "std") with true. cbv iota.
    rewrite !firstn_length_all by lia.
    unfold broadcast. replace (length (values data) =? length (cf_mean ctrl))%nat with true
      by (symmetry; apply Nat.eqb_eq; lia).
    cbn [bind].
    replace (length (zip_with sub (values data) (cf_mean ctrl)) =? length (cf_std ctrl))%nat
      with true by (symmetry; apply Nat.eqb_eq; lia).
    cbn [bind]. unfold pd_Series.
    replace (length (zip_with div (zip_with sub (values data) (cf_mean ctrl)) (cf_std ctrl))
             =? length (index_values data))%nat
      with true by (symmetry; apply Nat.eqb_eq; lia).
    reflexivity.
Qed.

End AnalyticalNormalization.

Lemma analytical_normalization_keeps_thresholds_witness :
  exists ctrl,
    _analytical_expected_rich_club_curve (fun _ _ _ => (Fin 1, Fin 1)) (fun x => x)
      example4 "efferent" = inr ctrl
    /\ map inject_Z (cf_index ctrl) = index_values [(1%Q, Fin (1 # 2)); (2%Q, NaN)]
    /\ normalized_rich_club_curve (fun _ _ _ => (Fin 1, Fin 1)) (fun x => x) (fun _ => [])
         example4 tt "efferent" "mean" "analytical" []
       = inr (combine (index_values [(1%Q, Fin (1 # 2)); (2%Q, NaN)])
                (zip_with div (values [(1%Q, Fin (1 # 2)); (2%Q, NaN)]) (cf_mean ctrl)), [])
    /\ normalized_rich_club_curve (fun _ _ _ => (Fin 1, Fin 1)) (fun x => x) (fun _ => [])
         example4 tt "efferent" "std" "analytical" []
       = inr (combine (index_values [(1%Q, Fin (1 # 2)); (2%Q, NaN)])
                (zip_with div (zip_with sub (values [(1%Q, Fin (1 # 2)); (2%Q, NaN)])
                                 (cf_mean ctrl)) (cf_std ctrl)), [])
    /\ length (zip_with div (values [(1%Q, Fin (1 # 2)); (2%Q, NaN)]) (cf_mean ctrl))
       = length [(1%Q, Fin (1 # 2)); (2%Q, NaN)]
    /\ length (zip_with div (zip_with sub (values [(1%Q, Fin (1 # 2)); (2%Q, NaN)])
                               (cf_mean ctrl)) (cf_std ctrl))
       = length [(1%Q, Fin (1 # 2)); (2%Q, NaN)].
Proof.
  apply (analytical_normalization_keeps_thresholds (fun _ _ _ => (Fin 1, Fin 1)) (fun x => x)
           (fun _ => []) example4 tt "efferent" []); reflexivity.
Defined.

(** ** Sampling without replacement *)

Lemma In_remove_nth {A : Type} (i : nat) (l : list A) (x : A) :
  In x (remove_nth i l) -> In x l.
Proof.
  revert i. induction l as [|a l IH]; intros [|i]; cbn [remove_nth]; try contradiction.
  - now right.
  - intros [<- | H]; [now left | right; now apply (IH i)].
Qed.

Lemma NoDup_remove_nth {A : Type} (i : nat) (l : list A) :
  NoDup l -> NoDup (remove_nth i l).
Proof.
  intros H. revert i. induction H as [|a l Ha Hl IH]; intros [|i]; cbn [remove_nth];
    try constructor; auto.
  intros Hin. apply Ha. now apply In_remove_nth in Hin.
Qed.

Lemma nth_not_In_remove_nth {A : Type} (i : nat) (l : list A) (d : A) :
  NoDup l -> (i < length l)%nat -> ~ In (nth i l d) (remove_nth i l).
Proof.
  intros H. revert i. induction H as [|a l Ha Hl IH]; intros [|i] Hi; cbn [length] in Hi;
    try lia; cbn [remove_nth nth].
  - exact Ha.
  - intros [E | Hin].
    + apply Ha. rewrite E. apply nth_In. lia.
    + apply (IH i); [lia | exact Hin].
Qed.

Lemma In_draw (cands : list nat) (size : nat) (g : rng) (x : nat) :
  In x (fst (draw cands size g)) -> In x cands.
Proof.
  revert cands g. induction size as [|k IH]; intros cands g; [intros [] |].
  destruct cands as [|c cs]; [intros [] |]. cbn [draw fst].
  intros [<- | H].
  - apply nth_In. apply Nat.mod_upper_bound. discriminate.
  - apply IH in H. now apply In_remove_nth in H.
Qed.

Lemma NoDup_draw (cands : list nat) (size : nat) (g : rng) :
  NoDup cands -> NoDup (fst (draw cands size g)).
Proof.
  revert cands g. induction size as [|k IH]; intros cands g Hnd; [constructor |].
  destruct cands as [|c cs]; [constructor |]. cbn [draw fst].
  constructor.
  - intros H. apply In_draw in H. revert H. apply nth_not_In_remove_nth; [exact Hnd |].
    apply Nat.mod_upper_bound. discriminate.
  - apply IH. now apply NoDup_remove_nth.
Qed.

Lemma In_combine_seq {B : Type} (a n j : nat) (p : list B) (x : B) :
  In (j, x) (combine (seq a n) p) -> (a <= j < a + n)%nat /\ nth_error p (j - a) = Some x.
Proof.
  revert a p. induction n as [|n IH]; intros a [|y p]; cbn [seq combine]; try contradiction.
  intros [[= <- <-] | H].
  - split; [lia |]. now rewrite Nat.sub_diag.
  - apply IH in H as [Hj Hx]. split; [lia |].
    replace (j - a)%nat with (S (j - S a)) by lia. exact Hx.
Qed.

Lemma NoDup_map_fst_filter_combine {B : Type} (f : nat * B -> bool) (l : list nat)
    (p : list B) :
  NoDup l -> NoDup (map fst (filter f (combine l p))).
Proof.
  intros H. revert p. induction H as [|a l Ha Hl IH]; intros [|x p]; cbn [combine filter map];
    try constructor.
  destruct (f (a, x)); cbn [map]; [| apply IH].
  constructor; [| apply IH].
  intros Hin. apply Ha. apply in_map_iff in Hin as ([j y] & Hj & Hin). cbn [fst] in Hj.
  subst j. apply filter_In in Hin as [Hin _]. now apply in_combine_l in Hin.
Qed.

Lemma nth_error_set_zero (col j : nat) (p : list npfloat) :
  nth_error (set_zero col p) j
  = if (j =? col)%nat then option_map (fun _ => Fin 0) (nth_error p j) else nth_error p j.
Proof.
  revert col j. induction p as [|x p IH]; intros col j.
  - destruct col; destruct (j =? _)%nat; destruct j; reflexivity.
  - destruct col as [|col], j as [|j]; cbn [set_zero nth_error Nat.eqb option_map];
      try reflexivity. apply IH.
Qed.

(** A zero weight never has a positive probability, whatever the sum. *)
Lemma div_zero_not_positive (a : Q) (s : npfloat) :
  (a == 0)%Q -> ltb (Fin 0) (div (Fin a) s) = false.
Proof.
  intros Ha. destruct s as [| | |b]; cbn [div ltb]; try reflexivity.
  destruct (Qeq_bool b 0).
  - unfold Qsgn. replace (Qnum a) with 0; [reflexivity |].
    unfold Qeq in Ha. cbn in Ha. lia.
  - unfold fin. cbn [ltb]. apply negb_false_iff, Qle_bool_iff.
    rewrite Qred_correct, Ha. unfold Qdiv. rewrite Qmult_0_l. apply Qle_refl.
Qed.

Lemma choice_support_spec (n : nat) (p_out : list npfloat) (col c : nat) :
  In c (choice_support (seq 0 n) p_out col) ->
  (c < n)%nat /\ c <> col
  /\ exists x, nth_error p_out c = Some x
               /\ ltb (Fin 0) (div x (Np.sum (set_zero col p_out))) = true.
Proof.
  unfold choice_support. intros H. apply in_map_iff in H as ([j y] & Hj & H).
  cbn [fst] in Hj. subst j. apply filter_In in H as [H Hpos]. cbn [snd] in Hpos.
  apply In_combine_seq in H as [Hc Hy]. rewrite Nat.sub_0_r, nth_error_map in Hy.
  rewrite nth_error_set_zero in Hy. split; [lia |].
  destruct (Nat.eqb_spec c col) as [-> | Hne].
  - exfalso. destruct (nth_error p_out col); [| discriminate]. cbn [option_map] in Hy.
    assert (Ey : y = div (Fin 0) (Np.sum (set_zero col p_out))) by congruence. subst y.
    rewrite div_zero_not_positive in Hpos by reflexivity. discriminate.
  - split; [exact Hne |]. destruct (nth_error p_out c) as [x|]; [| discriminate].
    cbn [option_map] in Hy.
    assert (Ey : y = div x (Np.sum (set_zero col p_out))) by congruence. subst y.
    now exists x.
Qed.

Lemma NoDup_choice_support (n : nat) (p_out : list npfloat) (col : nat) :
  NoDup (choice_support (seq 0 n) p_out col).
Proof. apply NoDup_map_fst_filter_combine, seq_NoDup. Qed.

Lemma np_random_choice_spec (a : list nat) (size : nat) (p : list npfloat) (g : rng)
    (s : list nat * rng) :
  np_random_choice a size p g = inr s ->
  let support := map fst (filter (fun ap => ltb (Fin 0) (snd ap)) (combine a p)) in
  (size <= length support)%nat /\ fst s = fst (draw support size g).
Proof.
  unfold np_random_choice. destruct (existsb isnan p); [discriminate |].
  destruct (length a <? size)%nat; [discriminate |].
  destruct (length _ <? size)%nat eqn:E; [discriminate |].
  intros [= <-]. apply Nat.ltb_ge in E. now split.
Qed.

Lemma np_random_choice_error (a : list nat) (size : nat) (p : list npfloat) (g : rng)
    (e : exn) :
  np_random_choice a size p g = inl e -> exists msg, e = ValueError msg.
Proof.
  unfold np_random_choice. destruct (existsb isnan p); [intros [= <-]; eauto |].
  destruct (length a <? size)%nat; [intros [= <-]; eauto |].
  destruct (length _ <? size)%nat; [intros [= <-]; eauto | discriminate].
Qed.

(** ** The lines that the shuffle writes *)

Section ShuffleShape.

Variable E : Type.
Variable major minor : E -> nat.
Variable set_minor : E -> nat -> E.
Variable val : E -> Z.
Hypothesis major_set_minor : forall e i, major (set_minor e i) = major e.
Hypothesis minor_set_minor : forall e i, minor (set_minor e i) = i.
Hypothesis val_set_minor : forall e i, val (set_minor e i) = val e.

Variable n : nat.
Variable p_out : list npfloat.
Variable entries : list E.

Lemma zip_with_set_minor (l : list E) (s : list nat) :
  length s = length l ->
  map major (zip_with set_minor l s) = map major l
  /\ map minor (zip_with set_minor l s) = s
  /\ map val (zip_with set_minor l s) = map val l.
Proof.
  revert s. induction l as [|e l IH]; intros [|i s] H; try discriminate.
  - now repeat split.
  - destruct (IH s ltac:(now injection H)) as (H1 & H2 & H3).
    unfold zip_with in *. cbn [combine map fst snd].
    rewrite major_set_minor, minor_set_minor, val_set_minor, H1, H2, H3. now repeat split.
Qed.

Lemma shuffle_line_shape (col : nat) (g : rng) (out : list E * rng) :
  shuffle_line E major set_minor (seq 0 n) p_out entries col g = inr out ->
  exists sample,
    fst out = zip_with set_minor (line E major entries col) sample
    /\ length sample = length (line E major entries col)
    /\ NoDup sample
    /\ incl sample (choice_support (seq 0 n) p_out col)
    /\ (length (line E major entries col) <= length (choice_support (seq 0 n) p_out col))%nat.
Proof.
  unfold shuffle_line.
  destruct (np_random_choice (seq 0 n) _ _ g) as [e | sample] eqn:Ech; [discriminate |].
  cbn [bind]. intros [= <-]. cbn [fst]. exists (fst sample).
  pose proof (length_np_random_choice _ _ _ _ _ Ech) as Hlen.
  apply np_random_choice_spec in Ech. cbv zeta in Ech. destruct Ech as [Hsz Hs].
  fold (choice_support (seq 0 n) p_out col) in Hsz, Hs.
  split; [reflexivity |]. split; [exact Hlen |]. rewrite Hs. split.
  - apply NoDup_draw, NoDup_choice_support.
  - split; [| exact Hsz]. intros c Hc. now apply In_draw in Hc.
Qed.

Lemma shuffle_line_error (col : nat) (g : rng) (e : exn) :
  shuffle_line E major set_minor (seq 0 n) p_out entries col g = inl e ->
  exists msg, e = ValueError msg.
Proof.
  unfold shuffle_line.
  destruct (np_random_choice (seq 0 n) _ _ g) as [e' | sample] eqn:Ech; [| discriminate].
  cbn [bind]. intros [= <-]. now apply np_random_choice_error in Ech.
Qed.

Lemma shuffle_lines_error (cols : list nat) (g : rng) (e : exn) :
  shuffle_lines E major set_minor (seq 0 n) p_out entries cols g = inl e ->
  exists msg, e = ValueError msg.
Proof.
  revert g. induction cols as [|col cols IH]; intros g; [discriminate |].
  cbn [shuffle_lines].
  destruct (shuffle_line E major set_minor (seq 0 n) p_out entries col g) as [e1 | first] eqn:E1.
  - cbn [bind]. intros [= <-]. now apply shuffle_line_error in E1.
  - cbn [bind].
    destruct (shuffle_lines E major set_minor (seq 0 n) p_out entries cols (snd first))
      as [e2 | others] eqn:E2; [| discriminate].
    cbn [bind]. intros [= <-]. now apply IH in E2.
Qed.

(** Every written entry sits in a line that was visited, at an index that
    the sample of that line could yield. *)
Lemma shuffle_lines_entries (cols : list nat) (g : rng) (out : list E * rng) :
  shuffle_lines E major set_minor (seq 0 n) p_out entries cols g = inr out ->
  Forall (fun e => In (major e) cols
                   /\ In (minor e) (choice_support (seq 0 n) p_out (major e)))
         (fst out).
Proof.
  revert g out. induction cols as [|col cols IH]; intros g out.
  - intros [= <-]. constructor.
  - cbn [shuffle_lines].
    destruct (shuffle_line E major set_minor (seq 0 n) p_out entries col g) as [e | first] eqn:E1;
      [discriminate |].
    cbn [bind].
    destruct (shuffle_lines E major set_minor (seq 0 n) p_out entries cols (snd first))
      as [e | others] eqn:E2; [discriminate |].
    cbn [bind]. intros [= <-]. cbn [fst]. apply Forall_app. split.
    + apply shuffle_line_shape in E1 as (sample & -> & Hlen & _ & Hincl & _).
      destruct (zip_with_set_minor (line E major entries col) sample Hlen) as (Hmaj & Hmin & _).
      apply Forall_forall. intros e He.
      assert (Hm : major e = col).
      { assert (H : In (major e) (map major (line E major entries col))).
        { rewrite <- Hmaj. now apply in_map. }
        apply in_map_iff in H as (e0 & <- & H0). apply filter_In in H0 as [_ H0].
        now apply Nat.eqb_eq in H0. }
      rewrite Hm. split; [now left |]. apply Hincl. rewrite <- Hmin. now apply in_map.
    + specialize (IH _ _ E2). rewrite Forall_forall in *. intros e He.
      destruct (IH e He) as [H1 H2]. split; [now right | exact H2].
Qed.

(** No position is written twice. *)
Lemma shuffle_lines_NoDup (cols : list nat) (g : rng) (out : list E * rng) :
  NoDup cols ->
  shuffle_lines E major set_minor (seq 0 n) p_out entries cols g = inr out ->
  NoDup (map (fun e => (major e, minor e)) (fst out)).
Proof.
  revert g out. induction cols as [|col cols IH]; intros g out Hnd.
  - intros [= <-]. constructor.
  - cbn [shuffle_lines].
    destruct (shuffle_line E major set_minor (seq 0 n) p_out entries col g) as [e | first] eqn:E1;
      [discriminate |].
    cbn [bind].
    destruct (shuffle_lines E major set_minor (seq 0 n) p_out entries cols (snd first))
      as [e | others] eqn:E2; [discriminate |].
    cbn [bind]. intros [= <-]. cbn [fst]. inversion Hnd as [|? ? Hnotin Hnd']; subst.
    rewrite map_app. apply NoDup_app.
    + apply shuffle_line_shape in E1 as (sample & -> & Hlen & Hs & _).
      destruct (zip_with_set_minor (line E major entries col) sample Hlen) as (_ & Hmin & _).
      apply (NoDup_map_inv snd). rewrite map_map.
      rewrite (map_ext _ minor) by reflexivity. now rewrite Hmin.
    + now apply (IH _ _ Hnd' E2).
    + intros [r c] H1 H2. apply in_map_iff in H1 as (e1 & [= <- <-] & H1).
      apply in_map_iff in H2 as (e2 & [= Hr Hc] & H2).
      pose proof (shuffle_lines_entries _ _ _ E2) as Hall. rewrite Forall_forall in Hall.
      destruct (Hall e2 H2) as [Hin _].
      pose proof (shuffle_lines_entries [col] g (fst first, snd first)) as Hone.
      cbn [shuffle_lines] in Hone. rewrite E1 in Hone. cbn [bind fst] in Hone.
      rewrite app_nil_r in Hone. specialize (Hone eq_refl). rewrite Forall_forall in Hone.
      destruct (Hone e1 H1) as [[Hcol | []] _].
      apply Hnotin. rewrite Hcol, <- Hr. exact Hin.
Qed.

(** The values of a visited line are kept, in their order. *)
Lemma shuffle_lines_values (cols : list nat) (g : rng) (out : list E * rng) (r : nat) :
  NoDup cols ->
  shuffle_lines E major set_minor (seq 0 n) p_out entries cols g = inr out ->
  map val (line E major (fst out) r)
  = if in_dec Nat.eq_dec r cols then map val (line E major entries r) else [].
Proof.
  revert g out. induction cols as [|col cols IH]; intros g out Hnd.
  - intros [= <-]. reflexivity.
  - cbn [shuffle_lines].
    destruct (shuffle_line E major set_minor (seq 0 n) p_out entries col g) as [e | first] eqn:E1;
      [discriminate |].
    cbn [bind].
    destruct (shuffle_lines E major set_minor (seq 0 n) p_out entries cols (snd first))
      as [e | others] eqn:E2; [discriminate |].
    cbn [bind]. intros [= <-]. cbn [fst]. inversion Hnd as [|? ? Hnotin Hnd']; subst.
    rewrite line_app, map_app, (IH _ _ Hnd' E2).
    apply shuffle_line_shape in E1 as (sample & -> & Hlen & _).
    destruct (zip_with_set_minor (line E major entries col) sample Hlen) as (Hmaj & _ & Hval).
    assert (Hline : line E major (zip_with set_minor (line E major entries col) sample) r
                    = if (r =? col)%nat
                      then zip_with set_minor (line E major entries col) sample else []).
    { unfold line at 1.
      destruct (Nat.eqb_spec r col) as [-> | Hne].
      - apply filter_all. intros e He.
        assert (H : In (major e) (map major (line E major entries col))).
        { rewrite <- Hmaj. now apply in_map. }
        apply in_map_iff in H as (e0 & <- & H0). apply filter_In in H0 as [_ H0]. exact H0.
      - assert (Hnone : forall e, In e (zip_with set_minor (line E major entries col) sample) ->
                                  (major e =? r)%nat = false).
        { intros e He.
          assert (H : In (major e) (map major (line E major entries col))).
          { rewrite <- Hmaj. now apply in_map. }
          apply in_map_iff in H as (e0 & <- & H0). apply filter_In in H0 as [_ H0].
          apply Nat.eqb_eq in H0. apply Nat.eqb_neq. congruence. }
        revert Hnone. generalize (zip_with set_minor (line E major entries col) sample).
        intros l Hl. induction l as [|a l IHl]; [reflexivity |].
        cbn [filter]. rewrite (Hl a (or_introl eq_refl)).
        apply IHl. intros e He. apply Hl. now right. }
    rewrite Hline.
    destruct (Nat.eqb_spec r col) as [-> | Hne].
    + destruct (in_dec Nat.eq_dec col cols) as [Hin | _]; [contradiction |].
      destruct (in_dec Nat.eq_dec col (col :: cols)) as [_ | Hn];
        [now rewrite app_nil_r | exfalso; apply Hn; now left].
    + cbn [map app].
      destruct (in_dec Nat.eq_dec r cols) as [Hin | Hnin],
        (in_dec Nat.eq_dec r (col :: cols)) as [Hin' | Hnin']; try reflexivity.
      * exfalso. apply Hnin'. now right.
      * exfalso. destruct Hin' as [-> | Hin']; [now apply Hne | now apply Hnin].
Qed.

(** A line can only be written if enough indices are available. *)
Lemma shuffle_lines_room (cols : list nat) (g : rng) (out : list E * rng) (col : nat) :
  In col cols ->
  shuffle_lines E major set_minor (seq 0 n) p_out entries cols g = inr out ->
  (length (line E major entries col) <= length (choice_support (seq 0 n) p_out col))%nat.
Proof.
  revert g out. induction cols as [|c cols IH]; intros g out Hin; [contradiction |].
  cbn [shuffle_lines].
  destruct (shuffle_line E major set_minor (seq 0 n) p_out entries c g) as [e | first] eqn:E1;
    [discriminate |].
  cbn [bind].
  destruct (shuffle_lines E major set_minor (seq 0 n) p_out entries cols (snd first))
    as [e | others] eqn:E2; [discriminate |].
  intros _. destruct Hin as [-> | Hin].
  - now apply shuffle_line_shape in E1 as (sample & _ & _ & _ & _ & H).
  - now apply (IH _ _ Hin E2).
Qed.

End ShuffleShape.

(** ** The degree-based control: what the shuffle keeps and what it writes *)

Lemma NoDup_nodup_coords (l : list (nat * nat)) : NoDup l -> nodup_coords l = true.
Proof.
  induction 1 as [|[r c] l Hnotin Hl IH]; [reflexivity |].
  cbn [nodup_coords fst snd]. rewrite IH, andb_true_r. apply negb_true_iff.
  apply not_true_is_false. intros H. apply existsb_exists in H as ([r' c'] & Hin & Heq).
  cbn [fst snd] in Heq. apply andb_prop in Heq as [H1 H2].
  apply Nat.eqb_eq in H1, H2. subst. contradiction.
Qed.

(** A positive probability comes from a positive mean, that is, from a
    positive sum. *)
Lemma mean_positive (z : Z) (n : nat) (s : npfloat) :
  0 <= z -> ltb (Fin 0) (div (true_divide z (Z.of_nat n)) s) = true -> 0 < z.
Proof.
  intros Hz H. destruct (Z.eq_dec z 0) as [-> | Hne]; [| lia]. exfalso.
  unfold true_divide, of_Z in H. cbn [div] in H.
  destruct (Qeq_bool (inject_Z (Z.of_nat n)) 0).
  - cbn in H. discriminate.
  - unfold fin in H. rewrite div_zero_not_positive in H; [discriminate |].
    rewrite Qred_correct. unfold Qdiv. apply Qmult_0_l.
Qed.

Section ControlShape.

Variable E : Type.
Variable major minor : E -> nat.
Variable set_minor : E -> nat -> E.
Hypothesis major_set_minor : forall e i, major (set_minor e i) = major e.
Hypothesis minor_set_minor : forall e i, minor (set_minor e i) = i.

Variable swapped : bool.
Variable coord : E -> nat * nat.
Hypothesis coord_spec :
  forall e, coord e = if swapped then (minor e, major e) else (major e, minor e).

Variable n : nat.
Variable sums : list Z.
Hypothesis sums_nonneg : Forall (fun d => 0 <= d) sums.

Variable entries : list E.
Variable g : rng.
Variable out : list E * rng.
Hypothesis shuffled :
  shuffle_lines E major set_minor (seq 0 n)
    (map (fun s => true_divide s (Z.of_nat n)) sums) entries (seq 0 n) g = inr out.

Lemma written_entries :
  Forall (fun e => (major e < n)%nat /\ (minor e < n)%nat /\ minor e <> major e
                   /\ 0 < nth (minor e) sums 0)
         (fst out).
Proof.
  pose proof (shuffle_lines_entries E major minor set_minor (fun _ => 0)
                major_set_minor minor_set_minor (fun _ _ => eq_refl) _ _ _ _ _ _ shuffled) as H.
  rewrite Forall_forall in H |- *. intros e He. destruct (H e He) as [Hmaj Hmin].
  apply in_seq in Hmaj. apply choice_support_spec in Hmin as (Hlt & Hne & x & Hx & Hpos).
  split; [lia |]. split; [exact Hlt |]. split; [exact Hne |].
  rewrite nth_error_map in Hx.
  destruct (nth_error sums (minor e)) as [z|] eqn:Ez; [| discriminate].
  cbn [option_map] in Hx. assert (Ex : x = true_divide z (Z.of_nat n)) by congruence. subst x.
  rewrite (nth_error_nth _ _ _ Ez). apply mean_positive in Hpos; [exact Hpos |].
  apply nth_error_In in Ez. now apply (proj1 (Forall_forall _ _) sums_nonneg).
Qed.

Lemma written_coords :
  forallb (fun rc => (fst rc <? n)%nat && (snd rc <? n)%nat) (map coord (fst out)) = true
  /\ nodup_coords (map coord (fst out)) = true
  /\ forallb (fun rc => negb (fst rc =? snd rc)%nat) (map coord (fst out)) = true
  /\ Forall (fun rc => 0 < nth (if swapped then fst rc else snd rc) sums 0)
            (map coord (fst out)).
Proof.
  pose proof written_entries as H. rewrite Forall_forall in H.
  pose proof (shuffle_lines_NoDup E major minor set_minor (fun _ => 0)
                major_set_minor minor_set_minor (fun _ _ => eq_refl) _ _ _ _ _ _
                (seq_NoDup n O) shuffled) as Hnd.
  split; [| split; [| split]].
  - apply forallb_forall. intros rc Hrc. apply in_map_iff in Hrc as (e & <- & He).
    destruct (H e He) as (H1 & H2 & _). rewrite coord_spec.
    destruct swapped; cbn [fst snd]; apply andb_true_intro; split; now apply Nat.ltb_lt.
  - apply NoDup_nodup_coords. destruct swapped.
    + apply (NoDup_map_inv (fun rc => (snd rc, fst rc))). rewrite map_map.
      rewrite (map_ext _ (fun e => (major e, minor e))); [exact Hnd |].
      intros e. now rewrite coord_spec.
    + rewrite (map_ext _ (fun e => (major e, minor e))); [exact Hnd |].
      intros e. now rewrite coord_spec.
  - apply forallb_forall. intros rc Hrc. apply in_map_iff in Hrc as (e & <- & He).
    destruct (H e He) as (_ & _ & H3 & _). rewrite coord_spec.
    destruct swapped; cbn [fst snd]; apply negb_true_iff, Nat.eqb_neq; congruence.
  - apply Forall_forall. intros rc Hrc. apply in_map_iff in Hrc as (e & <- & He).
    destruct (H e He) as (_ & _ & _ & H4). rewrite coord_spec.
    destruct swapped; exact H4.
Qed.

Variable val : E -> Z.
Hypothesis val_set_minor : forall e i, val (set_minor e i) = val e.

Lemma kept_sums :
  map (fun r => zsum (map val (line E major (fst out) r))) (seq 0 n)
  = map (fun r => zsum (map val (line E major entries r))) (seq 0 n).
Proof.
  apply map_ext_in. intros r Hr.
  rewrite (shuffle_lines_values E major minor set_minor val major_set_minor minor_set_minor
             val_set_minor _ _ _ _ _ _ r (seq_NoDup n O) shuffled).
  destruct (in_dec Nat.eq_dec r (seq 0 n)); [reflexivity | contradiction].
Qed.

Lemma room_needed (r : nat) :
  (r < n)%nat ->
  (length (line E major entries r)
   <= length (filter (fun c => negb (c =? r)%nat && (0 <? nth c sums 0)%Z) (seq 0 n)))%nat.
Proof.
  intros Hr.
  assert (Hin : In r (seq 0 n)) by (apply in_seq; lia).
  pose proof (shuffle_lines_room E major set_minor _ _ _ _ _ _ r Hin shuffled) as Hroom.
  etransitivity; [exact Hroom |].
  apply NoDup_incl_length; [apply NoDup_choice_support |].
  intros c Hc. apply choice_support_spec in Hc as (Hlt & Hne & x & Hx & Hpos).
  apply filter_In. split; [apply in_seq; lia |].
  apply andb_true_intro. split; [apply negb_true_iff, Nat.eqb_neq; exact Hne |].
  rewrite nth_error_map in Hx.
  destruct (nth_error sums c) as [z|] eqn:Ez; [| discriminate].
  cbn [option_map] in Hx. assert (Ex : x = true_divide z (Z.of_nat n)) by congruence. subst x.
  rewrite (nth_error_nth _ _ _ Ez). apply Z.ltb_lt. apply mean_positive in Hpos; [exact Hpos |].
  apply nth_error_In in Ez. now apply (proj1 (Forall_forall _ _) sums_nonneg).
Qed.

End ControlShape.

Lemma zsum_map_one {A : Type} (l : list A) : zsum (map (fun _ => 1) l) = Z.of_nat (length l).
Proof.
  induction l as [|a l IH]; [reflexivity |].
  cbn [map length]. change (zsum (1 :: ?r)) with (1 + zsum r). rewrite IH. lia.
Qed.

(** The shuffle writes as many entries as it reads inside the shape. *)
Lemma kept_count (E : Type) (major minor : E -> nat) (set_minor : E -> nat -> E)
    (n : nat) (sums : list Z) (entries : list E) (g : rng) (out : list E * rng) :
  (forall e i, major (set_minor e i) = major e) ->
  (forall e i, minor (set_minor e i) = i) ->
  Forall (fun d => 0 <= d) sums ->
  (forall e, In e entries -> (major e < n)%nat) ->
  shuffle_lines E major set_minor (seq 0 n)
    (map (fun s => true_divide s (Z.of_nat n)) sums) entries (seq 0 n) g = inr out ->
  length (fst out) = length entries.
Proof.
  intros Hmaj Hmin Hnn Hin Hout.
  pose proof (kept_sums E major minor set_minor Hmaj Hmin n sums entries g out Hout
                (fun _ => 1) (fun _ _ => eq_refl)) as Hk.
  apply (f_equal zsum) in Hk. unfold line in Hk.
  rewrite !(zsum_by_key major (fun _ => 1)) in Hk.
  - rewrite !zsum_map_one in Hk. lia.
  - exact Hin.
  - pose proof (written_entries E major minor set_minor Hmaj Hmin n sums Hnn entries g out Hout)
      as Hw.
    rewrite Forall_forall in Hw. intros e He. now apply Hw.
Qed.

Lemma simple_matrix (M' : spmatrix) (sums : list Z) (sw : bool) :
  forallb (fun rc => (fst rc <? size M')%nat && (snd rc <? size M')%nat) (coords M') = true
  /\ nodup_coords (coords M') = true
  /\ forallb (fun rc => negb (fst rc =? snd rc)%nat) (coords M') = true
  /\ Forall (fun rc => 0 < nth (if sw then fst rc else snd rc) sums 0) (coords M') ->
  canonical M' = true
  /\ forallb (fun rc => negb (fst rc =? snd rc)%nat) (coords M') = true
  /\ Forall (fun rc => 0 < nth (if sw then fst rc else snd rc) sums 0) (coords M').
Proof.
  intros (H1 & H2 & H3 & H4). unfold canonical, in_shape. rewrite H1, H2. now repeat split.
Qed.

(** X11.  Whatever matrix goes in and whatever the random source
    yields, the matrix that [generate_degree_based_control] returns is
    canonical (every index inside the shape, no position stored twice), has
    no entry on the diagonal, and every index it wrote belongs to a node
    whose degree across (the in-degree for efferent, the out-degree for
    afferent) is positive in the input. *)
Theorem degree_based_control_is_simple (M M' : spmatrix) (direction : string) (g g' : rng) :
  generate_degree_based_control M direction g = inr (M', g') ->
  canonical M' = true
  /\ forallb (fun rc => negb (fst rc =? snd rc)%nat) (coords M') = true
  /\ Forall (fun rc => 0 < nth (rewritten_end direction rc)
                               (degree_vector M (other_direction direction)) 0)
            (coords M').
Proof.
  unfold generate_degree_based_control. cbv zeta.
  destruct (sum_axis_nonneg M) as [Hn0 Hn1].
  destruct (String.eqb direction "efferent") eqn:Ee.
  - apply String.eqb_eq in Ee. subst direction.
    change (degree_vector M (other_direction "efferent")) with (sum_axis0 M).
    change (rewritten_end "efferent") with (fun rc : nat * nat => snd rc).
    destruct M as [n nz | n nz]; cbn [size].
    + destruct (shuffle_lines _ _ _ _ _ nz (seq 0 n) g) as [e | out] eqn:Eo; [discriminate |].
      cbn [bind]. intros [= <- <-]. apply (simple_matrix _ _ false).
      rewrite coords_bool. cbn [size].
      rewrite <- (map_id (fst out)).
      exact (written_coords (nat * nat) fst snd (fun e i => (fst e, i))
               (fun _ _ => eq_refl) (fun _ _ => eq_refl) false (fun e => e)
               (fun e => surjective_pairing e) n _ Hn0 nz g out Eo).
    + destruct (shuffle_lines _ _ _ _ _ nz (seq 0 n) g) as [e | out] eqn:Eo; [discriminate |].
      cbn [bind]. intros [= <- <-]. apply (simple_matrix _ _ false).
      rewrite coords_int. cbn [size].
      exact (written_coords (nat * nat * nat) (fun e => fst (fst e)) (fun e => snd (fst e))
               (fun e i => (fst (fst e), i, snd e))
               (fun _ _ => eq_refl) (fun _ _ => eq_refl) false fst
               (fun e => surjective_pairing (fst e)) n _ Hn0 nz g out Eo).
  - destruct (String.eqb direction "afferent") eqn:Ea; [| discriminate].
    apply String.eqb_eq in Ea. subst direction.
    change (degree_vector M (other_direction "afferent")) with (sum_axis1 M).
    change (rewritten_end "afferent") with (fun rc : nat * nat => fst rc).
    destruct M as [n nz | n nz]; cbn [size].
    + destruct (shuffle_lines _ _ _ _ _ nz (seq 0 n) g) as [e | out] eqn:Eo; [discriminate |].
      cbn [bind]. intros [= <- <-]. apply (simple_matrix _ _ true).
      rewrite coords_bool. cbn [size].
      rewrite <- (map_id (fst out)).
      exact (written_coords (nat * nat) snd fst (fun e i => (i, snd e))
               (fun _ _ => eq_refl) (fun _ _ => eq_refl) true (fun e => e)
               (fun e => surjective_pairing e) n _ Hn1 nz g out Eo).
    + destruct (shuffle_lines _ _ _ _ _ nz (seq 0 n) g) as [e | out] eqn:Eo; [discriminate |].
      cbn [bind]. intros [= <- <-]. apply (simple_matrix _ _ true).
      rewrite coords_int. cbn [size].
      exact (written_coords (nat * nat * nat) (fun e => snd (fst e)) (fun e => fst (fst e))
               (fun e i => (i, snd (fst e), snd e))
               (fun _ _ => eq_refl) (fun _ _ => eq_refl) true fst
               (fun e => surjective_pairing (fst e)) n _ Hn1 nz g out Eo).
Qed.

Lemma degree_based_control_is_simple_witness :
  canonical (BoolMatrix 3 [(0, 2); (1, 2); (2, 1)]%nat) = true
  /\ forallb (fun rc => negb (fst rc =? snd rc)%nat)
             (coords (BoolMatrix 3 [(0, 2); (1, 2); (2, 1)]%nat)) = true
  /\ Forall (fun rc => 0 < nth (rewritten_end "efferent" rc)
                               (degree_vector triangle3 (other_direction "efferent")) 0)
            (coords (BoolMatrix 3 [(0, 2); (1, 2); (2, 1)]%nat)).
Proof.
  apply (degree_based_control_is_simple triangle3 (BoolMatrix 3 [(0, 2); (1, 2); (2, 1)]%nat)
           "efferent" [1; 0; 0]%nat []).
  vm_compute. reflexivity.
Defined.

Lemma axis_sums_lines {E : Type} (tocell : E -> nat * nat * Z) (key : nat * nat * Z -> nat)
    (l : list E) (n : nat) :
  map (fun r => zsum (map cell_val (filter (fun c => (key c =? r)%nat) (map tocell l))))
      (seq 0 n)
  = map (fun r => zsum (map (fun e => cell_val (tocell e))
                            (line E (fun e => key (tocell e)) l r)))
        (seq 0 n).
Proof.
  apply map_ext. intros r. now rewrite filter_map_swap, map_map.
Qed.

Lemma nnz_bool (n : nat) (nz : list (nat * nat)) : nnz (BoolMatrix n nz) = length nz.
Proof. unfold nnz, cells. apply length_map. Qed.

Lemma nnz_int (n : nat) (nz : list (nat * nat * nat)) : nnz (IntMatrix n nz) = length nz.
Proof. unfold nnz, cells. apply length_map. Qed.

(** X10.  The control keeps the shape, the dtype and the degree
    vector of the shuffled direction, weights included (row sums for efferent,
    column sums for afferent), and, for an input inside its shape, the number
    of stored entries; hence the Gini curve and the Gini coefficient of that
    direction are those of the input. *)
Theorem degree_based_control_keeps_degrees {NRN : Type} (M M' : spmatrix) (nrn : NRN)
    (direction : string) (g g' : rng) :
  generate_degree_based_control M direction g = inr (M', g') ->
  size M' = size M
  /\ dtype_is_bool M' = dtype_is_bool M
  /\ degree_vector M' direction = degree_vector M direction
  /\ (in_shape M = true -> nnz M' = nnz M)
  /\ gini_curve M' nrn direction = gini_curve M nrn direction
  /\ gini_coefficient M' nrn direction = gini_coefficient M nrn direction.
Proof.
  intros Hgen.
  destruct (sum_axis_nonneg M) as [Hn0 Hn1].
  assert (Hdeg : size M' = size M /\ dtype_is_bool M' = dtype_is_bool M
                 /\ degree_vector M' direction = degree_vector M direction
                 /\ (in_shape M = true -> nnz M' = nnz M)
                 /\ (direction = "efferent"%string \/ direction = "afferent"%string)).
  { revert Hgen. unfold generate_degree_based_control. cbv zeta.
    destruct (String.eqb direction "efferent") eqn:Ee.
    - apply String.eqb_eq in Ee. subst direction.
      change (degree_vector M' "efferent") with (sum_axis1 M').
      change (degree_vector M "efferent") with (sum_axis1 M).
      destruct M as [n nz | n nz]; cbn [size].
      + destruct (shuffle_lines _ _ _ _ _ nz (seq 0 n) g) as [e | out] eqn:Eo; [discriminate |].
        cbn [bind]. intros [= <- <-].
        split; [reflexivity |]. split; [reflexivity |]. split; [| split; [| now left]].
        * unfold sum_axis1, cells. cbn [size].
          rewrite !(axis_sums_lines (fun rc : nat * nat => (fst rc, snd rc, 1)) cell_row).
          exact (kept_sums (nat * nat) fst snd (fun e i => (fst e, i))
                   (fun _ _ => eq_refl) (fun _ _ => eq_refl) n _ nz g out Eo
                   (fun _ => 1) (fun _ _ => eq_refl)).
        * intros Hs. rewrite !nnz_bool.
          apply (kept_count (nat * nat) fst snd (fun e i => (fst e, i)) n _ nz g out
                   (fun _ _ => eq_refl) (fun _ _ => eq_refl) Hn0); [| exact Eo].
          intros e He. now apply (in_shape_bool n nz Hs).
      + destruct (shuffle_lines _ _ _ _ _ nz (seq 0 n) g) as [e | out] eqn:Eo; [discriminate |].
        cbn [bind]. intros [= <- <-].
        split; [reflexivity |]. split; [reflexivity |]. split; [| split; [| now left]].
        * unfold sum_axis1, cells. cbn [size].
          rewrite !(axis_sums_lines
                      (fun e : nat * nat * nat => (fst (fst e), snd (fst e), Z.of_nat (snd e)))
                      cell_row).
          exact (kept_sums (nat * nat * nat) (fun e => fst (fst e)) (fun e => snd (fst e))
                   (fun e i => (fst (fst e), i, snd e))
                   (fun _ _ => eq_refl) (fun _ _ => eq_refl) n _ nz g out Eo
                   (fun e => Z.of_nat (snd e)) (fun _ _ => eq_refl)).
        * intros Hs. rewrite !nnz_int.
          apply (kept_count (nat * nat * nat) (fun e => fst (fst e)) (fun e => snd (fst e))
                   (fun e i => (fst (fst e), i, snd e)) n _ nz g out
                   (fun _ _ => eq_refl) (fun _ _ => eq_refl) Hn0); [| exact Eo].
          intros e He. now apply (in_shape_int n nz Hs).
    - destruct (String.eqb direction "afferent") eqn:Ea; [| discriminate].
      apply String.eqb_eq in Ea. subst direction.
      change (degree_vector M' "afferent") with (sum_axis0 M').
      change (degree_vector M "afferent") with (sum_axis0 M).
      destruct M as [n nz | n nz]; cbn [size].
      + destruct (shuffle_lines _ _ _ _ _ nz (seq 0 n) g) as [e | out] eqn:Eo; [discriminate |].
        cbn [bind]. intros [= <- <-].
        split; [reflexivity |]. split; [reflexivity |]. split; [| split; [| now right]].
        * unfold sum_axis0, cells. cbn [size].
          rewrite !(axis_sums_lines (fun rc : nat * nat => (fst rc, snd rc, 1)) cell_col).
          exact (kept_sums (nat * nat) snd fst (fun e i => (i, snd e))
                   (fun _ _ => eq_refl) (fun _ _ => eq_refl) n _ nz g out Eo
                   (fun _ => 1) (fun _ _ => eq_refl)).
        * intros Hs. rewrite !nnz_bool.
          apply (kept_count (nat * nat) snd fst (fun e i => (i, snd e)) n _ nz g out
                   (fun _ _ => eq_refl) (fun _ _ => eq_refl) Hn1); [| exact Eo].
          intros e He. now apply (in_shape_bool n nz Hs).
      + destruct (shuffle_lines _ _ _ _ _ nz (seq 0 n) g) as [e | out] eqn:Eo; [discriminate |].
        cbn [bind]. intros [= <- <-].
        split; [reflexivity |]. split; [reflexivity |]. split; [| split; [| now right]].
        * unfold sum_axis0, cells. cbn [size].
          rewrite !(axis_sums_lines
                      (fun e : nat * nat * nat => (fst (fst e), snd (fst e), Z.of_nat (snd e)))
                      cell_col).
          exact (kept_sums (nat * nat * nat) (fun e => snd (fst e)) (fun e => fst (fst e))
                   (fun e i => (i, snd (fst e), snd e))
                   (fun _ _ => eq_refl) (fun _ _ => eq_refl) n _ nz g out Eo
                   (fun e => Z.of_nat (snd e)) (fun _ _ => eq_refl)).
        * intros Hs. rewrite !nnz_int.
          apply (kept_count (nat * nat * nat) (fun e => snd (fst e)) (fun e => fst (fst e))
                   (fun e i => (i, snd (fst e), snd e)) n _ nz g out
                   (fun _ _ => eq_refl) (fun _ _ => eq_refl) Hn1); [| exact Eo].
          intros e He. now apply (in_shape_int n nz Hs). }
  destruct Hdeg as (Hs & Hb & Hd & Hnnz & Hdir).
  split; [exact Hs |]. split; [exact Hb |]. split; [exact Hd |]. split; [exact Hnnz |].
  assert (Hc : gini_curve M' nrn direction = gini_curve M nrn direction).
  { unfold gini_curve. destruct Hdir as [-> | ->].
    - change (sum_axis1 M') with (degree_vector M' "efferent"). now rewrite Hd.
    - change (sum_axis0 M') with (degree_vector M' "afferent"). now rewrite Hd. }
  split; [exact Hc |]. unfold gini_coefficient. now rewrite Hc.
Qed.

Lemma degree_based_control_keeps_degrees_witness :
  size (BoolMatrix 3 [(0, 2); (1, 2); (2, 1)]%nat) = size triangle3
  /\ dtype_is_bool (BoolMatrix 3 [(0, 2); (1, 2); (2, 1)]%nat) = dtype_is_bool triangle3
  /\ degree_vector (BoolMatrix 3 [(0, 2); (1, 2); (2, 1)]%nat) "efferent"
     = degree_vector triangle3 "efferent"
  /\ (in_shape triangle3 = true
      -> nnz (BoolMatrix 3 [(0, 2); (1, 2); (2, 1)]%nat) = nnz triangle3)
  /\ gini_curve (BoolMatrix 3 [(0, 2); (1, 2); (2, 1)]%nat) tt "efferent"
     = gini_curve triangle3 tt "efferent"
  /\ gini_coefficient (BoolMatrix 3 [(0, 2); (1, 2); (2, 1)]%nat) tt "efferent"
     = gini_coefficient triangle3 tt "efferent".
Proof.
  apply (degree_based_control_keeps_degrees triangle3
           (BoolMatrix 3 [(0, 2); (1, 2); (2, 1)]%nat) tt "efferent" [1; 0; 0]%nat []).
  vm_compute. reflexivity.
Defined.

Lemma degree_based_control_error (M : spmatrix) (direction : string) (g : rng) (e : exn) :
  generate_degree_based_control M direction g = inl e -> exists msg, e = ValueError msg.
Proof.
  unfold generate_degree_based_control. cbv zeta.
  destruct (String.eqb direction "efferent");
    [| destruct (String.eqb direction "afferent"); [| intros [= <-]; eauto]];
    destruct M as [n nz | n nz]; cbn [size];
    (destruct (shuffle_lines _ _ _ _ _ nz (seq 0 n) g) as [e' | out] eqn:Eo;
     [| discriminate]);
    cbn [bind]; intros [= <-]; now apply shuffle_lines_error in Eo.
Qed.

(** X12.  [generate_degree_based_control] raises [ValueError] when
    some line holds more entries than there are other nodes of positive degree
    across to sample from (sampling is without replacement and excludes the
    line's own index). *)
Theorem degree_based_control_needs_candidates (M : spmatrix) (direction : string) (g : rng)
    (r : nat) :
  direction = "efferent"%string \/ direction = "afferent"%string ->
  (r < size M)%nat ->
  (length (candidates M direction r) < line_nnz M direction r)%nat ->
  exists msg, generate_degree_based_control M direction g = inl (ValueError msg).
Proof.
  intros Hd Hr Hfew.
  destruct (generate_degree_based_control M direction g) as [e | [M' g']] eqn:Egen.
  { apply degree_based_control_error in Egen as (msg & ->). now exists msg. }
  exfalso. revert Egen. unfold generate_degree_based_control. cbv zeta.
  destruct (sum_axis_nonneg M) as [Hn0 Hn1].
  unfold candidates, line_nnz, row_nnz, col_nnz in Hfew.
  destruct Hd as [-> | ->].
  - change (String.eqb "efferent" "efferent") with true in *. cbv iota in *.
    change (degree_vector M (other_direction "efferent")) with (sum_axis0 M) in Hfew.
    destruct M as [n nz | n nz]; cbn [size] in *.
    + destruct (shuffle_lines _ _ _ _ _ nz (seq 0 n) g) as [e | out] eqn:Eo; [discriminate |].
      intros _. rewrite coords_bool in Hfew.
      pose proof (room_needed (nat * nat) fst (fun e i => (fst e, i)) n _ Hn0 nz g out Eo r Hr)
        as Hroom.
      unfold line in Hroom. lia.
    + destruct (shuffle_lines _ _ _ _ _ nz (seq 0 n) g) as [e | out] eqn:Eo; [discriminate |].
      intros _. rewrite coords_int, length_filter_map in Hfew.
      pose proof (room_needed (nat * nat * nat) (fun e => fst (fst e))
                    (fun e i => (fst (fst e), i, snd e)) n _ Hn0 nz g out Eo r Hr) as Hroom.
      unfold line in Hroom. lia.
  - change (String.eqb "afferent" "efferent") with false in *.
    change (String.eqb "afferent" "afferent") with true in *. cbv iota in *.
    change (degree_vector M (other_direction "afferent")) with (sum_axis1 M) in Hfew.
    destruct M as [n nz | n nz]; cbn [size] in *.
    + destruct (shuffle_lines _ _ _ _ _ nz (seq 0 n) g) as [e | out] eqn:Eo; [discriminate |].
      intros _. rewrite coords_bool in Hfew.
      pose proof (room_needed (nat * nat) snd (fun e i => (i, snd e)) n _ Hn1 nz g out Eo r Hr)
        as Hroom.
      unfold line in Hroom. lia.
    + destruct (shuffle_lines _ _ _ _ _ nz (seq 0 n) g) as [e | out] eqn:Eo; [discriminate |].
      intros _. rewrite coords_int, length_filter_map in Hfew.
      pose proof (room_needed (nat * nat * nat) (fun e => snd (fst e))
                    (fun e i => (i, snd (fst e), snd e)) n _ Hn1 nz g out Eo r Hr) as Hroom.
      unfold line in Hroom. lia.
Qed.

Lemma degree_based_control_needs_candidates_witness :
  exists msg,
    generate_degree_based_control (BoolMatrix 2 [(0, 0); (0, 1)]%nat) "efferent" [] 
    = inl (ValueError msg).
Proof.
  apply (degree_based_control_needs_candidates (BoolMatrix 2 [(0, 0); (0, 1)]%nat)
           "efferent" [] 0%nat); [now left | simpl; lia | vm_compute; lia].
Defined.

(** ** The rich-club coefficient *)

(** X13.  [rich_club_coefficient] calls
    [normalized_rich_club_curve(m, normalize='std', **kwargs)] without the
    required argument [nrn]; [kwargs] cannot hold it, since [nrn] is a named
    parameter of [rich_club_coefficient].  Every call raises [TypeError]. *)
Theorem rich_club_coefficient_raises
    (hypergeom_stats : Z -> Z -> Z -> npfloat * npfloat)
    (np_sqrt : npfloat -> npfloat)
    (pd_concat : list (series Z npfloat) -> series Z (list npfloat))
    {NRN : Type} (m : spmatrix) (nrn : NRN) (kwargs : keywords) (g : rng) :
  keyword "nrn" kwargs = None ->
  rich_club_coefficient hypergeom_stats np_sqrt pd_concat m nrn kwargs g = inl TypeError.
Proof.
  intros Hnrn. unfold rich_club_coefficient, merge_keywords.
  destruct (existsb _ kwargs); [reflexivity |]. cbn [bind].
  unfold call_normalized_rich_club_curve.
  destruct (existsb _ _); [reflexivity |].
  replace (keyword "nrn" ([("normalize", "std")]%string ++ kwargs)) with (keyword "nrn" kwargs)
    by reflexivity.
  now rewrite Hnrn.
Qed.

Lemma rich_club_coefficient_raises_witness :
  rich_club_coefficient (fun _ _ _ => (NaN, NaN)) (fun x => x) (fun _ => [])
    example4 tt [("direction", "afferent"); ("normalize_with", "analytical")]%string []
  = inl TypeError.
Proof.
  apply (rich_club_coefficient_raises (fun _ _ _ => (NaN, NaN)) (fun x => x) (fun _ => [])
           example4 tt [("direction", "afferent"); ("normalize_with", "analytical")]%string []).
  reflexivity.
Defined.

(** ** The bipolar matrix is antisymmetric *)

Lemma np_sign_values (x : npfloat) :
  np_sign x = NaN \/ np_sign x = Fin (-1) \/ np_sign x = Fin 0 \/ np_sign x = Fin 1.
Proof.
  destruct x as [| | |[[|p|p] d]]; cbn; auto.
Qed.

Lemma opp_np_sign_sub (s t : npfloat) : opp (np_sign (sub s t)) = np_sign (sub t s).
Proof.
  destruct s as [| | |a], t as [| | |b]; try reflexivity.
  rewrite !np_sign_sub_compare, <- (Qcompare_antisym a b).
  destruct (a ?= b)%Q; reflexivity.
Qed.

(** X14.  Every entry of the bipolar matrix is -1, 0, 1 or [nan];
    exchanging sources and targets flips the sign; a neuron of finite depth
    has 0 against itself. *)
Theorem bipolar_matrix_antisymmetric (src tgt : list npfloat) (i j : nat) :
  (i < length src)%nat -> (j < length tgt)%nat ->
  (d_get (compute_bip_matrix src tgt) i j = NaN
   \/ d_get (compute_bip_matrix src tgt) i j = Fin (-1)
   \/ d_get (compute_bip_matrix src tgt) i j = Fin 0
   \/ d_get (compute_bip_matrix src tgt) i j = Fin 1)
  /\ d_get (compute_bip_matrix tgt src) j i = opp (d_get (compute_bip_matrix src tgt) i j)
  /\ (forall a, nth i src NaN = Fin a -> d_get (compute_bip_matrix src src) i i = Fin 0).
Proof.
  intros Hi Hj. rewrite !d_get_compute_bip_matrix by assumption.
  split; [apply np_sign_values |]. split; [symmetry; apply opp_np_sign_sub |].
  intros a Ha. rewrite Ha, np_sign_sub_compare.
  now rewrite (proj1 (Qeq_alt a a) (Qeq_refl a)).
Qed.

Lemma bipolar_matrix_antisymmetric_witness :
  (d_get (compute_bip_matrix [Fin 0; Fin 5] [Fin 5; Fin 2]) 0 1 = NaN
   \/ d_get (compute_bip_matrix [Fin 0; Fin 5] [Fin 5; Fin 2]) 0 1 = Fin (-1)
   \/ d_get (compute_bip_matrix [Fin 0; Fin 5] [Fin 5; Fin 2]) 0 1 = Fin 0
   \/ d_get (compute_bip_matrix [Fin 0; Fin 5] [Fin 5; Fin 2]) 0 1 = Fin 1)
  /\ d_get (compute_bip_matrix [Fin 5; Fin 2] [Fin 0; Fin 5]) 1 0
     = opp (d_get (compute_bip_matrix [Fin 0; Fin 5] [Fin 5; Fin 2]) 0 1)
  /\ (forall a, nth 0%nat [Fin 0; Fin 5] NaN = Fin a ->
                d_get (compute_bip_matrix [Fin 0; Fin 5] [Fin 0; Fin 5]) 0 0 = Fin 0).
Proof.
  apply (bipolar_matrix_antisymmetric [Fin 0; Fin 5] [Fin 5; Fin 2] 0 1); simpl; lia.
Defined.

(** ** Connection probabilities of a boolean adjacency matrix *)

Lemma zsum_map_bounds {A : Type} (f : A -> Z) (l : list A) :
  (forall x, In x l -> 0 <= f x <= 1) -> 0 <= zsum (map f l) <= Z.of_nat (length l).
Proof.
  induction l as [|a l IH]; intros H; [cbn; lia |].
  cbn [map length]. change (zsum (f a :: map f l)) with (f a + zsum (map f l)).
  specialize (IH (fun x Hx => H x (or_intror Hx))).
  specialize (H a (or_introl eq_refl)). lia.
Qed.

(** A canonical boolean matrix has the entries 0 and 1. *)
Lemma adjacency_of_bool_bounds (n : nat) (nz : list (nat * nat)) (s t : nat) :
  canonical (BoolMatrix n nz) = true ->
  0 <= adj_get (adjacency_of (BoolMatrix n nz)) s t <= 1.
Proof.
  intros Hcan. unfold canonical in Hcan. apply andb_prop in Hcan as [_ Hnd].
  rewrite coords_bool in Hnd. apply nodup_coords_NoDup in Hnd.
  cbn [adjacency_of adj_get cells]. rewrite filter_map_swap, map_map.
  cbn [cell_val cell_row cell_col fst snd].
  set (hits := filter _ nz).
  assert (Hone : (length hits <= 1)%nat).
  { assert (Hnd' : NoDup hits) by now apply NoDup_filter.
    assert (Hin : incl hits [(s, t)]).
    { intros [r c] Hrc. apply filter_In in Hrc as [_ Hrc]. cbn [fst snd] in Hrc.
      apply andb_prop in Hrc as [H1 H2]. apply Nat.eqb_eq in H1, H2. subst. now left. }
    apply (NoDup_incl_length Hnd' Hin). }
  pose proof (zsum_map_bounds (fun _ : nat * nat => 1) hits ltac:(intros; lia)). lia.
Qed.

(** X15.  For an adjacency matrix with entries 0 and 1 the counts
    returned by [extract_dependent_p_conn] satisfy
    [0 <= count_conn <= count_all] in every bin, and every probability is a
    number between 0 and 1. *)
Theorem probabilities_in_unit_interval (adj_matrix : adjacency)
    (dep_matrices : list dense) (dep_bins : list (list npfloat))
    (p : list npfloat) (cc ca : list Z) :
  (forall s t, 0 <= adj_get adj_matrix s t <= 1) ->
  extract_dependent_p_conn adj_matrix dep_matrices dep_bins = inr (p, cc, ca) ->
  length cc = length ca
  /\ length p = length ca
  /\ (forall i c a, nth_error cc i = Some c -> nth_error ca i = Some a -> 0 <= c <= a)
  /\ Forall (fun x => exists q, x = Fin q /\ (0 <= q <= 1)%Q) p.
Proof.
  intros Hadj. unfold extract_dependent_p_conn.
  destruct (negb _); [discriminate |].
  destruct (negb _); [discriminate |].
  destruct (existsb _ _); [discriminate |].
  set (idxs := product _).
  intros [= <- <- <-].
  assert (Hb : forall idx,
             0 <= zsum (map (fun st => adj_get adj_matrix (fst st) (snd st))
                            (selected (adj_shape adj_matrix) dep_matrices dep_bins idx))
               <= Z.of_nat (length (selected (adj_shape adj_matrix) dep_matrices dep_bins idx))).
  { intros idx. apply zsum_map_bounds. intros st _. apply Hadj. }
  split; [now rewrite !length_map |]. split.
  { rewrite zip_with_map_same. now rewrite !length_map. }
  split.
  - intros i c a Hc Ha. rewrite nth_error_map in Hc, Ha.
    destruct (nth_error idxs i) as [idx|]; [| discriminate].
    cbn [option_map] in Hc, Ha. injection Hc as <-. injection Ha as <-. apply Hb.
  - rewrite zip_with_map_same, map_map. apply Forall_forall. intros x Hx.
    apply in_map_iff in Hx as (idx & <- & _). specialize (Hb idx).
    set (c := zsum _) in *. set (a := Z.of_nat _) in *.
    destruct (Z.eq_dec a 0) as [E | E].
    + rewrite E in *. replace c with 0 by lia. exists 0%Q. split; [reflexivity | lra].
    + pose proof (represents_true_divide c a E) as Hr.
      apply represents_ex in Hr as (q & Hq & Eq). rewrite Hq. exists q.
      split; [reflexivity |]. rewrite Eq. apply Qdiv_Z_bounds; lia.
Qed.

Lemma probabilities_in_unit_interval_witness :
  length [0; 1; 2] = length [0; 2; 4]
  /\ length [Fin 0; Fin (1 # 2); Fin (1 # 2)] = length [0; 2; 4]
  /\ (forall i c a, nth_error [0; 1; 2] i = Some c -> nth_error [0; 2; 4] i = Some a ->
                    0 <= c <= a)
  /\ Forall (fun x => exists q, x = Fin q /\ (0 <= q <= 1)%Q)
            [Fin 0; Fin (1 # 2); Fin (1 # 2)].
Proof.
  apply (probabilities_in_unit_interval adj3
           [compute_dist_matrix Q line_distance (map fst line3) (map fst line3)]
           [[Fin 0; Fin 1; Fin 2; Fin 3]]).
  - intros s t. apply adjacency_of_bool_bounds. reflexivity.
  - vm_compute. reflexivity.
Defined.

(** ** The chunks of rows *)

Lemma length_np_split_from {A : Type} (start : nat) (ary : list A) (points : list nat) :
  length (np_split_from start ary points) = S (length points).
Proof.
  revert start. induction points as [|p points IH]; intros start; [reflexivity |].
  cbn [np_split_from length]. now rewrite IH.
Qed.

Lemma chunk_lengths (chunk N a len start : nat) :
  (a * chunk <= start + chunk)%nat -> (N <= (a + len) * chunk)%nat ->
  (start <= a * chunk)%nat ->
  Forall (fun c => (length c <= chunk)%nat)
         (np_split_from start (seq 0 N) (map (fun j => (j * chunk)%nat) (seq a len))).
Proof.
  revert a start. induction len as [|len IH]; intros a start H1 H2 H3.
  - cbn [seq map np_split_from]. constructor; [| constructor].
    rewrite length_skipn, length_seq. nia.
  - cbn [seq map np_split_from]. constructor.
    + rewrite length_firstn. lia.
    + apply IH; nia.
Qed.

(** X18.  The split of the row indices used by [extract_2nd_order] and
    [extract_3rd_order] has exactly [N_split] chunks, the chunks in order make
    up [0 .. N-1], and no chunk has more than [ceil(N / N_split)] rows. *)
Theorem split_indices_partition (N N_split : nat) :
  (1 <= N_split)%nat ->
  length (split_indices N N_split) = N_split
  /\ concat (split_indices N N_split) = seq 0 N
  /\ Forall (fun c => (length c <= (N + N_split - 1) / N_split)%nat)
            (split_indices N N_split).
Proof.
  intros Hk. split; [| split].
  - unfold split_indices, np_split. rewrite length_np_split_from, length_map, length_seq. lia.
  - apply concat_split_indices.
  - unfold split_indices, np_split. cbv zeta.
    set (chunk := ((N + N_split - 1) / N_split)%nat).
    apply chunk_lengths; [lia | | lia].
    replace (1 + (N_split - 1))%nat with N_split by lia.
    pose proof (Nat.div_mod (N + N_split - 1) N_split ltac:(lia)) as Hdm.
    pose proof (Nat.mod_upper_bound (N + N_split - 1) N_split ltac:(lia)) as Hm.
    fold chunk in Hdm. nia.
Qed.

Lemma split_indices_partition_witness :
  length (split_indices 7 3) = 3%nat
  /\ concat (split_indices 7 3) = seq 0 7
  /\ Forall (fun c => (length c <= (7 + 3 - 1) / 3)%nat) (split_indices 7 3).
Proof.
  apply (split_indices_partition 7 3). lia.
Defined.

(** ** Every pair falls into at most one bin *)

Lemma filter_flat_map {A B : Type} (f : B -> bool) (g : A -> list B) (l : list A) :
  filter f (flat_map g l) = flat_map (fun x => filter f (g x)) l.
Proof.
  induction l as [|a l IH]; [reflexivity |].
  cbn [flat_map]. now rewrite filter_app, IH.
Qed.

Lemma selected_filter (shape : nat * nat) (deps : list dense) (bins : list (list npfloat))
    (idx : list nat) :
  selected shape deps bins idx
  = filter (fun st => dep_sel deps bins idx (fst st) (snd st)) (all_pairs shape).
Proof.
  unfold selected, all_pairs. rewrite filter_flat_map. apply flat_map_ext. intros s.
  now rewrite filter_map_swap.
Qed.

Lemma zsum_indicator_count {I : Type} (p : I -> bool) (l : list I) :
  zsum (map (fun i => if p i then 1 else 0) l) = Z.of_nat (length (filter p l)).
Proof.
  induction l as [|i l IH]; [reflexivity |].
  cbn [map filter]. change (zsum (?a :: ?r)) with (a + zsum r). rewrite IH.
  destruct (p i); cbn [length]; lia.
Qed.

(** Counting the hits bin by bin is counting them element by element. *)
Lemma count_swap {A I : Type} (P : I -> A -> bool) (L : list A) (Is : list I) :
  zsum (map (fun i => Z.of_nat (length (filter (P i) L))) Is)
  = zsum (map (fun x => Z.of_nat (length (filter (fun i => P i x) Is))) L).
Proof.
  induction L as [|x L IH].
  - cbn [filter length map]. apply zsum_map_zero.
  - cbn [map]. change (zsum (?a :: ?r)) with (a + zsum r). rewrite <- IH.
    rewrite <- zsum_indicator_count, <- zsum_map_add. f_equal. apply map_ext. intros i.
    cbn [filter]. destruct (P i x); cbn [length]; lia.
Qed.

Lemma ltb_negb_leb (x b : npfloat) :
  isnan x = false -> isnan b = false -> ltb x b = negb (leb b x).
Proof. destruct x, b; intros Hx Hb; try discriminate; reflexivity. Qed.

Lemma edges_sorted_last (a : npfloat) (l : list npfloat) :
  edges_sorted (a :: l) -> l <> [] -> leb a (last (a :: l) NaN) = true.
Proof.
  revert a. induction l as [|b l IH]; intros a Hs Hne; [congruence |].
  destruct Hs as [Hab Hs]. destruct l as [|c l]; [exact Hab |].
  apply (leb_trans a b); [exact Hab |].
  change (last (a :: b :: c :: l) NaN) with (last (b :: c :: l) NaN).
  apply IH; [exact Hs | discriminate].
Qed.

Lemma in_bin_tail (e0 : npfloat) (l : list npfloat) (i : nat) (x : npfloat) :
  in_bin (e0 :: l) (S i) x = in_bin l i x.
Proof.
  unfold in_bin. cbn [nth Nat.add length].
  replace (Z.of_nat (S i) <? Z.of_nat (S (length l)) - 1 - 1)
    with (Z.of_nat i <? Z.of_nat (length l) - 1 - 1); [reflexivity |].
  destruct (Z.ltb_spec (Z.of_nat i) (Z.of_nat (length l) - 1 - 1)),
    (Z.ltb_spec (Z.of_nat (S i)) (Z.of_nat (S (length l)) - 1 - 1)); lia || reflexivity.
Qed.

Lemma filter_length_seq_S (f : nat -> bool) (n : nat) :
  length (filter f (seq 0 (S n)))
  = ((if f O then 1 else 0) + length (filter (fun i => f (S i)) (seq 0 n)))%nat.
Proof.
  rewrite <- cons_seq, <- seq_shift. cbn [filter].
  rewrite filter_map_swap. destruct (f O); cbn [length]; now rewrite length_map.
Qed.

(** A value between the first and the last edge is in exactly one bin; any
    other value is in none. *)
Lemma one_bin (l : list npfloat) (x : npfloat) :
  edges_sorted l -> (2 <= length l)%nat ->
  length (filter (fun i => in_bin l i x) (seq 0 (length l - 1)))
  = if geb x (hd NaN l) && leb x (last l NaN) then 1%nat else 0%nat.
Proof.
  induction l as [|e0 l IH]; intros Hs Hlen; [cbn in Hlen; lia |].
  destruct l as [|e1 rest]; [cbn in Hlen; lia |].
  replace (length (e0 :: e1 :: rest) - 1)%nat with (S (length rest)) by (cbn; lia).
  rewrite filter_length_seq_S.
  rewrite (filter_ext _ (fun i => in_bin (e1 :: rest) i x))
    by (intros i; apply in_bin_tail).
  destruct Hs as [H01 Hs]. cbn [hd].
  change (last (e0 :: e1 :: rest) NaN) with (last (e1 :: rest) NaN).
  destruct rest as [|e2 rest].
  - cbn [seq filter length last Nat.add]. unfold in_bin. cbn [nth Nat.add length].
    change (Z.of_nat 0 <? Z.of_nat 2 - 1 - 1) with false. cbv iota.
    destruct (geb x e0 && leb x e1); reflexivity.
  - specialize (IH Hs ltac:(cbn; lia)).
    replace (length (e1 :: e2 :: rest) - 1)%nat with (S (length rest)) in IH by (cbn; lia).
    cbn [length]. rewrite IH. cbn [hd].
    pose proof (edges_sorted_last e1 (e2 :: rest) Hs ltac:(discriminate)) as H1l.
    set (lst := last (e1 :: e2 :: rest) NaN) in *.
    unfold in_bin. cbn [nth Nat.add length].
    replace (Z.of_nat 0 <? Z.of_nat (S (S (S (length rest)))) - 1 - 1) with true
      by (symmetry; apply Z.ltb_lt; lia).
    cbv iota. unfold geb.
    destruct (isnan x) eqn:Ex.
    { destruct x; try discriminate. destruct e0, e1; reflexivity. }
    destruct (leb_not_nan _ _ H01) as [N0 N1].
    rewrite (ltb_negb_leb x e1 Ex N1).
    destruct (leb e1 x) eqn:E1.
    + rewrite (leb_trans e0 e1 x H01 E1). cbn [negb andb].
      destruct (leb x lst); reflexivity.
    + apply (leb_total e1 x N1 Ex) in E1.
      rewrite (leb_trans x e1 lst E1 H1l). cbn [negb andb].
      destruct (leb e0 x); reflexivity.
Qed.

Lemma flat_map_singleton {A B : Type} (f : A -> B) (l : list A) :
  flat_map (fun x => [f x]) l = map f l.
Proof. induction l as [|a l IH]; [reflexivity | cbn; now rewrite IH]. Qed.

Lemma single_dependency_partition (adj_matrix : adjacency) (d : dense)
    (bins : list npfloat) (p : list npfloat) (cc ca : list Z) :
  edges_sorted bins -> (2 <= length bins)%nat ->
  extract_dependent_p_conn adj_matrix [d] [bins] = inr (p, cc, ca) ->
  zsum ca
  = Z.of_nat (length (filter (fun st => geb (d_get d (fst st) (snd st)) (hd NaN bins)
                                       && leb (d_get d (fst st) (snd st)) (last bins NaN))
                             (all_pairs (adj_shape adj_matrix))))
  /\ zsum cc
     = zsum (map (fun st => adj_get adj_matrix (fst st) (snd st))
                 (filter (fun st => geb (d_get d (fst st) (snd st)) (hd NaN bins)
                                    && leb (d_get d (fst st) (snd st)) (last bins NaN))
                         (all_pairs (adj_shape adj_matrix)))).
Proof.
  intros Hs Hlen. unfold extract_dependent_p_conn.
  destruct (negb _); [discriminate |].
  destruct (negb _); [discriminate |].
  destruct (existsb _ _); [discriminate |].
  intros [= _ <- <-]. cbn [map product flat_map].
  replace (Z.to_nat (Z.of_nat (length bins) - 1)) with (length bins - 1)%nat by lia.
  rewrite (flat_map_singleton (fun x : nat => [x])).
  set (K := (length bins - 1)%nat).
  set (L := all_pairs (adj_shape adj_matrix)).
  assert (Hsel : forall i, selected (adj_shape adj_matrix) [d] [bins] [i]
                           = filter (fun st => in_bin bins i (d_get d (fst st) (snd st))) L).
  { intros i. rewrite selected_filter. apply filter_ext. intros st.
    unfold dep_sel. cbn [combine forallb fst snd]. apply andb_true_r. }
  rewrite !map_map. split.
  - rewrite (map_ext _ (fun i => Z.of_nat (length (filter (fun st => in_bin bins i
                                   (d_get d (fst st) (snd st))) L))))
      by (intros i; now rewrite Hsel).
    rewrite (count_swap (fun i st => in_bin bins i (d_get d (fst st) (snd st))) L (seq 0 K)).
    rewrite <- zsum_indicator_count. f_equal. apply map_ext. intros st.
    unfold K. rewrite (one_bin bins _ Hs Hlen). now destruct (_ && _).
  - rewrite (map_ext _ (fun i => zsum (map (fun st => adj_get adj_matrix (fst st) (snd st))
                                  (filter (fun st => in_bin bins i (d_get d (fst st) (snd st))) L))))
      by (intros i; now rewrite Hsel).
    clear Hsel. clearbody L. induction L as [|st L IH].
    + cbn [filter map]. apply zsum_map_zero.
    + cbn [filter].
      pose proof (one_bin bins (d_get d (fst st) (snd st)) Hs Hlen) as Hone. fold K in Hone.
      rewrite (map_ext _ (fun i =>
                 (if in_bin bins i (d_get d (fst st) (snd st))
                  then adj_get adj_matrix (fst st) (snd st) else 0)
                 + zsum (map (fun st => adj_get adj_matrix (fst st) (snd st))
                          (filter (fun st => in_bin bins i (d_get d (fst st) (snd st))) L))))
        by (intros i; destruct (in_bin bins i _); cbn [map];
            [change (zsum (?a :: ?r)) with (a + zsum r); reflexivity | lia]).
      rewrite zsum_map_add, IH.
      assert (Hw : zsum (map (fun i => if in_bin bins i (d_get d (fst st) (snd st))
                                       then adj_get adj_matrix (fst st) (snd st) else 0)
                             (seq 0 K))
                   = Z.of_nat (length (filter (fun i => in_bin bins i (d_get d (fst st) (snd st)))
                                              (seq 0 K)))
                     * adj_get adj_matrix (fst st) (snd st)).
      { generalize (seq 0 K). intros l. induction l as [|i l IHl]; [reflexivity |].
        cbn [map filter]. change (zsum (?a :: ?r)) with (a + zsum r). rewrite IHl.
        destruct (in_bin bins i _); cbn [length]; lia. }
      rewrite Hw, Hone.
      destruct (geb _ _ && leb _ _); cbn [map];
        [change (zsum (?a :: ?r)) with (a + zsum r) |]; lia.
Qed.

(** X16.  With one dependency and bin edges in non-decreasing order,
    [extract_dependent_p_conn] counts each pair whose value lies between the
    first and the last edge in exactly one bin and no other pair in any: the
    counts of all pairs add up to the number of those pairs, the counts of
    connections to the sum of the adjacency entries over them. *)
Theorem single_dependency_counts_each_pair_once (adj_matrix : adjacency) (d : dense)
    (bins : list npfloat) (p : list npfloat) (cc ca : list Z) :
  edges_sorted bins -> (2 <= length bins)%nat ->
  extract_dependent_p_conn adj_matrix [d] [bins] = inr (p, cc, ca) ->
  length ca = (length bins - 1)%nat
  /\ zsum ca
     = Z.of_nat (length (filter (fun st => geb (d_get d (fst st) (snd st)) (hd NaN bins)
                                          && leb (d_get d (fst st) (snd st)) (last bins NaN))
                                (all_pairs (adj_shape adj_matrix))))
  /\ zsum cc
     = zsum (map (fun st => adj_get adj_matrix (fst st) (snd st))
                 (filter (fun st => geb (d_get d (fst st) (snd st)) (hd NaN bins)
                                    && leb (d_get d (fst st) (snd st)) (last bins NaN))
                         (all_pairs (adj_shape adj_matrix)))).
Proof.
  intros Hs Hlen Hext. split; [| now apply (single_dependency_partition _ _ _ p)].
  revert Hext. unfold extract_dependent_p_conn.
  destruct (negb _); [discriminate |].
  destruct (negb _); [discriminate |].
  destruct (existsb _ _); [discriminate |].
  intros [= _ _ <-]. cbn [map].
  rewrite length_map, (flat_map_singleton (fun x : nat => [x])), length_map, length_seq. lia.
Qed.

Lemma single_dependency_counts_each_pair_once_witness :
  length [0; 2; 4] = (length [Fin 0; Fin 1; Fin 2; Fin 3] - 1)%nat
  /\ zsum [0; 2; 4]
     = Z.of_nat (length (filter
                           (fun st =>
                              geb (d_get (compute_dist_matrix Q line_distance
                                            (map fst line3) (map fst line3)) (fst st) (snd st))
                                  (hd NaN [Fin 0; Fin 1; Fin 2; Fin 3])
                              && leb (d_get (compute_dist_matrix Q line_distance
                                               (map fst line3) (map fst line3)) (fst st) (snd st))
                                     (last [Fin 0; Fin 1; Fin 2; Fin 3] NaN))
                           (all_pairs (adj_shape adj3))))
  /\ zsum [0; 1; 2]
     = zsum (map (fun st => adj_get adj3 (fst st) (snd st))
                 (filter
                    (fun st =>
                       geb (d_get (compute_dist_matrix Q line_distance
                                     (map fst line3) (map fst line3)) (fst st) (snd st))
                           (hd NaN [Fin 0; Fin 1; Fin 2; Fin 3])
                       && leb (d_get (compute_dist_matrix Q line_distance
                                        (map fst line3) (map fst line3)) (fst st) (snd st))
                              (last [Fin 0; Fin 1; Fin 2; Fin 3] NaN))
                    (all_pairs (adj_shape adj3)))).
Proof.
  apply (single_dependency_counts_each_pair_once adj3
           (compute_dist_matrix Q line_distance (map fst line3) (map fst line3))
           [Fin 0; Fin 1; Fin 2; Fin 3] [Fin 0; Fin (1 # 2); Fin (1 # 2)] [0; 1; 2] [0; 2; 4]).
  - cbn. repeat split; reflexivity.
  - simpl. lia.
  - vm_compute. reflexivity.
Defined.

(** ** The distance bins cover every pair when no maximum range is given *)





Lemma Qle_bool_ext (a a' b b' : Q) :
  (a == a')%Q -> (b == b')%Q -> Qle_bool a b = Qle_bool a' b'.
Proof.
  intros Ha Hb. destruct (Qle_bool a b) eqn:E1, (Qle_bool a' b') eqn:E2; try reflexivity.
  - apply Qle_bool_iff in E1. rewrite Ha, Hb in E1. apply Qle_bool_iff in E1. congruence.
  - apply Qle_bool_iff in E2. rewrite <- Ha, <- Hb in E2. apply Qle_bool_iff in E2. congruence.
Qed.

Lemma leb_Fin_ext_l (a b : Q) (x : npfloat) : (a == b)%Q -> leb (Fin a) x = leb (Fin b) x.
Proof.
  intros H. destruct x; try reflexivity. cbn [leb]. now apply Qle_bool_ext.
Qed.

(** The maximum that [np.nanmax] returns is one of the entries, unless all
    are [nan]. *)
Lemma fold_fmax_In (l : list npfloat) :
  isnan (fold_right fmax NaN l) = false -> In (fold_right fmax NaN l) l.
Proof.
  induction l as [|x l IH]; [discriminate |].
  cbn [fold_right]. set (m := fold_right fmax NaN l) in *. unfold fmax.
  destruct (isnan x) eqn:Ex.
  - intros H. right. now apply IH.
  - destruct (isnan m) eqn:El; [intros _; now left |].
    destruct (leb x m); intros _; [right; now apply IH | now left].
Qed.

Section AllPairs.

Variable pos : Type.
Variable distance : pos -> pos -> npfloat.





End AllPairs.



(** ** Splitting the third-order extraction into chunks of rows *)

Lemma fold_fmin_lower (l : list npfloat) (x : npfloat) :
  In x l -> isnan x = false -> leb (fold_right fmin NaN l) x = true.
Proof.
  induction l as [|y l IH]; intros Hin Hx; [contradiction |].
  cbn [fold_right]. set (R := fold_right fmin NaN l) in *.
  unfold fmin. destruct Hin as [-> | Hin].
  - rewrite Hx. destruct (isnan R) eqn:ER; [now apply leb_refl |].
    destruct (leb x R) eqn:E; [now apply leb_refl | now apply leb_total].
  - specialize (IH Hin Hx). destruct (leb_not_nan _ _ IH) as [HR _].
    destruct (isnan y) eqn:Ey; [exact IH |]. rewrite HR.
    destruct (leb y R) eqn:E; [| exact IH].
    now apply (leb_trans y R x).
Qed.

Lemma selected_counts_gen (a : adjacency) (deps : list dense) (binss : list (list npfloat))
    (idx : list nat) :
  Z.of_nat (length (selected (adj_shape a) deps binss idx))
  = zsum (map (fun s => Z.of_nat (length (filter (dep_sel deps binss idx s)
                                                 (seq 0 (snd (adj_shape a))))))
              (seq 0 (fst (adj_shape a))))
  /\ zsum (map (fun st => adj_get a (fst st) (snd st)) (selected (adj_shape a) deps binss idx))
     = zsum (map (fun s => zsum (map (adj_get a s)
                                     (filter (dep_sel deps binss idx s)
                                             (seq 0 (snd (adj_shape a))))))
                 (seq 0 (fst (adj_shape a)))).
Proof.
  unfold selected. split.
  - rewrite length_flat_map_sum. f_equal. apply map_ext. intros s. now rewrite length_map.
  - rewrite zsum_flat_map. f_equal. apply map_ext. intros s. now rewrite map_map.
Qed.

Lemma zip_with_add_zero_map {A : Type} (l : list Z) (ix : list A) :
  length l = length ix -> zip_with Z.add l (map (fun _ => 0) ix) = l.
Proof.
  unfold zip_with. revert l.
  induction ix as [|i ix IHix]; intros [|x l] H; try discriminate; [reflexivity |].
  cbn [map combine fst snd]. rewrite IHix by (now injection H). f_equal. lia.
Qed.

Lemma d_get_outside (d : dense) (s t : nat) :
  d_get d s t = NaN \/ In (d_get d s t) (concat (d_rows d)).
Proof.
  unfold d_get. destruct (Nat.lt_ge_cases s (length (d_rows d))) as [Hs | Hs].
  - destruct (Nat.lt_ge_cases t (length (nth s (d_rows d) []))) as [Ht | Ht].
    + right. apply in_concat. exists (nth s (d_rows d) []).
      split; [now apply nth_In | now apply nth_In].
    + left. now apply nth_overflow.
  - left. rewrite (nth_overflow (d_rows d) [] Hs). now destruct t.
Qed.

Lemma bip_entries (src tgt : list npfloat) (x : npfloat) :
  In x (concat (d_rows (compute_bip_matrix src tgt))) ->
  x = NaN \/ x = Fin (-1) \/ x = Fin 0 \/ x = Fin 1.
Proof.
  rewrite compute_bip_matrix_rows. intros H. apply in_concat in H as (row & Hrow & Hx).
  apply in_map_iff in Hrow as (s & <- & _). apply in_map_iff in Hx as (t & <- & _).
  apply np_sign_values.
Qed.

(** On the entries of the bipolar matrix, the bins [[min, 0, max]] select
    what the bins [[-1, 0, 1]] select. *)
Lemma in_bin_signs (entries : list npfloat) (lo hi x : npfloat) (j : nat) :
  nanmin entries = inr lo -> nanmax entries = inr hi ->
  x = NaN \/ (In x entries /\ (x = Fin (-1) \/ x = Fin 0 \/ x = Fin 1)) ->
  in_bin [lo; Fin 0; hi] j x = in_bin [Fin (-1); Fin 0; Fin 1] j x.
Proof.
  intros Hlo Hhi [-> | [Hin Hx]].
  - unfold in_bin, geb. destruct j as [|[|[|j]]]; cbn [nth]; try reflexivity.
    + now destruct lo.
    + now destruct hi.
  - assert (Hnan : isnan x = false) by (destruct Hx as [-> | [-> | ->]]; reflexivity).
    assert (Hl : leb lo x = true).
    { unfold nanmin in Hlo. destruct entries as [|e0 entries]; [contradiction |].
      assert (E : lo = fold_right fmin NaN (e0 :: entries)) by congruence.
      rewrite E. now apply fold_fmin_lower. }
    assert (Hh : leb x hi = true).
    { unfold nanmax in Hhi. destruct entries as [|e0 entries]; [contradiction |].
      assert (E : hi = fold_right fmax NaN (e0 :: entries)) by congruence.
      rewrite E. now apply fold_fmax_upper. }
    unfold in_bin, geb. destruct j as [|[|[|j]]]; cbn [nth Nat.add length].
    + rewrite Hl. destruct Hx as [-> | [-> | ->]]; reflexivity.
    + change (Z.of_nat 1 <? Z.of_nat 3 - 1 - 1) with false. cbv iota. rewrite Hh.
      destruct Hx as [-> | [-> | ->]]; reflexivity.
    + change (Z.of_nat 2 <? Z.of_nat 3 - 1 - 1) with false. cbv iota.
      destruct Hx as [-> | [-> | ->]]; cbn [leb]; now rewrite !andb_false_r.
    + reflexivity.
Qed.

Section ThirdOrderChunks.

Variable pos : Type.
Variable distance : pos -> pos -> npfloat.
Variable adj_matrix : adjacency.
Variable nrn_table : list (pos * npfloat).
Variable bins : list npfloat.

Let N : nat := length nrn_table.
Let pos_table : list pos := map fst nrn_table.
Let depth_table : list npfloat := map snd nrn_table.

Hypothesis adj_square : adj_shape adj_matrix = (N, N).
Hypothesis bins_nonempty : (1 <= length bins)%nat.

Let full_d : dense := compute_dist_matrix pos distance pos_table pos_table.
Let full_b : dense := compute_bip_matrix depth_table depth_table.
Let signs : list npfloat := [Fin (-1); Fin 0; Fin 1].
Let idxs : list (list nat) :=
  product [seq 0 (Z.to_nat (Z.of_nat (length bins) - 1)); seq 0 2].

Let row_all (idx : list nat) (s : nat) : Z :=
  Z.of_nat (length (filter (dep_sel [full_d; full_b] [bins; signs] idx s) (seq 0 N))).
Let row_conn (idx : list nat) (s : nat) : Z :=
  zsum (map (adj_get adj_matrix s)
            (filter (dep_sel [full_d; full_b] [bins; signs] idx s) (seq 0 N))).

Lemma dep_sel_signs (lo hi : npfloat) (idx : list nat) (s t : nat) :
  nanmin (concat (d_rows full_b)) = inr lo -> nanmax (concat (d_rows full_b)) = inr hi ->
  dep_sel [full_d; full_b] [bins; [lo; Fin 0; hi]] idx s t
  = dep_sel [full_d; full_b] [bins; signs] idx s t.
Proof.
  intros Hlo Hhi. unfold dep_sel. destruct idx as [|i [|j idx]]; try reflexivity.
  cbn [combine forallb fst snd]. f_equal. f_equal.
  apply (in_bin_signs _ lo hi _ j Hlo Hhi).
  destruct (d_get_outside full_b s t) as [E | Hin]; [now left |].
  destruct (bip_entries _ _ _ Hin) as [E | H]; [now left | right; now split].
Qed.

Lemma extract_full3 (lo hi : npfloat) :
  nanmin (concat (d_rows full_b)) = inr lo -> nanmax (concat (d_rows full_b)) = inr hi ->
  exists p,
    extract_dependent_p_conn adj_matrix [full_d; full_b] [bins; [lo; Fin 0; hi]]
    = inr (p, map (fun idx => zsum (map (row_conn idx) (seq 0 N))) idxs,
              map (fun idx => zsum (map (row_all idx) (seq 0 N))) idxs).
Proof.
  intros Hlo Hhi. unfold extract_dependent_p_conn.
  cbn [length Nat.eqb negb forallb map existsb d_shape full_d full_b compute_dist_matrix
       compute_bip_matrix fst snd].
  unfold pos_table, depth_table. rewrite !length_map. fold N. rewrite adj_square.
  cbn [fst snd]. rewrite !Nat.eqb_refl. cbn [andb negb orb].
  destruct (Z.ltb_spec (Z.of_nat (length bins) - 1) 0) as [H | H]; [lia |].
  change (Z.of_nat 3 - 1 <? 0) with false. cbn [orb].
  eexists. apply f_equal. apply f_equal2; [apply (f_equal (pair _)) |];
    apply map_ext; intros idx.
  - pose proof (selected_counts_gen adj_matrix
                  [compute_dist_matrix pos distance (map fst nrn_table) (map fst nrn_table);
                   compute_bip_matrix (map snd nrn_table) (map snd nrn_table)]
                  [bins; [lo; Fin 0; hi]] idx) as [_ Hc].
    rewrite adj_square in Hc. cbn [fst snd] in Hc. refine (eq_trans Hc _). f_equal.
    apply map_ext. intros s. unfold row_conn. do 2 f_equal.
    apply filter_ext. intros t. now apply dep_sel_signs.
  - pose proof (selected_counts_gen adj_matrix
                  [compute_dist_matrix pos distance (map fst nrn_table) (map fst nrn_table);
                   compute_bip_matrix (map snd nrn_table) (map snd nrn_table)]
                  [bins; [lo; Fin 0; hi]] idx) as [Ha _].
    rewrite adj_square in Ha. cbn [fst snd] in Ha. refine (eq_trans Ha _). f_equal.
    apply map_ext. intros s. unfold row_all. do 2 f_equal.
    apply filter_ext. intros t. now apply dep_sel_signs.
Qed.

Lemma d_get_bip_split (sel : list nat) (k t : nat) :
  Forall (fun s => (s < N)%nat) sel -> (k < length sel)%nat ->
  d_get (compute_bip_matrix (take_rows depth_table sel) depth_table) k t
  = d_get full_b (nth k sel O) t.
Proof.
  intros Hsel Hk. unfold d_get, full_b. rewrite !compute_bip_matrix_rows.
  assert (Hsel' : Forall (fun s => (s < length depth_table)%nat) sel).
  { unfold depth_table. now rewrite length_map. }
  rewrite !nth_map_error, (nth_error_take_rows depth_table sel k Hsel' Hk). reflexivity.
Qed.

Lemma dep_sel_split3 (sel : list nat) (idx : list nat) (k t : nat) :
  Forall (fun s => (s < N)%nat) sel -> (k < length sel)%nat ->
  dep_sel [compute_dist_matrix pos distance (take_rows pos_table sel) pos_table;
           compute_bip_matrix (take_rows depth_table sel) depth_table]
          [bins; signs] idx k t
  = dep_sel [full_d; full_b] [bins; signs] idx (nth k sel O) t.
Proof.
  intros Hsel Hk. unfold dep_sel. destruct idx as [|i [|j idx]]; try reflexivity.
  - cbn [combine forallb fst snd]. rewrite d_get_split; [reflexivity | | exact Hk].
    unfold pos_table. now rewrite length_map.
  - cbn [combine forallb fst snd]. rewrite d_get_bip_split by assumption.
    rewrite d_get_split; [reflexivity | | exact Hk].
    unfold pos_table. now rewrite length_map.
Qed.

Lemma extract_split3 (sel : list nat) :
  Forall (fun s => (s < N)%nat) sel ->
  exists adj_split p,
    adj_rows adj_matrix sel = inr adj_split
    /\ extract_dependent_p_conn adj_split
         [compute_dist_matrix pos distance (take_rows pos_table sel) pos_table;
          compute_bip_matrix (take_rows depth_table sel) depth_table]
         [bins; signs]
       = inr (p, map (fun idx => zsum (map (row_conn idx) sel)) idxs,
                 map (fun idx => zsum (map (row_all idx) sel)) idxs).
Proof.
  intros Hsel. unfold adj_rows. rewrite adj_square. cbn [fst snd].
  assert (Hex : existsb (fun s => (N <=? s)%nat) sel = false).
  { apply not_true_is_false. intros H. apply existsb_exists in H as (s & Hs & Hle).
    rewrite Forall_forall in Hsel. specialize (Hsel s Hs). apply Nat.leb_le in Hle. lia. }
  rewrite Hex. eexists. eexists. split; [reflexivity |].
  assert (Hp : Forall (fun s => (s < length pos_table)%nat) sel).
  { unfold pos_table. now rewrite length_map. }
  assert (Hd : Forall (fun s => (s < length depth_table)%nat) sel).
  { unfold depth_table. now rewrite length_map. }
  unfold extract_dependent_p_conn.
  cbn [length Nat.eqb negb forallb map existsb d_shape compute_dist_matrix compute_bip_matrix
       fst snd adj_shape signs].
  rewrite (length_take_rows pos_table sel Hp), (length_take_rows depth_table sel Hd).
  unfold pos_table at 1, depth_table at 1. rewrite !length_map. fold N.
  rewrite !Nat.eqb_refl. cbn [andb negb orb].
  destruct (Z.ltb_spec (Z.of_nat (length bins) - 1) 0) as [H | H]; [lia |].
  change (Z.of_nat 3 - 1 <? 0) with false. cbn [orb].
  apply f_equal. apply f_equal2; [apply (f_equal (pair _)) |];
    apply map_ext; intros idx; cbn [adj_get].
  - match goal with |- zsum (map _ (selected ?sh ?dd ?bb _)) = _ =>
      pose proof (selected_counts_gen
                    {| adj_shape := sh;
                       adj_get := fun k t => adj_get adj_matrix (nth k sel O) t |}
                    dd bb idx) as [_ Hc] end.
    cbn [adj_shape adj_get fst snd] in Hc. refine (eq_trans Hc _).
    rewrite <- (map_nth_seq (row_conn idx) sel). f_equal.
    apply map_ext_in. intros k Hk. apply in_seq in Hk. unfold row_conn. f_equal. f_equal.
    apply filter_ext. intros t. apply dep_sel_split3; [exact Hsel | lia].
  - match goal with |- Z.of_nat (length (selected ?sh ?dd ?bb _)) = _ =>
      pose proof (selected_counts_gen
                    {| adj_shape := sh;
                       adj_get := fun k t => adj_get adj_matrix (nth k sel O) t |}
                    dd bb idx) as [Ha _] end.
    cbn [adj_shape adj_get fst snd] in Ha. refine (eq_trans Ha _).
    rewrite <- (map_nth_seq (row_all idx) sel). f_equal.
    apply map_ext_in. intros k Hk. apply in_seq in Hk. unfold row_all. do 2 f_equal.
    apply filter_ext. intros t. apply dep_sel_split3; [exact Hsel | lia].
Qed.

Lemma accumulate_3rd_spec (splits : list (list nat)) (cc ca : list Z) :
  Forall (Forall (fun s => (s < N)%nat)) splits ->
  length cc = length idxs -> length ca = length idxs ->
  accumulate_3rd pos distance adj_matrix pos_table depth_table bins signs splits cc ca
  = inr (zip_with Z.add cc (map (fun idx => zsum (map (row_conn idx) (concat splits))) idxs),
         zip_with Z.add ca (map (fun idx => zsum (map (row_all idx) (concat splits))) idxs)).
Proof.
  intros H. revert cc ca. induction H as [|sel splits Hsel Hsplits IH]; intros cc ca Hcc Hca.
  - cbn [accumulate_3rd concat map zsum fold_right].
    now rewrite !zip_with_add_zero_map.
  - cbn [accumulate_3rd].
    destruct (extract_split3 sel Hsel) as (adj_split & p & Ha & He).
    rewrite Ha. cbn [bind]. rewrite He. cbn [bind fst snd].
    rewrite IH by (rewrite length_zip_with; rewrite ?length_map; congruence).
    rewrite !zip_with_add_assoc, !zip_with_add_map. cbn [concat].
    f_equal. f_equal; f_equal; apply map_ext; intros idx; now rewrite map_app, zsum_app.
Qed.

(** The counts of the chunked run with the bins [[-1, 0, 1]] are those of the
    run on all rows with the bins [[min, 0, max]]. *)
Lemma chunked_counts3 (N_split : nat) (lo hi : npfloat) (p : list npfloat) (cc ca : list Z) :
  nanmin (concat (d_rows full_b)) = inr lo -> nanmax (concat (d_rows full_b)) = inr hi ->
  extract_dependent_p_conn adj_matrix [full_d; full_b] [bins; [lo; Fin 0; hi]]
  = inr (p, cc, ca) ->
  accumulate_3rd pos distance adj_matrix pos_table depth_table bins signs
    (split_indices N N_split) (repeat 0 (length idxs)) (repeat 0 (length idxs))
  = inr (cc, ca).
Proof.
  intros Hlo Hhi Hfull. destruct (extract_full3 lo hi Hlo Hhi) as (p' & Hp').
  rewrite Hp' in Hfull. injection Hfull as _ <- <-.
  pose proof (concat_split_indices N N_split) as Hcat.
  rewrite accumulate_3rd_spec.
  - rewrite Hcat.
    rewrite <- (length_map (fun idx => zsum (map (row_conn idx) (seq 0 N))) idxs) at 1.
    rewrite <- (length_map (fun idx => zsum (map (row_all idx) (seq 0 N))) idxs) at 1.
    now rewrite !zip_with_add_zeros.
  - apply Forall_forall. intros sel Hsel. apply Forall_forall. intros s Hs.
    assert (Hin : In s (concat (split_indices N N_split))).
    { apply in_concat. exists sel. now split. }
    rewrite Hcat in Hin. apply in_seq in Hin. lia.
  - apply repeat_length.
  - apply repeat_length.
Qed.

End ThirdOrderChunks.

Lemma extract_checks3 (adj_matrix : adjacency) (d1 d2 : dense) (b1 b2 : list npfloat)
    (res : list npfloat * list Z * list Z) :
  extract_dependent_p_conn adj_matrix [d1; d2] [b1; b2] = inr res ->
  adj_shape adj_matrix = d_shape d1 /\ (1 <= length b1)%nat.
Proof.
  unfold extract_dependent_p_conn.
  cbn [length Nat.eqb negb forallb map existsb].
  destruct (Nat.eqb_spec (fst (d_shape d1)) (fst (adj_shape adj_matrix))) as [E1 | E1];
    [| discriminate].
  destruct (Nat.eqb_spec (snd (d_shape d1)) (snd (adj_shape adj_matrix))) as [E2 | E2];
    [| discriminate].
  cbn [andb]. destruct (negb _); [discriminate |].
  destruct (Z.ltb_spec (Z.of_nat (length b1) - 1) 0) as [H | H]; [discriminate |].
  intros _. split; [| lia].
  destruct (adj_shape adj_matrix), (d_shape d1). cbn [fst snd] in *. congruence.
Qed.

Lemma length_product_two (l1 l2 : list nat) :
  length (product [l1; l2]) = (length l1 * length l2)%nat.
Proof.
  cbn [product]. apply length_flat_map_const. intros x _.
  rewrite length_map, (length_flat_map_const _ 1%nat); [lia |]. intros y _. reflexivity.
Qed.

(** X19.  Whenever [extract_3rd_order] on all rows at once returns,
    the extraction split into [N_split > 1] chunks returns the same
    probabilities, counts and distance bins; only the reported bipolar bins
    differ: they are [[-1, 0, 1]] instead of [[min, 0, max]]. *)
Theorem chunked_third_order_agrees (pos : Type) (distance : pos -> pos -> npfloat)
    (adj_matrix : adjacency) (nrn_table : list (pos * npfloat))
    (bin_size_um max_range_um : Q) (N_split : nat) (r : extracted) :
  (1 < N_split)%nat ->
  extract_3rd_order pos distance adj_matrix nrn_table bin_size_um (Some max_range_um) (Some 1%nat)
  = inr r ->
  extract_3rd_order pos distance adj_matrix nrn_table bin_size_um (Some max_range_um)
    (Some N_split)
  = inr {| p_conn := p_conn r; count_conn := count_conn r; count_all := count_all r;
           dist_bins := dist_bins r; bip_bins := [Fin (-1); Fin 0; Fin 1] |}.
Proof.
  intros Hk. unfold extract_3rd_order.
  change (1 =? 0)%nat with false. change (1 =? 1)%nat with true. cbv iota. cbn [bind].
  destruct (Nat.eqb_spec N_split 0) as [E0 | _]; [lia |].
  destruct (Nat.eqb_spec N_split 1) as [E1 | _]; [lia |].
  destruct (python_div max_range_um bin_size_um) as [e | ratio]; [discriminate |].
  cbn [bind].
  destruct (ceil_astype_int ratio) as [e | nb]; [discriminate |].
  cbn [bind].
  destruct (nanmin _) as [e | lo] eqn:Elo; [discriminate |]. cbn [bind].
  destruct (nanmax _) as [e | hi] eqn:Ehi; [discriminate |]. cbn [bind].
  destruct (extract_dependent_p_conn adj_matrix _ _) as [e | [[p cc] ca]] eqn:Efull;
    [discriminate |].
  cbn [bind fst snd]. intros [= <-].
  cbn [p_conn count_conn count_all dist_bins].
  destruct (extract_checks3 _ _ _ _ _ _ Efull) as [Hshape Hbins].
  cbn [compute_dist_matrix d_shape] in Hshape. rewrite length_map in Hshape.
  rewrite length_bin_edges in Hbins.
  destruct (Z.ltb_spec nb 0) as [Hneg | Hnn]; [lia |].
  pose proof (chunked_counts3 pos distance adj_matrix nrn_table
                (bin_edges nb bin_size_um) Hshape) as Hch.
  cbv zeta in Hch. rewrite length_bin_edges in Hch.
  specialize (Hch ltac:(lia) N_split lo hi p cc ca Elo Ehi Efull).
  rewrite length_product_two, !length_seq in Hch.
  replace (Z.to_nat (Z.of_nat (Z.to_nat (nb + 1)) - 1)) with (Z.to_nat nb) in Hch by lia.
  rewrite Hch. cbn [bind fst snd].
  now rewrite (extract_p_conn_of_counts _ _ _ _ _ _ Efull).
Qed.

Lemma chunked_third_order_agrees_witness :
  extract_3rd_order Q line_distance adj3 line3 1 (Some 3%Q) (Some 2%nat)
  = inr {| p_conn := [Fin 0; Fin 0; Fin 1; Fin 0; Fin 0; Fin (2 # 3)];
           count_conn := [0; 0; 1; 0; 0; 2];
           count_all := [0; 0; 1; 1; 1; 3];
           dist_bins := [Fin 0; Fin 1; Fin 2; Fin 3];
           bip_bins := [Fin (-1); Fin 0; Fin 1] |}.
Proof.
  apply (chunked_third_order_agrees Q line_distance adj3 line3 1 3 2
           {| p_conn := [Fin 0; Fin 0; Fin 1; Fin 0; Fin 0; Fin (2 # 3)];
              count_conn := [0; 0; 1; 0; 0; 2];
              count_all := [0; 0; 1; 1; 1; 3];
              dist_bins := [Fin 0; Fin 1; Fin 2; Fin 3];
              bip_bins := [Fin (-1); Fin 0; Fin 1] |}).
  - lia.
  - vm_compute. reflexivity.
Defined.

(** ** Arguments and tables that the extraction rejects *)

(** X20.  What [extract_2nd_order] and [extract_3rd_order] reject:
    [N_split = 0] and a split without maximal range fail their assertions; a
    zero bin size with a given maximal range is a [ZeroDivisionError]; without
    maximal range, a table of at most one neuron has no distance to take the
    maximum of and gives a [ValueError]. *)
Theorem extraction_rejects (pos : Type) (distance : pos -> pos -> npfloat)
    (adj_matrix : adjacency) (nrn_table : list (pos * npfloat))
    (bin_size_um : Q) (max_range_um : option Q) (N_split : option nat) :
  (N_split = Some 0%nat ->
   extract_2nd_order pos distance adj_matrix nrn_table bin_size_um max_range_um N_split
   = inl (AssertionError "ERROR: Number of data splits must be larger than 0!")
   /\ extract_3rd_order pos distance adj_matrix nrn_table bin_size_um max_range_um N_split
      = inl (AssertionError "ERROR: Number of data splits must be larger than 0!"))
  /\ (forall k, N_split = Some k -> (2 <= k)%nat -> max_range_um = None ->
      extract_2nd_order pos distance adj_matrix nrn_table bin_size_um max_range_um N_split
      = inl (AssertionError "ERROR: Max. range must be specified if N_split larger than 1!")
      /\ extract_3rd_order pos distance adj_matrix nrn_table bin_size_um max_range_um N_split
         = inl (AssertionError "ERROR: Max. range must be specified if N_split larger than 1!"))
  /\ (forall m, max_range_um = Some m -> (bin_size_um == 0)%Q -> N_split <> Some 0%nat ->
      extract_2nd_order pos distance adj_matrix nrn_table bin_size_um max_range_um N_split
      = inl ZeroDivisionError
      /\ extract_3rd_order pos distance adj_matrix nrn_table bin_size_um max_range_um N_split
         = inl ZeroDivisionError)
  /\ (max_range_um = None -> N_split = None \/ N_split = Some 1%nat ->
      (length nrn_table <= 1)%nat -> (forall p, distance p p = Fin 0) ->
      exists msg,
        extract_2nd_order pos distance adj_matrix nrn_table bin_size_um max_range_um N_split
        = inl (ValueError msg)
        /\ extract_3rd_order pos distance adj_matrix nrn_table bin_size_um max_range_um N_split
           = inl (ValueError msg)).
Proof.
  split; [| split; [| split]].
  - intros ->. split; reflexivity.
  - intros k -> Hk ->. unfold extract_2nd_order, extract_3rd_order.
    destruct (Nat.eqb_spec k 0) as [E0 | _]; [lia |].
    destruct (Nat.eqb_spec k 1) as [E1 | _]; [lia |]. split; reflexivity.
  - intros m -> Hb Hk. apply Qeq_bool_iff in Hb.
    unfold extract_2nd_order, extract_3rd_order, python_div. rewrite Hb.
    destruct N_split as [[|[|k]]|]; try congruence; split; reflexivity.
  - intros -> Hk Hlen Hd.
    assert (H : extract_2nd_order pos distance adj_matrix nrn_table bin_size_um None N_split
                = extract_2nd_order pos distance adj_matrix nrn_table bin_size_um None None
                /\ extract_3rd_order pos distance adj_matrix nrn_table bin_size_um None N_split
                   = extract_3rd_order pos distance adj_matrix nrn_table bin_size_um None None).
    { destruct Hk as [-> | ->]; split; reflexivity. }
    destruct H as [-> ->]. unfold extract_2nd_order, extract_3rd_order.
    change (1 =? 0)%nat with false. change (1 =? 1)%nat with true. cbv iota.
    destruct nrn_table as [|[p d] [|? ?]]; [| | cbn [length] in Hlen; lia].
    + eexists. split; reflexivity.
    + cbn [map compute_dist_matrix d_rows concat app nanmax fold_right]. rewrite Hd.
      change (eqb (Fin 0) (Fin 0)) with true. cbv iota zeta.
      eexists. split; reflexivity.
Qed.

(** ** Fitting the distance-dependent model to the extracted data *)






(** ** The bipolar bins of the run on all rows *)

Lemma fold_fmin_In (l : list npfloat) :
  isnan (fold_right fmin NaN l) = false -> In (fold_right fmin NaN l) l.
Proof.
  induction l as [|x l IH]; [discriminate |].
  cbn [fold_right]. set (m := fold_right fmin NaN l) in *. unfold fmin.
  destruct (isnan x) eqn:Ex.
  - intros H. right. now apply IH.
  - destruct (isnan m) eqn:El; [intros _; now left |].
    destruct (leb x m); intros _; [now left | right; now apply IH].
Qed.

Lemma bip_entries_opp (depths : list npfloat) (x : npfloat) :
  In x (concat (d_rows (compute_bip_matrix depths depths))) ->
  In (opp x) (concat (d_rows (compute_bip_matrix depths depths))).
Proof.
  rewrite compute_bip_matrix_rows. intros H. apply in_concat in H as (row & Hrow & Hx).
  apply in_map_iff in Hrow as (s & <- & Hs). apply in_map_iff in Hx as (t & <- & Ht).
  apply in_concat. exists (map (fun t0 => np_sign (opp (sub t0 t))) depths). split.
  - apply in_map_iff. now exists t.
  - apply in_map_iff. exists s. split; [| exact Hs].
    now rewrite !np_sign_opp_sub, opp_np_sign_sub.
Qed.

Lemma bipolar_extremes (depths : list npfloat) (lo hi : npfloat) :
  nanmin (concat (d_rows (compute_bip_matrix depths depths))) = inr lo ->
  nanmax (concat (d_rows (compute_bip_matrix depths depths))) = inr hi ->
  (lo = Fin (-1) /\ hi = Fin 1
   /\ In (Fin 1) (concat (d_rows (compute_bip_matrix depths depths))))
  \/ (lo = Fin 0 /\ hi = Fin 0
      /\ ~ In (Fin 1) (concat (d_rows (compute_bip_matrix depths depths))))
  \/ (lo = NaN /\ hi = NaN
      /\ ~ In (Fin 1) (concat (d_rows (compute_bip_matrix depths depths)))).
Proof.
  set (entries := concat (d_rows (compute_bip_matrix depths depths))).
  intros Hlo Hhi.
  assert (Elo : lo = fold_right fmin NaN entries).
  { unfold nanmin in Hlo. destruct entries; [discriminate | congruence]. }
  assert (Ehi : hi = fold_right fmax NaN entries).
  { unfold nanmax in Hhi. destruct entries; [discriminate | congruence]. }
  assert (Hval : forall x, In x entries -> x = NaN \/ x = Fin (-1) \/ x = Fin 0 \/ x = Fin 1).
  { intros x Hx. now apply (bip_entries depths depths). }
  assert (Hopp : forall x, In x entries -> In (opp x) entries).
  { intros x Hx. now apply bip_entries_opp. }
  assert (Hup : forall x, In x entries -> isnan x = false -> leb x hi = true).
  { intros x Hx Hn. rewrite Ehi. now apply fold_fmax_upper. }
  assert (Hdn : forall x, In x entries -> isnan x = false -> leb lo x = true).
  { intros x Hx Hn. rewrite Elo. now apply fold_fmin_lower. }
  assert (Hhi_in : isnan hi = false -> In hi entries).
  { intros Hn. rewrite Ehi. apply fold_fmax_In. now rewrite <- Ehi. }
  assert (Hlo_in : isnan lo = false -> In lo entries).
  { intros Hn. rewrite Elo. apply fold_fmin_In. now rewrite <- Elo. }
  assert (Hone : In (Fin 1) entries -> In (Fin (-1)) entries).
  { intros H. apply (Hopp _ H). }
  assert (Hmone : In (Fin (-1)) entries -> In (Fin 1) entries).
  { intros H. apply (Hopp _ H). }
  clear Hlo Hhi Elo Ehi.
  destruct (isnan hi) eqn:Nhi.
  - (* every entry is nan *)
    assert (Hall : forall x, In x entries -> x = NaN).
    { intros x Hx. destruct (isnan x) eqn:Nx; [now destruct x |].
      specialize (Hup x Hx Nx). apply leb_not_nan in Hup as [_ Hup]. congruence. }
    right. right. destruct hi; try discriminate.
    destruct (isnan lo) eqn:Nlo.
    + destruct lo; try discriminate. repeat split. intros H. specialize (Hall _ H). discriminate.
    + specialize (Hall _ (Hlo_in eq_refl)). rewrite Hall in Nlo. discriminate.
  - pose proof (Hhi_in eq_refl) as Hin.
    assert (Nlo : isnan lo = false).
    { specialize (Hdn hi Hin Nhi). now apply leb_not_nan in Hdn as [Hdn _]. }
    pose proof (Hlo_in Nlo) as Hlin.
    destruct (Hval hi Hin) as [E | [E | [E | E]]]; subst hi; try discriminate.
    + (* -1 cannot be the maximum *)
      exfalso. specialize (Hup _ (Hmone Hin) eq_refl). discriminate.
    + right. left.
      assert (Hno : ~ In (Fin 1) entries).
      { intros H. specialize (Hup _ H eq_refl). discriminate. }
      destruct (Hval lo Hlin) as [E | [E | [E | E]]]; subst lo; try discriminate.
      * exfalso. apply Hno. now apply Hmone.
      * now repeat split.
      * contradiction.
    + left. specialize (Hdn _ (Hone Hin) eq_refl).
      destruct (Hval lo Hlin) as [E | [E | [E | E]]]; subst lo; try discriminate.
      now repeat split.
Qed.

Lemma third_order_unchunked (pos : Type) (distance : pos -> pos -> npfloat)
    (adj_matrix : adjacency) (nrn_table : list (pos * npfloat))
    (bin_size_um : Q) (max_range_um : option Q) (N_split : option nat) (r : extracted) :
  N_split = None \/ N_split = Some 1%nat ->
  extract_3rd_order pos distance adj_matrix nrn_table bin_size_um max_range_um N_split = inr r ->
  exists nb lo hi,
    0 <= nb
    /\ dist_bins r = bin_edges nb bin_size_um
    /\ bip_bins r = [lo; Fin 0; hi]
    /\ nanmin (concat (d_rows (compute_bip_matrix (map snd nrn_table) (map snd nrn_table))))
       = inr lo
    /\ nanmax (concat (d_rows (compute_bip_matrix (map snd nrn_table) (map snd nrn_table))))
       = inr hi
    /\ extract_dependent_p_conn adj_matrix
         [compute_dist_matrix pos distance (map fst nrn_table) (map fst nrn_table);
          compute_bip_matrix (map snd nrn_table) (map snd nrn_table)]
         [bin_edges nb bin_size_um; [lo; Fin 0; hi]]
       = inr (p_conn r, count_conn r, count_all r).
Proof.
  intros Hk H.
  assert (H' : extract_3rd_order pos distance adj_matrix nrn_table bin_size_um max_range_um None
               = inr r).
  { destruct Hk as [-> | ->]; exact H. }
  clear H Hk. unfold extract_3rd_order in H'.
  change ((1 =? 0)%nat) with false in H'. change ((1 =? 1)%nat) with true in H'. cbv iota in H'.
  match type of H' with bind ?c _ = _ => destruct c as [e | ratio]; [discriminate |] end.
  cbn [bind] in H'.
  destruct (ceil_astype_int ratio) as [e | nb]; [discriminate |]. cbn [bind] in H'.
  destruct (nanmin _) as [e | lo] eqn:Elo; [discriminate |]. cbn [bind] in H'.
  destruct (nanmax _) as [e | hi] eqn:Ehi; [discriminate |]. cbn [bind] in H'.
  destruct (extract_dependent_p_conn adj_matrix _ _) as [e | [[p cc] ca]] eqn:Eext;
    [discriminate |].
  cbn [bind fst snd] in H'. injection H' as <-.
  cbn [dist_bins bip_bins p_conn count_conn count_all].
  exists nb, lo, hi. split; [| now repeat split].
  destruct (extract_checks3 _ _ _ _ _ _ Eext) as [_ Hb]. rewrite length_bin_edges in Hb. lia.
Qed.

(** X22.  The bipolar bins that [extract_3rd_order] reports when it runs
    on all rows at once are one of three lists: [[-1, 0, 1]] exactly when some
    neuron lies above another (the bipolar matrix has an entry 1, hence also
    an entry -1), and otherwise [[0, 0, 0]] or, when no depth difference is a
    number, [[nan, 0, nan]]. *)
Theorem third_order_bipolar_bins (pos : Type) (distance : pos -> pos -> npfloat)
    (adj_matrix : adjacency) (nrn_table : list (pos * npfloat))
    (bin_size_um : Q) (max_range_um : option Q) (N_split : option nat) (r : extracted) :
  N_split = None \/ N_split = Some 1%nat ->
  extract_3rd_order pos distance adj_matrix nrn_table bin_size_um max_range_um N_split = inr r ->
  (bip_bins r = [Fin (-1); Fin 0; Fin 1]
   /\ In (Fin 1) (concat (d_rows (compute_bip_matrix (map snd nrn_table) (map snd nrn_table)))))
  \/ ((bip_bins r = [Fin 0; Fin 0; Fin 0] \/ bip_bins r = [NaN; Fin 0; NaN])
      /\ ~ In (Fin 1)
             (concat (d_rows (compute_bip_matrix (map snd nrn_table) (map snd nrn_table))))).
Proof.
  intros Hk H.
  destruct (third_order_unchunked _ _ _ _ _ _ _ _ Hk H)
    as (nb & lo & hi & _ & _ & Hb & Hlo & Hhi & _).
  rewrite Hb.
  destruct (bipolar_extremes _ lo hi Hlo Hhi)
    as [(-> & -> & Hin) | [(-> & -> & Hno) | (-> & -> & Hno)]].
  - left. now split.
  - right. split; [now left | exact Hno].
  - right. split; [now right | exact Hno].
Qed.

Lemma third_order_bipolar_bins_witness :
  ([Fin (-1); Fin 0; Fin 1] = [Fin (-1); Fin 0; Fin 1]
   /\ In (Fin 1) (concat (d_rows (compute_bip_matrix (map snd line3) (map snd line3)))))
  \/ (([Fin (-1); Fin 0; Fin 1] = [Fin 0; Fin 0; Fin 0]
       \/ [Fin (-1); Fin 0; Fin 1] = [NaN; Fin 0; NaN])
      /\ ~ In (Fin 1) (concat (d_rows (compute_bip_matrix (map snd line3) (map snd line3))))).
Proof.
  apply (third_order_bipolar_bins Q line_distance adj3 line3 1 (Some 3%Q) None
           {| p_conn := [Fin 0; Fin 0; Fin 1; Fin 0; Fin 0; Fin (2 # 3)];
              count_conn := [0; 0; 1; 0; 0; 2];
              count_all := [0; 0; 1; 1; 1; 3];
              dist_bins := [Fin 0; Fin 1; Fin 2; Fin 3];
              bip_bins := [Fin (-1); Fin 0; Fin 1] |}).
  - now left.
  - vm_compute. reflexivity.
Defined.

(** ** Fitting the bipolar model to the extracted data *)




